(** * mpi-sppy: the sampling and fixed-set inner-bound spokes

    A shallow embedding of [mpisppy/cylinders/xhataphshuffle_bounder.py]
    (class [ScenarioCycler], class [XhatShuffleInnerBound]) and of
    [mpisppy/cylinders/xhatspecific_bounder.py]
    (class [XhatSpecificInnerBound]), with the properties the specification
    states about them; then of [mpisppy/log.py] ([_reach], [global_toc],
    [AddRanksAndElapsedTimeFilter.filter], [load_config]) and of the driver
    [examples/farmer/farmer_cylinders.py], with further properties of all of
    them.

    Python values are modelled as follows.
    - [str] candidate identifiers are [string].
    - [int] is unbounded, hence [Z]; [%] is Python's floored modulo, which is
      [Z.modulo], and raises [ZeroDivisionError] on a zero divisor.
    - [float] is IEEE 754 binary64; only comparison, subtraction and [abs]
      occur, and they are taken from the Standard Library's executable
      specification [SpecFloat] (no rounding is abstracted away).
    - [set] is stdpp's [gset]; [dict] is stdpp's [gmap].
    - an exception is an explicit error result. *)

From Stdlib Require Import ZArith Floats.SpecFloat.
From stdpp Require Import base option list sets gmap strings pretty.

Local Open Scope Z_scope.
Local Set Warnings "-clear-no-such-hyp".

(** ** Python fragments shared by the two modules *)

Module Py.

Inductive exn : Type :=
| IndexError
| ZeroDivisionError
| KeyError (key : string)
| TypeError
| RuntimeError (msg : string)
| SystemExit.

(** The outcome of a call: a value, or an exception that propagates. *)
Inductive res (A : Type) : Type :=
| Ok (a : A)
| Raise (e : exn).
Global Arguments Ok {A} a.
Global Arguments Raise {A} e.

Global Instance res_ret : MRet res := fun A a => Ok a.
Global Instance res_bind : MBind res := fun A B k m =>
  match m with
  | Ok a => k a
  | Raise e => Raise e
  end.

(** [l[i]] on a list: a negative index counts from the end, and an index
    outside [-len, len) raises [IndexError]. *)
Definition getitem {A} (l : list A) (i : Z) : res A :=
  let n := Z.of_nat (length l) in
  let j := if i <? 0 then i + n else i in
  if (0 <=? j) && (j <? n)
  then match l !! Z.to_nat j with
       | Some x => Ok x
       | None => Raise IndexError
       end
  else Raise IndexError.

(** [a % b] on integers. *)
Definition mod_ (a b : Z) : res Z :=
  if b =? 0 then Raise ZeroDivisionError else Ok (a mod b).

End Py.

(** ** [class ScenarioCycler] *)

Module ScenarioCycler.

(** The instance attributes.  [_scenarios_this_epoch] holds whatever was
    added to it: candidate identifiers, and [None] when the unset [_best]
    is added by the [best] getter; hence a set of [option string]. *)
Record t : Type := Build {
  _all_scenario_list : list string;
  _num_scenarios : Z;
  _cycle_idx : Z;
  _cur_scen : string;
  _scenarios_this_epoch : gset (option string);
  _best : option string
}.

(** [__init__(self, all_scenario_list)] *)
Definition __init__ (all_scenario_list : list string) : Py.res t :=
  cur ← Py.getitem all_scenario_list 0;
  Py.Ok {| _all_scenario_list := all_scenario_list;
           _num_scenarios := Z.of_nat (length all_scenario_list);
           _cycle_idx := 0;
           _cur_scen := cur;
           _scenarios_this_epoch := ∅;
           _best := None |}.

(** The [best] property, read: adds [_best] to the epoch's set and
    returns it. *)
Definition best (self : t) : option string * t :=
  (_best self,
   {| _all_scenario_list := _all_scenario_list self;
      _num_scenarios := _num_scenarios self;
      _cycle_idx := _cycle_idx self;
      _cur_scen := _cur_scen self;
      _scenarios_this_epoch := {[ _best self ]} ∪ _scenarios_this_epoch self;
      _best := _best self |}).

(** The [best] property, written. *)
Definition set_best (value : string) (self : t) : t :=
  {| _all_scenario_list := _all_scenario_list self;
     _num_scenarios := _num_scenarios self;
     _cycle_idx := _cycle_idx self;
     _cur_scen := _cur_scen self;
     _scenarios_this_epoch := _scenarios_this_epoch self;
     _best := Some value |}.

Definition begin_epoch (self : t) : t :=
  {| _all_scenario_list := _all_scenario_list self;
     _num_scenarios := _num_scenarios self;
     _cycle_idx := _cycle_idx self;
     _cur_scen := _cur_scen self;
     _scenarios_this_epoch := ∅;
     _best := _best self |}.

(** [_iter_scen]: advance the cursor, wrap around, reload [_cur_scen]. *)
Definition _iter_scen (self : t) : Py.res t :=
  let idx1 := _cycle_idx self + 1 in
  idx2 ← Py.mod_ idx1 (_num_scenarios self);
  cur ← Py.getitem (_all_scenario_list self) idx2;
  Py.Ok {| _all_scenario_list := _all_scenario_list self;
           _num_scenarios := _num_scenarios self;
           _cycle_idx := idx2;
           _cur_scen := cur;
           _scenarios_this_epoch := _scenarios_this_epoch self;
           _best := _best self |}.

Definition add_scenario (x : option string) (self : t) : t :=
  {| _all_scenario_list := _all_scenario_list self;
     _num_scenarios := _num_scenarios self;
     _cycle_idx := _cycle_idx self;
     _cur_scen := _cur_scen self;
     _scenarios_this_epoch := {[ x ]} ∪ _scenarios_this_epoch self;
     _best := _best self |}.

(** [get_next]: [None] when the candidate under the cursor was already
    seen in this epoch, that candidate otherwise; the cursor advances in
    both cases. *)
Definition get_next (self : t) : Py.res (option string * t) :=
  let next_scen := _cur_scen self in
  if decide (Some next_scen ∈ _scenarios_this_epoch self)
  then self' ← _iter_scen self; Py.Ok (None, self')
  else self' ← _iter_scen (add_scenario (Some next_scen) self);
       Py.Ok (Some next_scen, self').

(** *** Sequences of calls on one cycler *)

Inductive op : Type :=
| GetNext
| BeginEpoch
| BestRead
| BestWrite (value : string).

(** What a call returns to its caller. *)
Inductive ret : Type :=
| RNext (r : option string)
| RBest (r : option string)
| RUnit.

Definition call (o : op) (self : t) : Py.res (ret * t) :=
  match o with
  | GetNext => p ← get_next self; Py.Ok (RNext p.1, p.2)
  | BeginEpoch => Py.Ok (RUnit, begin_epoch self)
  | BestRead => let p := best self in Py.Ok (RBest p.1, p.2)
  | BestWrite v => Py.Ok (RUnit, set_best v self)
  end.

Fixpoint calls (os : list op) (self : t) : Py.res (list ret * t) :=
  match os with
  | [] => Py.Ok ([], self)
  | o :: os' =>
      p ← call o self;
      q ← calls os' p.2;
      Py.Ok (p.1 :: q.1, q.2)
  end.

(** The candidates a list of returned values hands out through
    [get_next]. *)
Fixpoint handed_out (rs : list ret) : list string :=
  match rs with
  | [] => []
  | RNext (Some s) :: rs' => s :: handed_out rs'
  | _ :: rs' => handed_out rs'
  end.

(** What holds of every cycler built by [__init__] and driven through its
    methods: the recorded size is the list's, the cursor is inside the
    list and [_cur_scen] is the candidate under the cursor. *)
Definition wf (self : t) : Prop :=
  _num_scenarios self = Z.of_nat (length (_all_scenario_list self)) /\
  0 <= _cycle_idx self < Z.of_nat (length (_all_scenario_list self)) /\
  _all_scenario_list self !! Z.to_nat (_cycle_idx self) = Some (_cur_scen self).

(** A cycler some program can hold: built by [__init__] and driven through
    any calls since. *)
Definition reachable (self : t) : Prop :=
  exists l os self0 rs,
    __init__ l = Py.Ok self0 /\ calls os self0 = Py.Ok (rs, self).

(** The candidates of a list, as members of the epoch's set. *)
Definition candidates (l : list string) : gset (option string) :=
  list_to_set (Some <$> l).

(** Every written best is a candidate of [l]. *)
Definition writes_within (l : list string) (os : list op) : Prop :=
  forall v, BestWrite v ∈ os -> v ∈ l.

(** What the calls preserve when the written bests are candidates: the
    epoch's set holds candidates of the list and possibly [None], and the
    pinned best, when there is one, is a candidate. *)
Definition tidy (l : list string) (self : t) : Prop :=
  wf self /\ _all_scenario_list self = l /\
  (_scenarios_this_epoch self ⊆ {[ None ]} ∪ candidates l) /\
  (forall v, _best self = Some v -> v ∈ l).

(** The order and the calls of the specification's example. *)
Definition abc : list string := ["A"; "B"; "C"]%string.
Definition abc_calls : list op :=
  [GetNext; GetNext; GetNext; GetNext; BeginEpoch; GetNext].

(** The cycler [ScenarioCycler(["A", "B", "C"])] right after construction. *)
Definition abc_fresh : t := Build abc 3 0 "A" ∅ None.

(** The same cycler after its first [get_next()]. *)
Definition abc_after_one : t := Build abc 3 1 "B" {[ Some "A"%string ]} None.

End ScenarioCycler.

(** ** Python [float]: IEEE 754 binary64 *)

Module Float.

Definition prec : Z := 53.
Definition emax : Z := 1024.

Abbreviation t := spec_float.

(** [math.inf] and [-math.inf]. *)
Definition inf : t := S754_infinity false.
Definition neg_inf : t := S754_infinity true.

(** [float(z)] for an integer literal. *)
Definition of_Z (z : Z) : t := binary_normalize prec emax z 0 false.

(** [x < y], [x > y], [x != y], [x - y], [abs(x)]. *)
Definition lt (x y : t) : bool := SFltb x y.
Definition gt (x y : t) : bool := SFltb y x.
Definition ne (x y : t) : bool := negb (SFeqb x y).
Definition sub (x y : t) : t := SFsub prec emax x y.
Definition abs (x : t) : t := SFabs x.

Definition is_nan (x : t) : bool :=
  match x with S754_nan => true | _ => false end.

(** [x <= y], used to state properties only. *)
Definition le (x y : t) : bool := SFleb x y.

(** [m] is a least member of [xs]. *)
Definition is_min (m : t) (xs : list t) : Prop :=
  m ∈ xs /\ forall x, x ∈ xs -> le m x = true.

End Float.

(** ** Values found in the option dictionaries *)

Module PyVal.

#[warnings="-register-all"] Inductive t : Type :=
| PNone
| PBool (b : bool)
| PInt (z : Z)
| PFloat (f : Float.t)
| PStr (s : string)
| PDict (items : gmap string t).

(** [d[k]] on a dictionary. *)
Definition lookup_key (d : gmap string t) (k : string) : Py.res t :=
  match d !! k with
  | Some v => Py.Ok v
  | None => Py.Raise (Py.KeyError k)
  end.

(** [v[k]] on a value: only a dictionary can be subscripted by a key. *)
Definition subscript (v : t) (k : string) : Py.res t :=
  match v with
  | PDict items => lookup_key items k
  | _ => Py.Raise Py.TypeError
  end.

(** [v != 0] *)
Definition ne_zero (v : t) : bool :=
  match v with
  | PInt z => negb (z =? 0)
  | PBool b => b
  | PFloat f => Float.ne f (Float.of_Z 0)
  | _ => true
  end.

(** Truth value of [v] in a condition. *)
Definition truthy (v : t) : bool :=
  match v with
  | PNone => false
  | PBool b => b
  | PInt z => negb (z =? 0)
  | PFloat f => Float.ne f (Float.of_Z 0)
  | PStr s => negb (String.eqb s "")
  | PDict items => negb (bool_decide (items = ∅))
  end.

End PyVal.

(** ** Observable effects of a spoke

    A spoke talks to its surroundings: it prints, logs, polls the kill
    signal, asks the evaluator for an objective and hands a bound to the hub.
    Each of these is an event; a computation yields the events it emitted
    and either a value or the exception that ended it.  [logger.debug] lines
    are not recorded. *)

Module Effects.

Inductive event : Type :=
| Print (text : string) (values : list Float.t)
| LogError (text : string) (values : list Float.t)
| KillPolled
| PutNonantCache
| RestoreNonants
| TryOne (scenario : string)
| XhatTryit (xhat_scenario_dict : PyVal.t)
| SendBound (value : Float.t).

Record io (A : Type) : Type := IO {
  emitted : list event;
  outcome : Py.res A
}.
Global Arguments IO {A} emitted outcome.
Global Arguments emitted {A} i.
Global Arguments outcome {A} i.

Global Instance io_ret : MRet io := fun A a => IO [] (Py.Ok a).
Global Instance io_bind : MBind io := fun A B k m =>
  match outcome m with
  | Py.Ok a => IO (emitted m ++ emitted (k a)) (outcome (k a))
  | Py.Raise e => IO (emitted m) (Py.Raise e)
  end.

Definition emit (e : event) : io unit := IO [e] (Py.Ok tt).
Definition raise {A} (e : Py.exn) : io A := IO [] (Py.Raise e).
Definition lift {A} (r : Py.res A) : io A := IO [] r.

(** [quit()] raises [SystemExit] in the calling process. *)
Definition quit {A} : io A := raise Py.SystemExit.

(** [if c: body] for a body without a result. *)
Definition when (c : bool) (body : io unit) : io unit :=
  if c then body else mret tt.

End Effects.

(** ** The companion optimization object [self.opt]

    The attributes of [self.opt] the spokes read.  [E1] and [feas_prob] are
    the values found after [_update_E1()] and by [feas_prob()];
    [isinstance_XhatTryer] and [isinstance_Xhat_Eval] are the answers of the
    two [isinstance] tests. *)

Module Opt.

Record t : Type := Build {
  multistage : bool;
  options : gmap string PyVal.t;
  isinstance_XhatTryer : bool;
  isinstance_Xhat_Eval : bool;
  E1 : Float.t;
  E1_tolerance : Float.t;
  feas_prob : Float.t;
  rank : Z;
  rank0 : Z;
  cylinder_rank : Z;
  is_minimizing : bool;
  all_scenario_names : list string
}.

(** ["bundles_per_rank" in options and options["bundles_per_rank"] != 0] *)
Definition has_bundles (o : t) : bool :=
  match options o !! "bundles_per_rank"%string with
  | Some v => PyVal.ne_zero v
  | None => false
  end.

(** [abs(1 - E1) > E1_tolerance] *)
Definition E1_off (o : t) : bool :=
  Float.gt (Float.abs (Float.sub (Float.of_Z 1) (E1 o))) (E1_tolerance o).

End Opt.

(** What the surroundings answer during one pass of a spoke's main loop:
    the kill signal, whether a new iterate arrived, and the evaluators. *)
Record tick : Type := Tick {
  got_kill_signal : bool;
  new_nonants : bool;
  _try_one : string -> option Float.t;
  xhat_tryit : PyVal.t -> option Float.t
}.

(** How a main loop fed with finitely many answers stands at the end: it
    left the loop on a kill signal, or it is still running. *)
Inductive loop_end (S : Type) : Type :=
| Left_loop (s : S)
| Still_running (s : S).
Arguments Left_loop {S} s.
Arguments Still_running {S} s.

(** ** Reading a trace of events *)

Module Trace.
Import Effects.

(** The answers a main loop consumes as passes of its body: those that
    come before the first kill signal. *)
Fixpoint passes (answers : list tick) : list tick :=
  match answers with
  | [] => []
  | a :: answers' =>
      if got_kill_signal a then [] else a :: passes answers'
  end.

(** How many of these passes see a new iterate. *)
Definition new_iterates (answers : list tick) : nat :=
  length (List.filter new_nonants (passes answers)).

(** The scenario dictionaries handed to [xhat_tryit], in order. *)
Definition evaluations (es : list event) : list PyVal.t :=
  flat_map (fun e => match e with XhatTryit d => [d] | _ => [] end) es.

End Trace.

(** ** [class XhatShuffleInnerBound]: the sampling spoke *)

Module XhatShuffleInnerBound.
Import Effects.

(** The attributes of the spoke.  [verbose], [solver_options],
    [is_minimizing] and [random_seed] are assigned by [xhatbase_prep] and
    [ib] by [main], each before its first use. *)
Record t : Type := Build {
  opt : Opt.t;
  rank_global : Z;
  bound : Float.t;
  ib : Float.t;
  verbose : PyVal.t;
  solver_options : PyVal.t;
  is_minimizing : bool;
  random_seed : Z
}.

Definition set_bound (v : Float.t) (self : t) : t :=
  Build (opt self) (rank_global self) v (ib self) (verbose self)
        (solver_options self) (is_minimizing self) (random_seed self).

Definition set_ib (v : Float.t) (self : t) : t :=
  Build (opt self) (rank_global self) (bound self) v (verbose self)
        (solver_options self) (is_minimizing self) (random_seed self).

(** [xhatbase_prep].  The calls into the companion object and the xhatter
    ([PH_Prep], [subproblem_creation], [pre_iter0], [solve_loop], ...) are
    opaque solver work and leave no trace here; their places are marked. *)
Definition xhatbase_prep (self : t) : io t :=
  let o := opt self in
  if Opt.multistage o
  then raise (Py.RuntimeError
    "The XhatShuffleInnerBound only supports two-stage models at this time.")
  else
  verbose_ ← lift (PyVal.lookup_key (Opt.options o) "verbose");
  if Opt.has_bundles o
  then raise (Py.RuntimeError "xhat spokes cannot have bundles (yet)")
  else
  if negb (Opt.isinstance_XhatTryer o)
  then raise (Py.RuntimeError
    "XhatShuffleInnerBound must be used with XhatTryer.")
  else
  (* XhatBase(opt); PH_Prep; subproblem_creation; pre_iter0;
     _save_original_nonants; _create_solvers; solve_loop; _update_E1 *)
  (if Opt.E1_off o
   then when (rank_global self =? Opt.rank0 o)
          (emit (Print "ERROR" []);;
           emit (Print "Total probability of scenarios was " [Opt.E1 o]);;
           emit (Print "E1_tolerance = " [Opt.E1_tolerance o]));;
        quit
   else mret tt);;
  let feasP := Opt.feas_prob o in
  (if Float.ne feasP (Opt.E1 o)
   then when (rank_global self =? Opt.rank0 o)
          (emit (Print "ERROR" []);;
           emit (Print "Infeasibility detected; E_feas, E1="
                       [feasP; Opt.E1 o]));;
        quit
   else mret tt);;
  (* post_iter0; _save_nonants *)
  verbose' ← lift (PyVal.lookup_key (Opt.options o) "verbose");
  looper ← lift (PyVal.lookup_key (Opt.options o) "xhat_looper_options");
  solver_options' ← lift (PyVal.subscript looper "xhat_solver_options");
  mret (Build o (rank_global self) (bound self) (ib self) verbose'
              solver_options' (Opt.is_minimizing o) 42).

(** The local helper [_vb(msg)] of [try_scenario] and [main]. *)
Definition _vb (self : t) (msg : string) (values : list Float.t) : io unit :=
  when (PyVal.truthy (verbose self)
        && (Opt.rank (opt self) =? Opt.rank0 (opt self)))
       (emit (Print ("(rank0) " ++ msg) values)).

(** [try_scenario(scenario)]; [answer] holds what the evaluator returns. *)
Definition try_scenario (answer : tick) (scenario : string) (self : t)
  : io (bool * t) :=
  emit (TryOne scenario);;
  match _try_one answer scenario with
  | None =>
      _vb self ("    Infeasible " ++ scenario) [];;
      mret (false, self)
  | Some obj =>
      _vb self ("    Feasible " ++ scenario ++ ", obj: ") [obj];;
      let ib_ := ib self in
      let update :=
        if is_minimizing self then Float.lt obj ib_ else Float.lt ib_ obj in
      if update
      then emit (SendBound obj);;
           mret (update, set_ib obj (set_bound obj self))
      else mret (update, self)
  end.

(** The evaluator finds the candidate feasible with objective [obj], or
    infeasible. *)
Definition feasible (obj : Float.t) : tick :=
  Tick false false (fun _ => Some obj) (fun _ => None).

(** The spoke after each of successive [try_scenario] calls whose
    evaluations come out feasible with the objectives [objs], in turn. *)
Fixpoint feed (scenario : string) (objs : list Float.t) (self : t) : list t :=
  match objs with
  | [] => []
  | obj :: objs' =>
      match outcome (try_scenario (feasible obj) scenario self) with
      | Py.Ok (_, self') => self' :: feed scenario objs' self'
      | Py.Raise _ => []
      end
  end.

(** [obj] is strictly better than [best] in the sense of the run. *)
Definition improves (minimizing : bool) (obj best : Float.t) : bool :=
  if minimizing then Float.lt obj best else Float.lt best obj.

(** The variables of [main] that live across passes of its loop. *)
Record frame : Type := Frame {
  self_ : t;
  scenario_cycler : ScenarioCycler.t;
  xh_iter : Z
}.

(** One pass of the [while] loop of [main], after its condition. *)
Definition loop_body (answer : tick) (f : frame) : io frame :=
  let self := self_ f in
  when (new_nonants answer) (emit PutNonantCache;; emit RestoreNonants);;
  '(next, cycler) ← lift (ScenarioCycler.get_next (scenario_cycler f));
  match next with
  | Some next_scenario =>
      _vb self ("   Trying next " ++ next_scenario) [];;
      '(update, self') ← try_scenario answer next_scenario self;
      if update : bool
      then _vb self' ("   Updating best to " ++ next_scenario) [];;
           mret (Frame self' (ScenarioCycler.set_best next_scenario cycler)
                       (xh_iter f + 1))
      else mret (Frame self' cycler (xh_iter f + 1))
  | None =>
      mret (Frame self (ScenarioCycler.begin_epoch cycler) (xh_iter f + 1))
  end.

(** [while not self.got_kill_signal(): ...], fed with the answers of the
    surroundings, one per evaluation of the loop condition. *)
Fixpoint loop (answers : list tick) (f : frame) : io (loop_end frame) :=
  match answers with
  | [] => mret (Still_running f)
  | a :: answers' =>
      emit KillPolled;;
      if got_kill_signal a
      then mret (Left_loop f)
      else f' ← loop_body a f; loop answers' f'
  end.

Section Main.

(** [random.Random().sample(population, len(population))] after
    [seed(random_seed)]: the shuffle, a collaborator of the spoke. *)
Variable sample : Z -> list string -> list string.

Definition main (answers : list tick) (self : t) : io (loop_end frame) :=
  verbose_ ← lift (PyVal.lookup_key (Opt.options (opt self)) "verbose");
  self1 ← xhatbase_prep self;
  let self2 :=
    set_ib (if is_minimizing self1 then Float.inf else Float.neg_inf)
           self1 in
  let shuffled_scenarios :=
    sample (random_seed self2) (Opt.all_scenario_names (opt self2)) in
  cycler ← lift (ScenarioCycler.__init__ shuffled_scenarios);
  loop answers (Frame self2 cycler 1).

End Main.

End XhatShuffleInnerBound.

(** ** [class XhatSpecificInnerBound]: the fixed-set spoke *)

Module XhatSpecificInnerBound.
Import Effects.

Record t : Type := Build {
  opt : Opt.t;
  bound : Float.t;
  best_inner_bound : Float.t
}.

(** Modelled from the spec: [update_if_improving] belongs to the spoke base
    class [InnerBoundNonantSpoke], which is missing from the sources.  The
    specification gives both variants one improvement rule: an infeasible
    result changes nothing; a feasible one replaces the best bound, and is
    reported, only when it is strictly better in the run's sense. *)
Definition update_if_improving (candidate : option Float.t) (self : t)
  : io (bool * t) :=
  match candidate with
  | None => mret (false, self)
  | Some v =>
      let update :=
        if Opt.is_minimizing (opt self)
        then Float.lt v (best_inner_bound self)
        else Float.lt (best_inner_bound self) v in
      if update
      then emit (SendBound v);; mret (true, Build (opt self) v v)
      else mret (false, self)
  end.

(** [ib_prep]; the xhatter it returns is opaque, so nothing is returned. *)
Definition ib_prep (self : t) : io unit :=
  let o := opt self in
  if Opt.has_bundles o
  then raise (Py.RuntimeError "xhat spokes cannot have bundles (yet)")
  else
  if negb (Opt.isinstance_Xhat_Eval o)
  then raise (Py.RuntimeError
    "XhatShuffleInnerBound must be used with Xhat_Eval.")
  else
  verbose_ ← lift (PyVal.lookup_key (Opt.options o) "verbose");
  (* XhatSpecific(opt); pre_iter0; _save_original_nonants;
     _lazy_create_solvers; _update_E1 *)
  (if Opt.E1_off o
   then when (Opt.cylinder_rank o =? 0)
          (emit (LogError "ERROR" []);;
           emit (LogError "Total probability of scenarios was " [Opt.E1 o]);;
           emit (LogError "E1_tolerance = " [Opt.E1_tolerance o]));;
        quit
   else mret tt)
  (* post_iter0; _save_nonants *).

Record frame : Type := Frame {
  self_ : t;
  xhat_scenario_dict : PyVal.t;
  ib_iter : Z
}.

(** One pass of the [while] loop of [main], after its condition. *)
Definition loop_body (answer : tick) (f : frame) : io frame :=
  if new_nonants answer
  then emit PutNonantCache;;
       emit RestoreNonants;;
       emit (XhatTryit (xhat_scenario_dict f));;
       let innerbound := xhat_tryit answer (xhat_scenario_dict f) in
       '(_, self') ← update_if_improving innerbound (self_ f);
       mret (Frame self' (xhat_scenario_dict f) (ib_iter f + 1))
  else mret (Frame (self_ f) (xhat_scenario_dict f) (ib_iter f + 1)).

Fixpoint loop (answers : list tick) (f : frame) : io (loop_end frame) :=
  match answers with
  | [] => mret (Still_running f)
  | a :: answers' =>
      emit KillPolled;;
      if got_kill_signal a
      then mret (Left_loop f)
      else f' ← loop_body a f; loop answers' f'
  end.

Definition main (answers : list tick) (self : t) : io (loop_end frame) :=
  let o := opt self in
  verbose_ ← lift (PyVal.lookup_key (Opt.options o) "verbose");
  specific ← lift (PyVal.lookup_key (Opt.options o) "xhat_specific_options");
  xhat_scenario_dict_ ← lift (PyVal.subscript specific "xhat_scenario_dict");
  ib_prep self;;
  loop answers (Frame self xhat_scenario_dict_ 1).

End XhatSpecificInnerBound.

(** ** A run of the farmer example

    The configuration [examples/farmer/farmer_cylinders.py] hands to the
    spokes, for three scenarios and with consistent probabilities. *)

Module Farmer.

Definition options : gmap string PyVal.t :=
  {[ "verbose"%string := PyVal.PBool false;
     "xhat_looper_options"%string :=
       PyVal.PDict {[ "xhat_solver_options"%string := PyVal.PDict ∅ ]};
     "xhat_specific_options"%string :=
       PyVal.PDict {[ "xhat_scenario_dict"%string :=
         PyVal.PDict {[ "ROOT"%string := PyVal.PStr "scen0" ]} ]} ]}.

(** [2 ** -20] *)
Definition tolerance : Float.t := S754_finite false 4503599627370496 (-72).

Definition opt : Opt.t :=
  Opt.Build false options true true (Float.of_Z 1) tolerance (Float.of_Z 1)
            0 0 0 true ["scen0"; "scen1"; "scen2"]%string.

(** The sampling spoke as [main] has it when it enters its loop. *)
Definition shuffle_spoke : XhatShuffleInnerBound.t :=
  XhatShuffleInnerBound.Build opt 0 Float.inf Float.inf (PyVal.PBool false)
                              (PyVal.PDict ∅) true 42.

Definition specific_spoke : XhatSpecificInnerBound.t :=
  XhatSpecificInnerBound.Build opt Float.inf Float.inf.

(** The objectives of the specification's example. *)
Definition objs : list Float.t := Float.of_Z <$> [10; 7; 9; 4].

(** The scenario dictionary of [options]. *)
Definition root_scen0 : PyVal.t :=
  PyVal.PDict {[ "ROOT"%string := PyVal.PStr "scen0" ]}.

(** Three answers of the surroundings: a new iterate whose evaluation
    gives [4.0], nothing new, and the kill signal. *)
Definition fresh_iterate : tick :=
  Tick false true (fun _ => None) (fun _ => Some (Float.of_Z 4)).
Definition nothing_new : tick :=
  Tick false false (fun _ => None) (fun _ => None).
Definition killed : tick :=
  Tick true false (fun _ => None) (fun _ => None).

(** The same configuration with two bundles per rank. *)
Definition bundled_opt : Opt.t :=
  Opt.Build false (<["bundles_per_rank"%string := PyVal.PInt 2]> options)
            true true (Float.of_Z 1) tolerance (Float.of_Z 1)
            0 0 0 true ["scen0"; "scen1"; "scen2"]%string.

(** The same configuration with scenario probabilities that sum to [0.5],
    seen from the process of rank [r]. *)
Definition half : Float.t := S754_finite false 4503599627370496 (-53).

(** Spokes over the configuration with bundles. *)
Definition bundled_shuffle_spoke : XhatShuffleInnerBound.t :=
  XhatShuffleInnerBound.Build bundled_opt 0 Float.inf Float.inf
                              PyVal.PNone PyVal.PNone true 0.
Definition bundled_specific_spoke : XhatSpecificInnerBound.t :=
  XhatSpecificInnerBound.Build bundled_opt Float.inf Float.inf.

(** A shuffle that leaves the order as it is. *)
Definition no_shuffle (seed : Z) (l : list string) : list string := l.

End Farmer.

(** ** Further observations on calls, events and loops *)

Module CyclerDefs.
Import ScenarioCycler.
(** How many of the calls are [get_next()]. *)
Fixpoint get_nexts (os : list op) : nat :=
match os with
| [] => 0%nat
| GetNext :: os' => S (get_nexts os')
| _ :: os' => get_nexts os'
end.
End CyclerDefs.

(** The variables a main loop is left with, however it stands. *)
Definition final {S : Type} (e : loop_end S) : S :=
match e with
| Left_loop s => s
| Still_running s => s
end.

Module TraceDefs.
Import Effects.
(** The bounds handed to the hub, in order. *)
Definition reports (es : list event) : list Float.t :=
flat_map (fun e => match e with SendBound v => [v] | _ => [] end) es.

(** The candidates handed to [_try_one], in order. *)
Definition tried (es : list event) : list string :=
flat_map (fun e => match e with TryOne s => [s] | _ => [] end) es.
End TraceDefs.

Module ShuffleDefs.
Import XhatShuffleInnerBound.
(** Each of [vs] is strictly better than the one before it, the first than
    [best]. *)
Fixpoint improving (minimizing : bool) (best : Float.t) (vs : list Float.t)
  : Prop :=
match vs with
| [] => True
| v :: vs' => improves minimizing v best = true /\ improving minimizing v vs'
end.
End ShuffleDefs.

(** A run of the sampling spoke of the farmer example over the candidates
    [A], [B], [C]: [A] evaluates to [10.0], [B] is infeasible and [C]
    evaluates to [7.0]; no new iterate and no kill signal arrive. *)
Module AbcRun.

Definition objective (s : string) : option Float.t :=
if String.eqb s "A" then Some (Float.of_Z 10)
else if String.eqb s "C" then Some (Float.of_Z 7)
else None.

Definition pass : tick := Tick false false objective (fun _ => None).

Definition passes : list tick := [pass; pass; pass; pass].

Definition start : XhatShuffleInnerBound.frame :=
XhatShuffleInnerBound.Frame Farmer.shuffle_spoke ScenarioCycler.abc_fresh 1.

End AbcRun.

(** Variants of the farmer configuration. *)
Module FarmerVariants.

(** The sampling spoke before its preparation. *)
Definition unprepared_shuffle_spoke : XhatShuffleInnerBound.t :=
XhatShuffleInnerBound.Build Farmer.opt 0 Float.inf Float.inf
                            PyVal.PNone PyVal.PNone false 0.

(** Total probability [1.0] of which only [0.5] is feasible, seen from the
    process of rank [r]. *)
Definition infeasible_opt (r : Z) : Opt.t :=
Opt.Build false Farmer.options true true (Float.of_Z 1) Farmer.tolerance
          Farmer.half r 0 r true ["scen0"; "scen1"; "scen2"]%string.
Definition infeasible_shuffle_spoke (r : Z) : XhatShuffleInnerBound.t :=
XhatShuffleInnerBound.Build (infeasible_opt r) r Float.inf Float.inf
                            PyVal.PNone PyVal.PNone true 0.

(** A total probability that is not a number. *)
Definition nan_opt : Opt.t :=
Opt.Build false Farmer.options true true S754_nan Farmer.tolerance
          (Float.of_Z 1) 0 0 0 true ["scen0"; "scen1"; "scen2"]%string.
Definition nan_shuffle_spoke : XhatShuffleInnerBound.t :=
XhatShuffleInnerBound.Build nan_opt 0 Float.inf Float.inf
                            PyVal.PNone PyVal.PNone true 0.
Definition nan_specific_spoke : XhatSpecificInnerBound.t :=
XhatSpecificInnerBound.Build nan_opt Float.inf Float.inf.


(** No scenario at all: the total probability and the feasible probability
    are [0.0]; [tol] is the tolerance. *)
Definition empty_opt (tol : Float.t) : Opt.t :=
Opt.Build false Farmer.options true true (Float.of_Z 0) tol
          (Float.of_Z 0) 0 0 0 true [].
Definition empty_shuffle_spoke (tol : Float.t) : XhatShuffleInnerBound.t :=
XhatShuffleInnerBound.Build (empty_opt tol) 0 Float.inf Float.inf
                            PyVal.PNone PyVal.PNone false 0.

End FarmerVariants.

(** ** [mpisppy/log.py]: finding a logger on the call stack

    The functions of this file look at Python objects only through
    [hasattr], [getattr], truth value and identity with [None]; these are
    taken as they are, for whatever objects there are.  A frame of the call
    stack is its [f_locals], a dictionary from variable names to objects. *)

Module Log.

Section Objects.

Context {value : Type}.
(** [None], and the [str] object of a string. *)
Variable none : value.
Variable str : string -> value.
(** [v is None], [bool(v)], [hasattr(v, name)], [getattr(v, name)]. *)
Variable is_none : value -> bool.
Variable truthy : value -> bool.
Variable hasattr : value -> string -> bool.
Variable getattr : value -> string -> value.
(** The [FrameInfo] that the loop variable [f] of [_reach] holds while the
    frame of [_reach] itself is looked at. *)
Variable own_frame_info : value.
(** [logging.getLogger(name)], the module constant [global_rank], and
    [format(v)] as an f-string does it. *)
Variable getLogger : string -> value.
Variable global_rank : value.
Variable format : value -> string.

(** One frame of [_reach]: the variable itself, else the attribute of that
    name of the frame's [self]. *)
Definition look (f_locals : gmap string value) (name : string)
  : option value :=
match f_locals !! name with
| Some v => Some v
| None =>
    match f_locals !! "self"%string with
    | Some self =>
        if hasattr self name then Some (getattr self name) else None
    | None => None
    end
end.

(** [for f in stack: ...; return None] *)
Fixpoint search (stack : list (gmap string value)) (name : string) : value :=
match stack with
| [] => none
| f_locals :: stack' =>
    match look f_locals name with
    | Some v => v
    | None => search stack' name
    end
end.

(** [_reach(name)], called from a function whose frame and callers' frames
    are [callers], innermost first.  [inspect.stack()] starts with the frame
    of [_reach] itself, whose variables are [name] and [f]. *)
Definition _reach (callers : list (gmap string value)) (name : string)
  : value :=
search ({[ "name"%string := str name; "f"%string := own_frame_info ]}
        :: callers) name.

(** What [global_toc] does to the outside: calls of [logger.info(msg)]. *)
Inductive call : Type :=
| Info (logger : value) (msg : value).

(** [global_toc(msg, cond)], called with the frames [callers] below it. *)
Definition global_toc (callers : list (gmap string value)) (msg cond : value)
  : list call :=
if truthy cond
then let logger :=
       _reach ({[ "msg"%string := msg; "cond"%string := cond ]} :: callers)
              "logger" in
     let logger :=
       if negb (truthy logger) then getLogger "mpisppy" else logger in
     [Info logger msg]
else [].

(** *** [AddRanksAndElapsedTimeFilter.filter]

    A log record is the dictionary of its attributes. *)

Definition has (record : gmap string value) (attr : string) : bool :=
bool_decide (is_Some (record !! attr)).

(** The frame of [filter] while it calls [_reach(attr)]; [attr_val] is a
    variable of it once an earlier turn of the loop has assigned it. *)
Definition filter_frame (self record_ref : value) (attr : string)
    (attr_val : option value) : gmap string value :=
match attr_val with
| Some v =>
    {[ "self"%string := self; "record"%string := record_ref;
       "attr"%string := str attr; "attr_val"%string := v ]}
| None =>
    {[ "self"%string := self; "record"%string := record_ref;
       "attr"%string := str attr ]}
end.

(** One turn of [for attr in ["strata_rank", "cylinder_rank"]]. *)
Definition attach (self record_ref : value)
    (callers : list (gmap string value))
    (st : gmap string value * option value) (attr : string)
  : gmap string value * option value :=
if has st.1 attr then st
else let attr_val :=
       _reach (filter_frame self record_ref attr st.2 :: callers) attr in
     (if negb (is_none attr_val) then <[attr := attr_val]> st.1 else st.1,
      Some attr_val).

Definition attr_of (record : gmap string value) (attr : string) : value :=
default none (record !! attr).

(** [if not hasattr(record, attr): setattr(record, attr, v)] *)
Definition with_default (attr : string) (v : value)
    (record : gmap string value) : gmap string value :=
if has record attr then record else <[attr := v]> record.

(** The f-string assigned to [record.rank]. *)
Definition rank_of (record : gmap string value) : string :=
if has record "strata_rank" && has record "cylinder_rank"
then ("R=" ++ format (attr_of record "global_rank")
      ++ ",C=" ++ format (attr_of record "cylinder_rank")
      ++ ",S=" ++ format (attr_of record "strata_rank"))%string
else ("R=" ++ format (attr_of record "global_rank"))%string.

(** [filter(self, record)]: the value returned and the record afterwards.
    [elapsed] is [default_timer() - global_tstart] at the time of the
    call, [record_ref] the record as an object. *)
Definition filter (self record_ref : value)
    (callers : list (gmap string value)) (elapsed : value)
    (record : gmap string value) : bool * gmap string value :=
let r1 := with_default "global_rank" global_rank record in
let r2 := with_default "elapsed_time" elapsed r1 in
let r3 := (fold_left (attach self record_ref callers)
                     ["strata_rank"; "cylinder_rank"]%string (r2, None)).1 in
(true, <["rank"%string := str (rank_of r3)]> r3).

(** What [_reach(attr)] called from [filter] comes to, for an attribute
    that is none of the variables of the two frames: the attribute of the
    filter object if it has it, else what the callers' frames give. *)
Definition reached (self : value) (callers : list (gmap string value))
    (attr : string) : value :=
if hasattr self attr then getattr self attr else search callers attr.

(** One turn of the loop of [filter], as a function of the record. *)
Definition with_reached (self : value) (callers : list (gmap string value))
    (attr : string) (record : gmap string value) : gmap string value :=
if has record attr then record
else if is_none (reached self callers attr) then record
     else <[attr := reached self callers attr]> record.

End Objects.

End Log.

(** Objects for examples: an object with attributes is the dictionary of
    its attributes, anything else has none. *)
Module LogSample.
Import PyVal.

Definition is_none (v : PyVal.t) : bool :=
match v with PNone => true | _ => false end.

Definition hasattr (v : PyVal.t) (name : string) : bool :=
match v with
| PDict items => bool_decide (is_Some (items !! name))
| _ => false
end.

Definition getattr (v : PyVal.t) (name : string) : PyVal.t :=
match v with
| PDict items => default PNone (items !! name)
| _ => PNone
end.

Definition own_frame_info : PyVal.t := PStr "FrameInfo".

Definition getLogger (name : string) : PyVal.t :=
PDict {[ "name"%string := PStr name ]}.

Definition global_rank : PyVal.t := PInt 0.

Definition format (v : PyVal.t) : string :=
match v with
| PInt z => pretty z
| PStr s => s
| _ => "None"
end.

(** A spoke with its ranks and a logger, and three frames: one without
    anything of interest, a method of the spoke, and a module-level caller
    with a logger of its own. *)
Definition spoke : PyVal.t :=
PDict {[ "strata_rank"%string := PInt 1; "cylinder_rank"%string := PInt 2;
         "logger"%string := getLogger "spoke" ]}.
Definition plain_frame : gmap string PyVal.t := {[ "x"%string := PInt 5 ]}.
Definition method_frame : gmap string PyVal.t := {[ "self"%string := spoke ]}.
Definition outer_frame : gmap string PyVal.t :=
{[ "logger"%string := getLogger "outer"; "strata_rank"%string := PInt 9 ]}.
(** A frame whose [logger] has been set to [None]. *)
Definition unset_frame : gmap string PyVal.t := {[ "logger"%string := PNone ]}.

(** A log record with a message and a stale [rank], and the filter object,
    which has no attributes. *)
Definition record : gmap string PyVal.t :=
{[ "msg"%string := PStr "hello"; "rank"%string := PStr "stale" ]}.
Definition the_filter : PyVal.t := PDict ∅.

End LogSample.

(** ** [mpisppy/log.py]: [load_config]

    [load_config] reads a YAML file, moves the relative file names of the
    handlers under [logfile_dir] and hands the result to
    [logging.config.dictConfig].  Reading, parsing and [dictConfig] are
    outside; what is modelled is the step in between, on the parsed
    document.  Paths are [pathlib]'s: [Path(s)], [p.is_absolute()] and
    [a / b] are taken as they are.  A dictionary is the list of its items in
    insertion order, with distinct keys, which are strings; of the values
    [yaml.safe_load] can give, timestamps, binary data and sets are left
    out. *)

Module LogConfig.

Inductive exn : Type :=
| AttributeError
| TypeError
| IndexError.

Inductive res (A : Type) : Type :=
| Ok (a : A)
| Raise (e : exn).
Global Arguments Ok {A} a.
Global Arguments Raise {A} e.

Global Instance res_ret : MRet res := fun A a => Ok a.
Global Instance res_bind : MBind res := fun A B k m =>
  match m with
  | Ok a => k a
  | Raise e => Raise e
  end.

Section Paths.

Context {path : Type}.
Variable Path : string -> path.
Variable is_absolute : path -> bool.
Variable joinpath : path -> path -> path.

(** A parsed YAML document; [YPath] is what [load_config] puts in place of
    a file name. *)
#[warnings="-register-all"] Inductive yaml : Type :=
| YNull
| YBool (b : bool)
| YInt (z : Z)
| YFloat (f : Float.t)
| YStr (s : string)
| YList (l : list yaml)
| YMap (items : list (string * yaml))
| YPath (p : path).

(** The argument [logfile_dir], when it is not [None]: a [str] or a
    [Path]. *)
Inductive dir : Type :=
| DStr (s : string)
| DPath (p : path).

(** [if logfile_dir:] *)
Definition dir_given (logfile_dir : option dir) : bool :=
match logfile_dir with
| None => false
| Some (DStr s) => negb (String.eqb s "")
| Some (DPath _) => true
end.

(** [logfile_dir / filename], for a [Path] [filename]. *)
Definition under (d : dir) (filename : path) : path :=
match d with
| DStr s => joinpath (Path s) filename
| DPath p => joinpath p filename
end.

(** [if v:] *)
Definition truthy (v : yaml) : bool :=
match v with
| YNull => false
| YBool b => b
| YInt z => negb (z =? 0)
| YFloat f => Float.ne f (Float.of_Z 0)
| YStr s => negb (String.eqb s "")
| YList l => match l with [] => false | _ => true end
| YMap items => match items with [] => false | _ => true end
| YPath _ => true
end.

(** [Path(v)] *)
Definition as_path (v : yaml) : res path :=
match v with
| YStr s => Ok (Path s)
| YPath p => Ok p
| _ => Raise TypeError
end.

(** [d.get(key)] and [d[key] = v] on the items of a dictionary. *)
Fixpoint get (items : list (string * yaml)) (key : string) : option yaml :=
match items with
| [] => None
| (k, v) :: items' => if String.eqb k key then Some v else get items' key
end.

Fixpoint set (items : list (string * yaml)) (key : string) (v : yaml)
  : list (string * yaml) :=
match items with
| [] => [(key, v)]
| (k, w) :: items' =>
    if String.eqb k key then (k, v) :: items' else (k, w) :: set items' key v
end.

(** The body of the loop for one handler [h = handlers[name]]: the handler
    afterwards. *)
Definition relocate_handler (d : dir) (h : yaml) : res yaml :=
match h with
| YMap items =>
    let filename := default YNull (get items "filename") in
    if truthy filename
    then filename' ← as_path filename;
         if negb (is_absolute filename')
         then Ok (YMap (set items "filename" (YPath (under d filename'))))
         else Ok h
    else Ok h
| _ => Raise AttributeError
end.

(** [for name in handlers: ...] over the items of a dictionary. *)
Fixpoint relocate_items (d : dir) (items : list (string * yaml))
  : res (list (string * yaml)) :=
match items with
| [] => Ok []
| (name, h) :: items' =>
    h' ← relocate_handler d h;
    items'' ← relocate_items d items';
    Ok ((name, h') :: items'')
end.

(** [l[name]] on a list, for an element [name] of it used as an index;
    the position in [l], from the start. *)
Definition position (l : list yaml) (name : yaml) : res nat :=
match match name with
      | YInt i => Some i
      | YBool b => Some (if b then 1 else 0)
      | _ => None
      end with
| None => Raise TypeError
| Some i =>
    let n := Z.of_nat (length l) in
    let j := if i <? 0 then i + n else i in
    if (0 <=? j) && (j <? n) then Ok (Z.to_nat j) else Raise IndexError
end.

(** [for name in handlers: ...] over a list: each element in turn is used
    as an index into the list. *)
Fixpoint relocate_list (d : dir) (names : list yaml) (l : list yaml)
  : res (list yaml) :=
match names with
| [] => Ok l
| name :: names' =>
    j ← position l name;
    h' ← relocate_handler d (default YNull (l !! j));
    relocate_list d names' (<[j := h']> l)
end.

(** The loop over [handlers], whatever [handlers] is. *)
Definition relocate_handlers (d : dir) (handlers : yaml) : res yaml :=
match handlers with
| YMap items => items' ← relocate_items d items; Ok (YMap items')
| YList l => l' ← relocate_list d l l; Ok (YList l')
| YStr s => if String.eqb s "" then Ok handlers else Raise TypeError
| _ => Raise TypeError
end.

(** What [load_config] hands to [dictConfig], from the parsed document. *)
Definition relocate (logfile_dir : option dir) (config : yaml) : res yaml :=
match logfile_dir with
| Some d =>
    if dir_given logfile_dir
    then match config with
         | YMap items =>
             match get items "handlers" with
             | Some handlers =>
                 handlers' ← relocate_handlers d handlers;
                 Ok (YMap (set items "handlers" handlers'))
             | None => Ok config
             end
         | _ => Raise AttributeError
         end
    else Ok config
| None => Ok config
end.

(** *** Handlers that share a dictionary

    A YAML alias makes several handler names stand for one dictionary, and
    [load_config] writes into that dictionary in place.  Here the handler
    dictionaries are objects: [objs] holds them, and the handlers
    dictionary [names] gives each name the position of its object, every
    position being one of [objs]; the handlers dictionary itself is none of
    the objects.  [relocate_items] above is the case in which every name has
    a dictionary of its own. *)

(** [for name in handlers: ...] over the names of objects: the objects
    afterwards. *)
Fixpoint relocate_shared (d : dir) (names : list (string * nat))
    (objs : list yaml) : res (list yaml) :=
match names with
| [] => Ok objs
| (name, r) :: names' =>
    h' ← relocate_handler d (default YNull (objs !! r));
    relocate_shared d names' (<[r := h']> objs)
end.

(** The body of the loop, [k] times over on one handler. *)
Fixpoint relocate_times (d : dir) (k : nat) (h : yaml) : res yaml :=
match k with
| O => Ok h
| S k' => h' ← relocate_handler d h; relocate_times d k' h'
end.

(** The number of names that stand for the object at position [r]. *)
Fixpoint uses (r : nat) (names : list (string * nat)) : nat :=
match names with
| [] => 0
| (_, r') :: names' => (if Nat.eqb r' r then 1 else 0) + uses r names'
end.

(** A handler whose file name [load_config] has nothing to do with: a
    dictionary without a file name, with a false one, or with an absolute
    one. *)
Definition settled (h : yaml) : Prop :=
match h with
| YMap items =>
    match get items "filename" with
    | None => True
    | Some filename =>
        truthy filename = false \/
        exists p, as_path filename = Ok p /\ is_absolute p = true
    end
| _ => False
end.

(** A handler before and after: the same keys in the same order, the same
    values except possibly under ["filename"], where a relative path has
    been put under the directory. *)
Definition moved (d : dir) (h h' : yaml) : Prop :=
exists items items',
  h = YMap items /\ h' = YMap items' /\
  items'.*1 = items.*1 /\
  (forall key, key <> "filename"%string -> get items' key = get items key) /\
  (h' = h \/
   exists filename p,
     get items "filename" = Some filename /\
     as_path filename = Ok p /\ is_absolute p = false /\
     get items' "filename" = Some (YPath (under d p))).

End Paths.

End LogConfig.

(** Paths for examples: a path is its text, absolute when it starts with a
    slash, and joining puts a slash in between. *)
Module LogConfigSample.
Import LogConfig.

Definition Path (s : string) : string := s.
Definition is_absolute (p : string) : bool := String.prefix "/" p.
Definition joinpath (a b : string) : string := a +:+ "/" +:+ b.

Definition logs : @dir string := DStr "logs".
Definition empty_dir : @dir string := DStr "".

(** A document that is a list. *)
Definition listing : @yaml string := YList [YInt 1].

Definition console : @yaml string :=
YMap [("class"%string, YStr "logging.StreamHandler")].
Definition rank_file : @yaml string :=
YMap [("class"%string, YStr "mpisppy.log.FileHandlerByRank");
      ("filename"%string, YStr "mpisppy.log")].
Definition moved_rank_file : @yaml string :=
YMap [("class"%string, YStr "mpisppy.log.FileHandlerByRank");
      ("filename"%string, YPath "logs/mpisppy.log"%string)].
Definition system_file : @yaml string :=
YMap [("class"%string, YStr "logging.FileHandler");
      ("filename"%string, YStr "/var/log/mpisppy.log")].

Definition twice_moved_rank_file : @yaml string :=
YMap [("class"%string, YStr "mpisppy.log.FileHandlerByRank");
      ("filename"%string, YPath "logs/logs/mpisppy.log"%string)].

(** Three handler names: [console] stands for the first dictionary, and
    [file] and [rank] are aliases of one dictionary, the second. *)
Definition aliased_names : list (string * nat) :=
[("console"%string, 0%nat); ("file"%string, 1%nat); ("rank"%string, 1%nat)].

(** A configuration with the given handlers. *)
Definition items_of (handlers : list (string * @yaml string))
  : list (string * @yaml string) :=
[("version"%string, YInt 1);
 ("handlers"%string, YMap handlers);
 ("root"%string, YMap [("level"%string, YStr "INFO")])].

End LogConfigSample.

(** ** [examples/farmer/farmer_cylinders.py]: the driver

    [main] turns the command line into a hub and a list of spokes and spins
    the wheel.  The constructors of [mpisppy.utils.vanilla] and
    [spin_the_wheel] are outside; a hub or spoke dictionary is recorded as
    the constructor that made it and what [main] handed to it. *)

Module FarmerCylinders.

(** The arguments [main] reads from the parsed command line. *)
Record args : Type := Args {
  num_scens : Z;
  crops_mult : Z;
  default_rho : option Float.t;
  use_adaptive_rho_setter : bool;
  with_fwph : bool;
  with_lagrangian : bool;
  with_xhatlooper : bool;
  with_xhatshuffle : bool
}.

(** [beans] and [scenario_creator_kwargs]. *)
Record beans : Type := Beans {
  all_scenario_names : list string;
  use_integer : bool;
  crops_multiplier : Z
}.

Inductive spoke_dict : Type :=
| fwph_spoke (b : beans)
| lagrangian_spoke (b : beans) (rho_setter : bool)
| xhatlooper_spoke (b : beans)
| xhatshuffle_spoke (b : beans).

(** The hub dictionary of [vanilla.ph_hub], with the two entries [main] may
    overwrite. *)
Record hub_dict : Type := Hub {
  hub_beans : beans;
  hub_rho_setter : bool;
  PH_extensions : option string;
  adaptive_rho_options_verbose : option bool
}.

(** [['scen{}'.format(sn) for sn in range(num_scen)]] *)
Definition scenario_names (num_scen : Z) : list string :=
(fun sn : nat => "scen" +:+ pretty sn) <$> seq 0 (Z.to_nat num_scen).

(** [if flag: l.append(x)] *)
Definition append_if {A} (flag : bool) (x : A) (l : list A) : list A :=
if flag then l ++ [x] else l.

(** [main()]: the arguments of [spin_the_wheel], or the exception raised
    before.  [has_rho_setter] tells whether the [farmer] module has a
    [_rho_setter]. *)
Definition main (a : args) (has_rho_setter : bool)
  : Py.res (hub_dict * list spoke_dict) :=
if bool_decide (default_rho a = None) && negb has_rho_setter
then Py.Raise (Py.RuntimeError "No rho_setter so there must be --default-rho")
else
  let b := Beans (scenario_names (num_scens a)) false (crops_mult a) in
  let hub :=
    if use_adaptive_rho_setter a
    then Hub b has_rho_setter (Some "AdaptiveRhoSetter"%string) (Some true)
    else Hub b has_rho_setter None None in
  let list_of_spoke_dict :=
    append_if (with_xhatshuffle a) (xhatshuffle_spoke b)
      (append_if (with_xhatlooper a) (xhatlooper_spoke b)
         (append_if (with_lagrangian a) (lagrangian_spoke b has_rho_setter)
            (append_if (with_fwph a) (fwph_spoke b) []))) in
  Py.Ok (hub, list_of_spoke_dict).

(** The [beans] of a spoke. *)
Definition spoke_beans (s : spoke_dict) : beans :=
match s with
| fwph_spoke b => b
| lagrangian_spoke b _ => b
| xhatlooper_spoke b => b
| xhatshuffle_spoke b => b
end.

(** Command lines for examples: three scenarios with the Lagrangian and the
    shuffle spokes, and the same without [--default-rho]. *)
Definition three_scens : args :=
Args 3 1 (Some (Float.of_Z 1)) false false true false true.
Definition no_rho : args := Args 3 1 None false false true false true.

End FarmerCylinders.

(** * Properties *)

(** ** The cycler *)

Module CyclerFacts.
Import ScenarioCycler.

(** Reduce the attribute reads of an updated cycler, and nothing else. *)
Ltac attrs :=
  cbn [_all_scenario_list _num_scenarios _cycle_idx _cur_scen
       _scenarios_this_epoch _best begin_epoch best set_best add_scenario
       fst snd] in *.

Lemma getitem_in_range {A} (l : list A) (i : Z) :
  0 <= i < Z.of_nat (length l) ->
  exists x, Py.getitem l i = Py.Ok x /\ l !! Z.to_nat i = Some x.
Proof.
  intros Hi. unfold Py.getitem.
  destruct (Z.ltb_spec i 0) as [?|_]; [lia|].
  destruct (Z.leb_spec 0 i) as [_|?]; [|lia].
  destruct (Z.ltb_spec i (Z.of_nat (length l))) as [_|?]; [|lia].
  simpl. destruct (lookup_lt_is_Some_2 l (Z.to_nat i)) as [x Hx]; [lia|].
  rewrite Hx. eauto.
Qed.

Lemma init_nonempty (l : list string) :
  l <> [] ->
  exists self, __init__ l = Py.Ok self /\ wf self /\
    _all_scenario_list self = l /\ _cycle_idx self = 0 /\
    _scenarios_this_epoch self = ∅ /\ _best self = None.
Proof.
  intros Hl. unfold __init__.
  destruct (getitem_in_range l 0) as (x & -> & Hx).
  { destruct l; [done|]. simpl. lia. }
  simpl. eexists. split; [reflexivity|]. unfold wf. simpl.
  repeat split; try done. destruct l; [done|simpl; lia].
Qed.

Lemma iter_scen_wf (self : t) :
  wf self ->
  exists self', _iter_scen self = Py.Ok self' /\ wf self' /\
    _all_scenario_list self' = _all_scenario_list self /\
    (_cycle_idx self' =
      (_cycle_idx self + 1) mod Z.of_nat (length (_all_scenario_list self))) /\
    _scenarios_this_epoch self' = _scenarios_this_epoch self /\
    _best self' = _best self.
Proof.
  intros (Hn & Hi & Hc). unfold _iter_scen, Py.mod_. rewrite Hn.
  destruct (Z.eqb_spec (Z.of_nat (length (_all_scenario_list self))) 0) as [?|Hne];
    [lia|]. simpl.
  set (n := Z.of_nat (length (_all_scenario_list self))) in *.
  assert (Hr : 0 <= (_cycle_idx self + 1) mod n < n)
    by (apply Z.mod_pos_bound; lia).
  destruct (getitem_in_range (_all_scenario_list self) _ Hr) as (x & -> & Hx).
  simpl. eexists. split; [reflexivity|]. unfold wf. simpl. done.
Qed.

Lemma add_scenario_wf x (self : t) : wf self -> wf (add_scenario x self).
Proof. done. Qed.

Lemma get_next_wf (self : t) :
  wf self ->
  exists r self', get_next self = Py.Ok (r, self') /\ wf self' /\
    _all_scenario_list self' = _all_scenario_list self /\
    (_cycle_idx self' =
      (_cycle_idx self + 1) mod Z.of_nat (length (_all_scenario_list self))) /\
    _best self' = _best self /\
    ((r = None /\ Some (_cur_scen self) ∈ _scenarios_this_epoch self /\
      _scenarios_this_epoch self' = _scenarios_this_epoch self) \/
     (r = Some (_cur_scen self) /\
      (Some (_cur_scen self) ∉ _scenarios_this_epoch self) /\
      _scenarios_this_epoch self' =
        {[ Some (_cur_scen self) ]} ∪ _scenarios_this_epoch self)).
Proof.
  intros Hwf. unfold get_next. case_decide as Hin.
  - destruct (iter_scen_wf self Hwf) as (s' & -> & ? & ? & ? & ? & ?).
    simpl. eexists _, _. split; [reflexivity|]. naive_solver.
  - destruct (iter_scen_wf _ (add_scenario_wf (Some (_cur_scen self)) self Hwf))
      as (s' & -> & ? & ? & ? & ? & ?).
    simpl. eexists _, _. split; [reflexivity|]. naive_solver.
Qed.

Lemma call_wf (o : op) (self : t) :
  wf self ->
  exists r self', call o self = Py.Ok (r, self') /\ wf self' /\
    _all_scenario_list self' = _all_scenario_list self.
Proof.
  intros Hwf. destruct o; simpl.
  - destruct (get_next_wf self Hwf) as (r & s' & -> & ? & ? & _).
    simpl. eauto.
  - eexists _, _. split; [reflexivity|]. done.
  - eexists _, _. split; [reflexivity|]. done.
  - eexists _, _. split; [reflexivity|]. done.
Qed.

Lemma calls_wf (os : list op) (self : t) :
  wf self ->
  exists rs self', calls os self = Py.Ok (rs, self') /\ wf self' /\
    _all_scenario_list self' = _all_scenario_list self.
Proof.
  revert self. induction os as [|o os IH]; intros self Hwf; simpl.
  - eauto.
  - destruct (call_wf o self Hwf) as (r & s1 & -> & Hwf1 & Hl1). simpl.
    destruct (IH s1 Hwf1) as (rs & s2 & -> & Hwf2 & Hl2). simpl.
    eexists _, _. split; [reflexivity|]. split; [done|congruence].
Qed.

(** *** One epoch over ["A"; "B"; "C"] *)

(** C1, as the specification's example has it: after the exhausted fourth
    call and [begin_epoch()], the next call would return ["A"].  The code
    does not do that. *)
Lemma abc_epoch_restarts_at_A_fails :
  ~ (exists self rs self',
       __init__ abc = Py.Ok self /\
       calls abc_calls self = Py.Ok (rs, self') /\
       rs = [RNext (Some "A"); RNext (Some "B"); RNext (Some "C");
             RNext None; RUnit; RNext (Some "A")]%string).
Proof.
  intros (self & rs & self' & Hinit & Hcalls & Hrs).
  vm_compute in Hinit. injection Hinit as <-.
  vm_compute in Hcalls. injection Hcalls as <- _.
  discriminate Hrs.
Qed.

(** C1, amended: three calls return ["A"], ["B"], ["C"], the fourth returns
    no candidate, and after [begin_epoch()] the next call returns ["B"]:
    the exhausted call has moved the cursor past ["A"]. *)
Theorem abc_epoch_restarts_at_B :
  exists self rs self',
    __init__ abc = Py.Ok self /\
    calls abc_calls self = Py.Ok (rs, self') /\
    rs = [RNext (Some "A"); RNext (Some "B"); RNext (Some "C");
          RNext None; RUnit; RNext (Some "B")]%string.
Proof.
  eexists _, _, _. split; [reflexivity|].
  split; [vm_compute; reflexivity|reflexivity].
Qed.

(** *** Totality *)

(** C10: [__init__] over the empty list raises [IndexError]; the cursor
    advance of [get_next] raises [ZeroDivisionError] when the recorded
    size is 0; over a non-empty list the constructor succeeds and so does
    every sequence of calls on the cycler it builds. *)
Theorem cycler_total_iff_nonempty :
  __init__ [] = Py.Raise Py.IndexError /\
  (forall self, _num_scenarios self = 0 ->
     _iter_scen self = Py.Raise Py.ZeroDivisionError /\
     get_next self = Py.Raise Py.ZeroDivisionError) /\
  (forall l os, l <> [] ->
     exists self rs self',
       __init__ l = Py.Ok self /\ calls os self = Py.Ok (rs, self')).
Proof.
  split; [reflexivity|]. split.
  - intros self Hn. unfold get_next, _iter_scen, add_scenario. simpl.
    rewrite Hn. simpl. split; [done|]. by case_decide.
  - intros l os Hl.
    destruct (init_nonempty l Hl) as (self & Hinit & Hwf & _).
    destruct (calls_wf os self Hwf) as (rs & self' & Hcalls & _).
    eauto.
Qed.

Lemma cycler_total_iff_nonempty_witness :
  (_iter_scen (Build [] 0 0 "A" ∅ None) = Py.Raise Py.ZeroDivisionError /\
   get_next (Build [] 0 0 "A" ∅ None) = Py.Raise Py.ZeroDivisionError) /\
  exists self rs self',
    __init__ abc = Py.Ok self /\ calls abc_calls self = Py.Ok (rs, self').
Proof.
  split.
  - apply (proj1 (proj2 cycler_total_iff_nonempty)). reflexivity.
  - apply (proj2 (proj2 cycler_total_iff_nonempty)). discriminate.
Defined.

(** *** What the calls do to the epoch's set *)

Lemma iter_scen_keeps (self self' : t) :
  _iter_scen self = Py.Ok self' ->
  _scenarios_this_epoch self' = _scenarios_this_epoch self /\
  _best self' = _best self /\
  _all_scenario_list self' = _all_scenario_list self.
Proof.
  unfold _iter_scen. destruct (Py.mod_ _ _) as [i|]; simpl; [|done].
  destruct (Py.getitem _ _) as [c|]; simpl; [|done].
  by intros [= <-].
Qed.

Lemma get_next_cases (self self' : t) (r : option string) :
  get_next self = Py.Ok (r, self') ->
  _best self' = _best self /\
  ((r = None /\ _scenarios_this_epoch self' = _scenarios_this_epoch self) \/
   (r = Some (_cur_scen self) /\
    (Some (_cur_scen self) ∉ _scenarios_this_epoch self) /\
    _scenarios_this_epoch self' =
      {[ Some (_cur_scen self) ]} ∪ _scenarios_this_epoch self)).
Proof.
  unfold get_next. case_decide as Hin.
  - destruct (_iter_scen self) as [s1|] eqn:Hit; simpl; [|done].
    intros [= <- <-]. apply iter_scen_keeps in Hit. naive_solver.
  - destruct (_iter_scen (add_scenario _ self)) as [s1|] eqn:Hit; simpl; [|done].
    intros [= <- <-]. apply iter_scen_keeps in Hit. simpl in Hit. naive_solver.
Qed.

(** Between two [begin_epoch()] calls the set only grows, and a candidate
    handed out was not in it before and is in it afterwards. *)
Lemma epoch_grows (os : list op) (self self' : t) (rs : list ret) :
  BeginEpoch ∉ os ->
  calls os self = Py.Ok (rs, self') ->
  _scenarios_this_epoch self ⊆ _scenarios_this_epoch self' /\
  (forall c, c ∈ handed_out rs ->
     (Some c ∉ _scenarios_this_epoch self) /\
     Some c ∈ _scenarios_this_epoch self') /\
  NoDup (handed_out rs).
Proof.
  revert self rs. induction os as [|o os IH]; intros self rs Hno; simpl.
  - intros [= <- <-]. simpl. split; [done|]. split; [|constructor].
    intros c Hc. by apply elem_of_nil in Hc.
  - destruct (call o self) as [[r s1]|] eqn:Hcall; simpl; [|done].
    destruct (calls os s1) as [[rs1 s2]|] eqn:Hcalls; simpl; [|done].
    intros [= <- <-].
    apply not_elem_of_cons in Hno as [Ho Hno].
    destruct (IH s1 rs1 Hno Hcalls) as (Hsub & Hout & Hnd).
    destruct o; simpl in Hcall; [| done | |].
    + destruct (get_next self) as [[r' s']|] eqn:Hgn; simpl in Hcall; [|done].
      injection Hcall as <- <-.
      apply get_next_cases in Hgn as [_ [[-> Hv]|(-> & Hfresh & Hv)]];
        simpl in *; rewrite Hv in *.
      * done.
      * split; [set_solver|]. split.
        -- intros c [->|Hc]%elem_of_cons; [set_solver|].
           destruct (Hout c Hc). set_solver.
        -- constructor; [|done]. intros Hc. destruct (Hout _ Hc). set_solver.
    + injection Hcall as <- <-. simpl in *. split; [set_solver|].
      split; [|done]. intros c Hc. destruct (Hout c Hc). set_solver.
    + injection Hcall as <- <-. simpl in *. done.
Qed.

Lemma reachable_wf (self : t) : reachable self -> wf self.
Proof.
  intros (l & os & self0 & rs & Hinit & Hcalls).
  assert (Hl : l <> []) by (intros ->; discriminate Hinit).
  destruct (init_nonempty l Hl) as (s0 & Hinit' & Hwf & _).
  rewrite Hinit in Hinit'. injection Hinit' as ->.
  destruct (calls_wf os s0 Hwf) as (rs' & s' & Hcalls' & Hwf' & _).
  rewrite Hcalls in Hcalls'. by injection Hcalls' as _ ->.
Qed.

(** *** The pinned best *)

(** C4: after [cycler.best = v], reading [cycler.best] returns [v] and puts
    [v] into the epoch's set, whether or not [get_next()] had reached it;
    whatever calls follow, as long as none is [begin_epoch()], they all
    succeed and [get_next()] does not return [v]. *)
Theorem best_read_marks_visited (self : t) (v : string) (os : list op) :
  reachable self ->
  BeginEpoch ∉ os ->
  (best (set_best v self)).1 = Some v /\
  Some v ∈ _scenarios_this_epoch (best (set_best v self)).2 /\
  exists rs self',
    calls os (best (set_best v self)).2 = Py.Ok (rs, self') /\
    v ∉ handed_out rs.
Proof.
  intros Hwf%reachable_wf Hno. split; [done|]. split; [simpl; set_solver|].
  destruct (calls_wf os (best (set_best v self)).2) as (rs & s' & Hc & _);
    [done|].
  exists rs, s'. split; [done|]. intros Hin.
  destruct (epoch_grows os _ _ _ Hno Hc) as (_ & Hout & _).
  destruct (Hout v Hin) as [Hfresh _]. apply Hfresh. simpl. set_solver.
Qed.

Lemma abc_fresh_reachable : reachable abc_fresh.
Proof. exists abc, [], abc_fresh, []. split; reflexivity. Qed.

Lemma best_read_marks_visited_witness :
  reachable abc_fresh /\
  (BeginEpoch ∉ [GetNext; GetNext; GetNext]) /\
  (best (set_best "B" abc_fresh)).1 = Some "B"%string /\
  Some "B"%string ∈ _scenarios_this_epoch (best (set_best "B" abc_fresh)).2 /\
  exists rs self',
    calls [GetNext; GetNext; GetNext] (best (set_best "B" abc_fresh)).2
      = Py.Ok (rs, self') /\
    "B"%string ∉ handed_out rs.
Proof.
  assert (Hno : BeginEpoch ∉ [GetNext; GetNext; GetNext]).
  { intros H. repeat (apply elem_of_cons in H as [H|H]; [discriminate H|]).
    by apply elem_of_nil in H. }
  split; [exact abc_fresh_reachable|]. split; [exact Hno|].
  exact (best_read_marks_visited abc_fresh "B"
           [GetNext; GetNext; GetNext] abc_fresh_reachable Hno).
Defined.

(** *** The invariant of the cycler *)

Lemma size_list_to_set_le (l : list (option string)) :
  (size (list_to_set l : gset (option string)) <= length l)%nat.
Proof.
  induction l as [|x l IH].
  - by rewrite list_to_set_nil, size_empty.
  - rewrite list_to_set_cons, size_union_alt, size_singleton. cbn [length].
    pose proof (subseteq_size (list_to_set l ∖ {[x]})
                  (list_to_set l : gset (option string))) as Hle.
    assert (Hsub : (list_to_set l ∖ {[x]} : gset (option string))
                     ⊆ list_to_set l) by set_solver.
    specialize (Hle Hsub). lia.
Qed.

Lemma cur_scen_candidate (self : t) :
  wf self -> Some (_cur_scen self) ∈ candidates (_all_scenario_list self).
Proof.
  intros (_ & _ & Hc). unfold candidates. apply elem_of_list_to_set.
  apply list_elem_of_fmap. exists (_cur_scen self). split; [done|].
  by eapply list_elem_of_lookup_2.
Qed.

Lemma call_tidy (l : list string) (o : op) (self : t) :
  tidy l self -> writes_within l [o] ->
  exists r self', call o self = Py.Ok (r, self') /\ tidy l self'.
Proof.
  intros (Hwf & Hl & Hvis & Hbest) Hw.
  pose proof (cur_scen_candidate self Hwf) as Hcur. rewrite Hl in Hcur.
  destruct o; simpl.
  - destruct (get_next_wf self Hwf)
      as (r & s' & -> & Hwf' & Hl' & _ & Hb' & [(_ & _ & Hv)|(_ & _ & Hv)]);
      simpl; eexists _, _; (split; [reflexivity|]);
      (split; [done|]); (split; [congruence|]); rewrite Hv, Hb';
      (split; [set_solver|done]).
  - eexists _, _. split; [reflexivity|].
    split; [exact Hwf|]. split; [exact Hl|]. split; [|exact Hbest].
    attrs. set_solver.
  - eexists _, _. split; [reflexivity|].
    split; [exact Hwf|]. split; [exact Hl|]. split; [|exact Hbest].
    attrs. destruct (_best self) as [b|] eqn:Hb; [|set_solver].
    specialize (Hbest b eq_refl).
    assert (Some b ∈ candidates l).
    { apply elem_of_list_to_set, list_elem_of_fmap. eauto. }
    set_solver.
  - eexists _, _. split; [reflexivity|].
    split; [exact Hwf|]. split; [exact Hl|]. split; [exact Hvis|].
    attrs. intros v' [= <-]. apply Hw. set_solver.
Qed.

Lemma calls_tidy (l : list string) (os : list op) (self : t) :
  tidy l self -> writes_within l os ->
  exists rs self', calls os self = Py.Ok (rs, self') /\ tidy l self'.
Proof.
  revert self. induction os as [|o os IH]; intros self Ht Hw; simpl.
  - eauto.
  - destruct (call_tidy l o self Ht) as (r & s1 & -> & Ht1).
    { intros v Hv. apply Hw. set_solver. }
    simpl. destruct (IH s1 Ht1) as (rs & s2 & -> & Ht2).
    { intros v Hv. apply Hw. set_solver. }
    simpl. eauto.
Qed.

(** C9, as stated, fails on the epoch's set: over the order ["A"], reading
    [best] before any best is pinned puts [None] into the set, and the
    next [get_next()] adds ["A"]; the set then has two members, one more
    than the order. *)
Lemma visited_outgrows_order :
  exists self rs self',
    __init__ ["A"%string] = Py.Ok self /\
    calls [BestRead; GetNext] self = Py.Ok (rs, self') /\
    ~ (size (_scenarios_this_epoch self') <= length ["A"%string])%nat.
Proof.
  eexists _, _, _. split; [reflexivity|].
  split; [vm_compute; reflexivity|].
  vm_compute. intros H. inversion H as [|? H']. inversion H'.
Qed.

(** C9, amended: over a non-empty order every sequence of calls succeeds
    and leaves the cursor inside [0, |order|); when every written best is
    a candidate of the order, the epoch's set holds, besides the [None]
    that reading an unpinned best inserts, candidates of the order only,
    so at most |order| of them. *)
Theorem cycler_invariant (l : list string) (os : list op) :
  l <> [] ->
  exists self rs self',
    __init__ l = Py.Ok self /\
    calls os self = Py.Ok (rs, self') /\
    0 <= _cycle_idx self' < Z.of_nat (length l) /\
    (writes_within l os ->
     _scenarios_this_epoch self' ∖ {[ None ]} ⊆ candidates l /\
     (size (_scenarios_this_epoch self' ∖ {[ None ]}) <= length l)%nat).
Proof.
  intros Hl.
  destruct (init_nonempty l Hl) as (self & Hinit & Hwf & Hl0 & _ & Hv0 & Hb0).
  destruct (calls_wf os self Hwf) as (rs & self' & Hcalls & Hwf' & Hl').
  exists self, rs, self'. split; [done|]. split; [done|]. split.
  { destruct Hwf' as (_ & Hi & _). by rewrite Hl', Hl0 in Hi. }
  intros Hw.
  destruct (calls_tidy l os self) as (rs2 & self2 & Hcalls2 & Ht); [|done|].
  { split; [done|]. split; [done|]. rewrite Hv0, Hb0. split; [set_solver|done]. }
  rewrite Hcalls in Hcalls2. injection Hcalls2 as _ <-.
  destruct Ht as (_ & _ & Hvis & _).
  assert (Hsub : _scenarios_this_epoch self' ∖ {[ None ]} ⊆ candidates l)
    by set_solver.
  split; [done|].
  etrans; [apply subseteq_size, Hsub|].
  unfold candidates. etrans; [apply size_list_to_set_le|].
  by rewrite length_fmap.
Qed.

Lemma cycler_invariant_witness :
  abc <> [] /\
  writes_within abc (BestRead :: BestWrite "C" :: abc_calls) /\
  exists self rs self',
    __init__ abc = Py.Ok self /\
    calls (BestRead :: BestWrite "C" :: abc_calls) self = Py.Ok (rs, self') /\
    0 <= _cycle_idx self' < Z.of_nat (length abc) /\
    (_scenarios_this_epoch self' ∖ {[ None ]} ⊆ candidates abc) /\
    (size (_scenarios_this_epoch self' ∖ {[ None ]}) <= length abc)%nat.
Proof.
  assert (Hw : writes_within abc (BestRead :: BestWrite "C" :: abc_calls)).
  { intros v Hv. unfold abc_calls in Hv.
    repeat (apply elem_of_cons in Hv as [Hv|Hv]; [try discriminate Hv|]).
    - injection Hv as ->. unfold abc. do 2 apply list_elem_of_further.
      apply list_elem_of_here.
    - by apply elem_of_nil in Hv. }
  split; [discriminate|]. split; [exact Hw|].
  destruct (cycler_invariant abc (BestRead :: BestWrite "C" :: abc_calls))
    as (self & rs & self' & Hi & Hc & Hr & Hvis); [discriminate|].
  exists self, rs, self'. destruct (Hvis Hw). done.
Defined.

(** *** One full pass *)

Lemma rotate_perm {A} (n : nat) (l : list A) : rotate n l ≡ₚ l.
Proof.
  unfold rotate. rewrite Permutation_app_comm. by rewrite take_drop.
Qed.

Lemma rotate_next (l : list string) (c : Z) (i : nat) :
  0 <= c < Z.of_nat (length l) -> (S i < length l)%nat ->
  rotate (Z.to_nat ((c + 1) mod Z.of_nat (length l))) l !! i
    = rotate (Z.to_nat c) l !! S i.
Proof.
  intros Hc Hi. rewrite !lookup_rotate_r by lia. f_equal.
  unfold rotate_nat_add. f_equal.
  rewrite !Z2Nat.id by (try apply Z.mod_pos_bound; lia).
  rewrite Zplus_mod_idemp_l. f_equal. lia.
Qed.

Lemma rotate_head (self : t) :
  wf self ->
  rotate (Z.to_nat (_cycle_idx self)) (_all_scenario_list self) !! 0%nat
    = Some (_cur_scen self).
Proof.
  intros (_ & Hi & Hc). rewrite lookup_rotate_r by lia.
  rewrite rotate_nat_add_0 by lia. done.
Qed.

(** As long as the next [k] candidates from the cursor on are new to the
    epoch, [k] calls of [get_next()] hand them out, in order. *)
Lemma get_next_run (k : nat) (self : t) :
  wf self ->
  NoDup (_all_scenario_list self) ->
  (k <= length (_all_scenario_list self))%nat ->
  (forall i c, (i < k)%nat ->
     rotate (Z.to_nat (_cycle_idx self)) (_all_scenario_list self) !! i
       = Some c ->
     Some c ∉ _scenarios_this_epoch self) ->
  exists self',
    calls (replicate k GetNext) self
      = Py.Ok (RNext ∘ Some <$>
                 take k (rotate (Z.to_nat (_cycle_idx self))
                                (_all_scenario_list self)),
               self').
Proof.
  revert self. induction k as [|k IH]; intros self Hwf Hnd Hk Hfresh.
  - eexists. reflexivity.
  - pose proof (rotate_head self Hwf) as Hhead.
    pose proof Hwf as (_ & Hi & _).
    set (l := _all_scenario_list self) in *.
    set (r := rotate (Z.to_nat (_cycle_idx self)) l) in *.
    destruct (get_next_wf self Hwf)
      as (o & s1 & Hgn & Hwf1 & Hl1 & Hi1 & _ & [(_ & Hin & _)|(-> & _ & Hv1)]).
    { exfalso. by apply (Hfresh 0%nat (_cur_scen self)); [lia| |]. }
    fold l in Hl1, Hi1.
    assert (Htail : forall i, (i < k)%nat ->
              rotate (Z.to_nat (_cycle_idx s1)) l !! i = r !! S i).
    { intros i Hik. rewrite Hi1. apply rotate_next; lia. }
    destruct (IH s1) as (s2 & Hrun).
    + done.
    + by rewrite Hl1.
    + rewrite Hl1. fold l. lia.
    + rewrite Hl1. fold l. intros i c Hik Hc. rewrite Htail in Hc by done.
      rewrite Hv1. apply not_elem_of_union. split.
      * rewrite elem_of_singleton. intros [= ->].
        assert (Hndr : NoDup r) by (unfold r; by rewrite rotate_perm).
        pose proof (NoDup_lookup r _ _ _ Hndr Hhead Hc). lia.
      * apply (Hfresh (S i)); [lia|done].
    + exists s2. cbn [replicate calls call]. rewrite Hgn. simpl.
      rewrite Hrun. simpl. f_equal. f_equal.
      rewrite Hl1. fold l.
      assert (Hr : r = _cur_scen self :: drop 1 r).
      { destruct r as [|x r'] eqn:Hreq; [done|]. simpl in Hhead.
        injection Hhead as ->. done. }
      rewrite Hr. cbn [take fmap list_fmap]. f_equal. f_equal.
      apply list_eq. intros i. destruct (decide (i < k)%nat) as [Hik|Hik].
      * rewrite !lookup_take_lt by done. rewrite lookup_drop. by apply Htail.
      * rewrite !lookup_take_ge by lia. done.
Qed.

(** C3: on a cycler over [N] distinct candidates, in whatever state its
    past calls left it, [begin_epoch()] followed by [N] calls of
    [get_next()] makes every call return a candidate, and the candidates
    returned are the order rotated to start at the cursor: each candidate
    once.  Moreover, in any run of calls without [begin_epoch()], no
    candidate is returned by two [get_next()] calls. *)
Theorem epoch_is_exhaustive (self : t) (os : list op) :
  reachable self ->
  (NoDup (_all_scenario_list self) ->
   exists self',
     calls (replicate (length (_all_scenario_list self)) GetNext)
           (begin_epoch self)
       = Py.Ok (RNext ∘ Some <$>
                  rotate (Z.to_nat (_cycle_idx self)) (_all_scenario_list self),
                self') /\
     rotate (Z.to_nat (_cycle_idx self)) (_all_scenario_list self)
       ≡ₚ _all_scenario_list self) /\
  (BeginEpoch ∉ os ->
   exists rs self', calls os self = Py.Ok (rs, self') /\ NoDup (handed_out rs)).
Proof.
  intros Hwf%reachable_wf. split.
  - intros Hnd.
    destruct (get_next_run (length (_all_scenario_list self)) (begin_epoch self))
      as (self' & Hrun); [done|done|done|attrs; set_solver|].
    attrs. rewrite firstn_all2 in Hrun by (by rewrite length_rotate).
    exists self'. split; [done|]. apply rotate_perm.
  - intros Hno. destruct (calls_wf os self Hwf) as (rs & self' & Hc & _).
    exists rs, self'. split; [done|].
    by destruct (epoch_grows os self self' rs Hno Hc) as (_ & _ & ?).
Qed.

Lemma abc_after_one_reachable : reachable abc_after_one.
Proof.
  exists abc, [GetNext], abc_fresh, [RNext (Some "A"%string)].
  split; [reflexivity|]. vm_compute. reflexivity.
Qed.

Lemma epoch_is_exhaustive_witness :
  reachable abc_after_one /\
  NoDup abc /\
  (BeginEpoch ∉ [GetNext; BestRead; GetNext]) /\
  (exists self',
     calls [GetNext; GetNext; GetNext] (begin_epoch abc_after_one)
       = Py.Ok ([RNext (Some "B"); RNext (Some "C"); RNext (Some "A")]%string,
                self') /\
     ["B"; "C"; "A"]%string ≡ₚ abc) /\
  exists rs self',
    calls [GetNext; BestRead; GetNext] abc_after_one = Py.Ok (rs, self') /\
    NoDup (handed_out rs).
Proof.
  assert (Hnd : NoDup abc).
  { unfold abc. repeat (apply NoDup_cons; split); try apply NoDup_nil_2;
      intros H; repeat (apply elem_of_cons in H as [H|H]; [discriminate H|]);
      by apply elem_of_nil in H. }
  assert (Hno : BeginEpoch ∉ [GetNext; BestRead; GetNext]).
  { intros H. repeat (apply elem_of_cons in H as [H|H]; [discriminate H|]).
    by apply elem_of_nil in H. }
  pose proof (epoch_is_exhaustive abc_after_one [GetNext; BestRead; GetNext]
                abc_after_one_reachable) as [Hpass Hrep].
  split; [exact abc_after_one_reachable|]. split; [exact Hnd|].
  split; [exact Hno|]. split; [exact (Hpass Hnd)|exact (Hrep Hno)].
Defined.

End CyclerFacts.

(** ** Comparison of floats *)

Module FloatFacts.

Ltac by_cases :=
  repeat match goal with
         | s : bool |- _ => destruct s
         end;
  cbn [SFcompare]; try done;
  repeat match goal with
         | |- context [PosDef.Pos.compare_cont Eq ?a ?b] =>
             change (PosDef.Pos.compare_cont Eq a b) with (Pos.compare a b)
         | |- context [Z.compare ?a ?b] =>
             destruct (Z.compare_spec a b); try lia; subst
         | |- context [Pos.compare ?a ?b] =>
             destruct (Pos.compare_spec a b); try lia; subst
         end;
  cbn [CompOpp]; try done; try lia.

Lemma le_trans (x y z : Float.t) :
  Float.le x y = true -> Float.le y z = true -> Float.le x z = true.
Proof.
  unfold Float.le, SFleb.
  destruct x as [sx|sx| |sx mx ex], y as [sy|sy| |sy my ey],
           z as [sz|sz| |sz mz ez]; by_cases.
Qed.

Lemma le_refl (x : Float.t) : Float.is_nan x = false -> Float.le x x = true.
Proof.
  unfold Float.le, SFleb. destruct x as [sx|sx| |sx mx ex]; by_cases.
Qed.

Lemma lt_le (x y : Float.t) : Float.lt x y = true -> Float.le x y = true.
Proof.
  unfold Float.lt, Float.le, SFltb, SFleb.
  by destruct (SFcompare x y) as [[]|].
Qed.

(** Among numbers, [x < y] failing means [y <= x]. *)
Lemma not_lt_le (x y : Float.t) :
  Float.is_nan x = false -> Float.is_nan y = false ->
  Float.lt x y = false -> Float.le y x = true.
Proof.
  unfold Float.lt, Float.le, SFltb, SFleb.
  destruct x as [sx|sx| |sx mx ex], y as [sy|sy| |sy my ey]; by_cases.
Qed.

(** A new number against the least member so far. *)
Lemma min_step (b obj : Float.t) (seen : list Float.t) :
  Float.is_nan b = false -> Float.is_nan obj = false ->
  Float.is_min b seen ->
  Float.is_min (if Float.lt obj b then obj else b) (seen ++ [obj]).
Proof.
  intros Hb Hobj [Hin Hle]. destruct (Float.lt obj b) eqn:Hlt; split.
  - set_solver.
  - intros x [Hx|Hx]%elem_of_app.
    + eapply le_trans; [by apply lt_le|by apply Hle].
    + apply list_elem_of_singleton in Hx as ->. by apply le_refl.
  - set_solver.
  - intros x [Hx|Hx]%elem_of_app; [by apply Hle|].
    apply list_elem_of_singleton in Hx as ->. by apply not_lt_le.
Qed.

End FloatFacts.

(** ** The sampling spoke *)

Module ShuffleFacts.
Import Effects XhatShuffleInnerBound.

Lemma outcome_bind {A B} (m : io A) (k : A -> io B) :
  outcome (m ≫= k) =
    match outcome m with
    | Py.Ok a => outcome (k a)
    | Py.Raise e => Py.Raise e
    end.
Proof. unfold mbind, io_bind. by destruct (outcome m). Qed.

Lemma outcome_vb (self : t) (msg : string) (values : list Float.t) :
  outcome (_vb self msg values) = Py.Ok tt.
Proof. unfold _vb, when. by destruct (_ && _). Qed.

(** What [try_scenario] returns and leaves behind. *)
Lemma try_scenario_outcome (answer : tick) (scenario : string) (self : t) :
  outcome (try_scenario answer scenario self) =
    Py.Ok match _try_one answer scenario with
          | None => (false, self)
          | Some obj =>
              if improves (is_minimizing self) obj (ib self)
              then (true, set_ib obj (set_bound obj self))
              else (false, self)
          end.
Proof.
  unfold try_scenario. rewrite outcome_bind. cbn [emit outcome].
  destruct (_try_one answer scenario) as [obj|].
  - rewrite outcome_bind, outcome_vb. unfold improves.
    by destruct (is_minimizing self), (Float.lt _ _).
  - by rewrite outcome_bind, outcome_vb.
Qed.

Lemma feed_cons (scenario : string) (obj : Float.t) (objs : list Float.t)
    (self : t) :
  feed scenario (obj :: objs) self =
    (if improves (is_minimizing self) obj (ib self)
     then set_ib obj (set_bound obj self) else self)
    :: feed scenario objs
         (if improves (is_minimizing self) obj (ib self)
          then set_ib obj (set_bound obj self) else self).
Proof.
  cbn [feed]. rewrite try_scenario_outcome. cbn [feasible _try_one].
  by destruct (improves _ _ _).
Qed.

Lemma length_feed (scenario : string) (objs : list Float.t) (self : t) :
  length (feed scenario objs self) = length objs.
Proof.
  revert self. induction objs as [|obj objs IH]; intros self; [done|].
  rewrite feed_cons. cbn [length]. by rewrite IH.
Qed.

(** From one call to the next the spoke is unchanged, or its best bound
    and its reported bound are the new objective, which is strictly
    better than the bound it replaces. *)
Lemma feed_steps (scenario : string) (objs : list Float.t) (self : t)
    (i : nat) (prev next : t) (obj : Float.t) :
  (self :: feed scenario objs self) !! i = Some prev ->
  feed scenario objs self !! i = Some next ->
  objs !! i = Some obj ->
  next = prev \/
  (ib next = obj /\ bound next = obj /\
   improves (is_minimizing self) obj (ib prev) = true).
Proof.
  revert self i. induction objs as [|o objs IH]; intros self i; [done|].
  rewrite feed_cons. destruct i as [|i]; cbn [lookup list_lookup].
  - intros [= <-] [= <-] [= <-].
    destruct (improves _ _ _) eqn:Himp; [right|left]; done.
  - intros Hprev Hnext Hobj.
    destruct (IH _ i Hprev Hnext Hobj) as [?|(? & ? & Himp)]; [by left|].
    right. split; [done|]. split; [done|].
    by destruct (improves (is_minimizing self) o (ib self)).
Qed.

(** Under minimization the best bound is a least member of what the spoke
    started from and the objectives seen since. *)
Lemma feed_min (scenario : string) (objs : list Float.t) :
  forall (self : t) (seen : list Float.t) (i : nat) (s : t),
    is_minimizing self = true ->
    Forall (fun x => Float.is_nan x = false) objs ->
    Float.is_nan (ib self) = false ->
    Float.is_min (ib self) seen ->
    feed scenario objs self !! i = Some s ->
    Float.is_min (ib s) (seen ++ take (S i) objs).
Proof.
  induction objs as [|obj objs IH]; intros self seen i s Hmin Hnan Hb Hseen;
    [done|].
  apply Forall_cons in Hnan as [Hobj Hnan].
  rewrite feed_cons. unfold improves. rewrite Hmin.
  pose proof (FloatFacts.min_step _ _ _ Hb Hobj Hseen) as Hstep.
  destruct i as [|i]; cbn [lookup list_lookup].
  - intros [= <-]. cbn [take]. by destruct (Float.lt obj (ib self)).
  - intros Hs. cbn [take].
    replace (seen ++ obj :: take (S i) objs)
      with ((seen ++ [obj]) ++ take (S i) objs) by (by rewrite <-app_assoc).
    eapply IH; [| done | | | exact Hs];
      by destruct (Float.lt obj (ib self)).
Qed.

(** The specification's example, computed. *)
Lemma feed_example (scenario : string) (self : t) :
  is_minimizing self = true -> ib self = Float.inf ->
  ib <$> feed scenario Farmer.objs self = Float.of_Z <$> [10; 7; 7; 4].
Proof.
  intros Hmin Hib. unfold Farmer.objs. cbn [fmap list_fmap].
  rewrite feed_cons, Hmin, Hib.
  change (improves true (Float.of_Z 10) Float.inf) with true. cbv iota.
  rewrite feed_cons. cbn [is_minimizing ib set_ib set_bound]. rewrite Hmin.
  change (improves true (Float.of_Z 7) (Float.of_Z 10)) with true. cbv iota.
  rewrite feed_cons. cbn [is_minimizing ib set_ib set_bound]. rewrite Hmin.
  change (improves true (Float.of_Z 9) (Float.of_Z 7)) with false. cbv iota.
  rewrite feed_cons. cbn [is_minimizing ib set_ib set_bound]. rewrite Hmin.
  change (improves true (Float.of_Z 4) (Float.of_Z 7)) with true. cbv iota.
  reflexivity.
Qed.

(** C2: fed with feasible objectives, [try_scenario] returns each time;
    from one call to the next the spoke's best bound either stays or is
    replaced by the new objective, and then the objective is strictly
    smaller under minimization and strictly larger under maximization;
    under minimization from [ib = inf], with objectives that are numbers,
    the best bound after each call is the least of [inf] and the
    objectives seen so far; for [10.0, 7.0, 9.0, 4.0] the best bounds are
    [10.0, 7.0, 7.0, 4.0]. *)
Theorem bound_improves_monotonically (self : t) (scenario : string)
    (objs : list Float.t) :
  length (feed scenario objs self) = length objs /\
  (forall i prev next obj,
     (self :: feed scenario objs self) !! i = Some prev ->
     feed scenario objs self !! i = Some next ->
     objs !! i = Some obj ->
     next = prev \/
     (ib next = obj /\ bound next = obj /\
      (if is_minimizing self
       then Float.lt obj (ib prev) else Float.lt (ib prev) obj) = true)) /\
  (is_minimizing self = true -> ib self = Float.inf ->
   Forall (fun x => Float.is_nan x = false) objs ->
   forall i s,
     feed scenario objs self !! i = Some s ->
     Float.is_min (ib s) (Float.inf :: take (S i) objs)) /\
  (is_minimizing self = true -> ib self = Float.inf ->
   ib <$> feed scenario (Float.of_Z <$> [10; 7; 9; 4]) self
     = Float.of_Z <$> [10; 7; 7; 4]).
Proof.
  split; [apply length_feed|]. split; [|split].
  - intros i prev next obj Hprev Hnext Hobj.
    exact (feed_steps scenario objs self i prev next obj Hprev Hnext Hobj).
  - intros Hmin Hib Hnan i s Hs.
    apply (feed_min scenario objs self [Float.inf] i s); try done.
    + by rewrite Hib.
    + rewrite Hib. split; [set_solver|].
      intros x ->%list_elem_of_singleton. done.
  - apply feed_example.
Qed.

Lemma bound_improves_monotonically_witness :
  is_minimizing Farmer.shuffle_spoke = true /\
  ib Farmer.shuffle_spoke = Float.inf /\
  Forall (fun x => Float.is_nan x = false) Farmer.objs /\
  length (feed "scen0" Farmer.objs Farmer.shuffle_spoke) = 4%nat /\
  (exists prev next,
     (Farmer.shuffle_spoke :: feed "scen0" Farmer.objs Farmer.shuffle_spoke)
       !! 2%nat = Some prev /\
     feed "scen0" Farmer.objs Farmer.shuffle_spoke !! 2%nat = Some next /\
     Farmer.objs !! 2%nat = Some (Float.of_Z 9) /\
     (next = prev \/
      (ib next = Float.of_Z 9 /\ bound next = Float.of_Z 9 /\
       Float.lt (Float.of_Z 9) (ib prev) = true))) /\
  (exists s,
     feed "scen0" Farmer.objs Farmer.shuffle_spoke !! 3%nat = Some s /\
     Float.is_min (ib s) (Float.inf :: Farmer.objs)) /\
  ib <$> feed "scen0" Farmer.objs Farmer.shuffle_spoke
    = Float.of_Z <$> [10; 7; 7; 4].
Proof.
  assert (Hnan : Forall (fun x => Float.is_nan x = false) Farmer.objs)
    by (repeat constructor).
  destruct (bound_improves_monotonically Farmer.shuffle_spoke "scen0"
              Farmer.objs) as (Hlen & Hstep & Hleast & Hex).
  split; [reflexivity|]. split; [reflexivity|]. split; [exact Hnan|].
  split; [exact Hlen|]. split; [|split].
  - eexists _, _. split; [vm_compute; reflexivity|].
    split; [vm_compute; reflexivity|]. split; [reflexivity|].
    apply (Hstep 2%nat); vm_compute; reflexivity.
  - eexists. split; [vm_compute; reflexivity|].
    apply (Hleast eq_refl eq_refl Hnan 3%nat). vm_compute. reflexivity.
  - exact (Hex eq_refl eq_refl).
Defined.

(** *** Infeasible candidates *)

Lemma outcome_new_nonants (answer : tick) :
  outcome (when (new_nonants answer)
                (emit PutNonantCache;; emit RestoreNonants)) = Py.Ok tt.
Proof. by destruct (new_nonants answer). Qed.

(** What one pass of the loop leaves behind, on a cycler in order. *)
Lemma loop_body_outcome (answer : tick) (f : frame) :
  ScenarioCycler.wf (scenario_cycler f) ->
  exists next cycler,
    ScenarioCycler.get_next (scenario_cycler f) = Py.Ok (next, cycler) /\
    ScenarioCycler.wf cycler /\
    outcome (loop_body answer f) =
      Py.Ok match next with
            | None =>
                Frame (self_ f) (ScenarioCycler.begin_epoch cycler)
                      (xh_iter f + 1)
            | Some c =>
                match _try_one answer c with
                | None => Frame (self_ f) cycler (xh_iter f + 1)
                | Some obj =>
                    if improves (is_minimizing (self_ f)) obj (ib (self_ f))
                    then Frame (set_ib obj (set_bound obj (self_ f)))
                               (ScenarioCycler.set_best c cycler)
                               (xh_iter f + 1)
                    else Frame (self_ f) cycler (xh_iter f + 1)
                end
            end.
Proof.
  intros Hwf.
  destruct (CyclerFacts.get_next_wf _ Hwf) as (next & cyc & Hgn & Hwf' & _).
  exists next, cyc. split; [done|]. split; [done|].
  unfold loop_body. rewrite outcome_bind, outcome_new_nonants.
  rewrite outcome_bind. cbn [lift outcome]. rewrite Hgn.
  destruct next as [c|]; [|done].
  rewrite outcome_bind, outcome_vb, outcome_bind, try_scenario_outcome.
  destruct (_try_one answer c) as [obj|]; [|done].
  destruct (improves _ _ _); [|done].
  by rewrite outcome_bind, outcome_vb.
Qed.

Lemma loop_cons (a : tick) (answers : list tick) (f : frame) :
  outcome (loop (a :: answers) f) =
    if got_kill_signal a then Py.Ok (Left_loop f)
    else match outcome (loop_body a f) with
         | Py.Ok f' => outcome (loop answers f')
         | Py.Raise e => Py.Raise e
         end.
Proof.
  cbn [loop]. rewrite outcome_bind. cbn [emit outcome].
  destruct (got_kill_signal a); [done|]. by rewrite outcome_bind.
Qed.


Lemma emitted_bind {A B} (m : io A) (k : A -> io B) :
  emitted (m ≫= k) =
    emitted m ++ match outcome m with
                 | Py.Ok a => emitted (k a)
                 | Py.Raise e => []
                 end.
Proof.
  unfold mbind, io_bind. destruct (outcome m); [done|].
  cbn [emitted]. by rewrite app_nil_r.
Qed.



End ShuffleFacts.

(** ** Start-up of the two spokes *)

Module PrepFacts.
Import Effects.

Module S := XhatShuffleInnerBound.
Module F := XhatSpecificInnerBound.

(** Run the binds whose first computation is known. *)
Ltac run :=
  repeat progress
    (rewrite ?ShuffleFacts.outcome_bind, ?ShuffleFacts.emitted_bind;
     cbn [lift raise quit emit when outcome emitted app mret io_ret]).

Lemma lookup_key_Some (d : gmap string PyVal.t) (k : string) (v : PyVal.t) :
  d !! k = Some v -> PyVal.lookup_key d k = Py.Ok v.
Proof. unfold PyVal.lookup_key. by intros ->. Qed.

Lemma shuffle_main_stops sample (answers : list tick) (self : S.t) (e : Py.exn) :
  is_Some (Opt.options (S.opt self) !! "verbose"%string) ->
  outcome (S.xhatbase_prep self) = Py.Raise e ->
  outcome (S.main sample answers self) = Py.Raise e /\
  emitted (S.main sample answers self) = emitted (S.xhatbase_prep self).
Proof.
  intros [v Hv] Hprep. unfold S.main, PyVal.lookup_key. rewrite Hv.
  rewrite !ShuffleFacts.outcome_bind, !ShuffleFacts.emitted_bind.
  cbn [lift outcome emitted app].
  rewrite Hprep. split; [done|]. by rewrite app_nil_r.
Qed.

(** The sampling spoke refuses a bad configuration before anything else
    happens. *)
Lemma shuffle_prep_refuses (self : S.t) :
  is_Some (Opt.options (S.opt self) !! "verbose"%string) ->
  Opt.multistage (S.opt self) = true \/
  Opt.has_bundles (S.opt self) = true \/
  Opt.isinstance_XhatTryer (S.opt self) = false ->
  exists msg,
    outcome (S.xhatbase_prep self) = Py.Raise (Py.RuntimeError msg) /\
    emitted (S.xhatbase_prep self) = [].
Proof.
  intros [v Hv] Hbad. unfold S.xhatbase_prep. cbv zeta.
  destruct (Opt.multistage (S.opt self)); [by eexists|].
  rewrite (lookup_key_Some _ _ _ Hv).
  rewrite ShuffleFacts.outcome_bind, ShuffleFacts.emitted_bind.
  cbn [lift outcome emitted app].
  destruct (Opt.has_bundles (S.opt self)); [by eexists|].
  destruct (Opt.isinstance_XhatTryer (S.opt self)); [|by eexists].
  naive_solver.
Qed.

Lemma specific_prep_refuses (self : F.t) :
  Opt.has_bundles (F.opt self) = true \/
  Opt.isinstance_Xhat_Eval (F.opt self) = false ->
  exists msg,
    outcome (F.ib_prep self) = Py.Raise (Py.RuntimeError msg) /\
    emitted (F.ib_prep self) = [].
Proof.
  intros Hbad. unfold F.ib_prep. cbv zeta.
  destruct (Opt.has_bundles (F.opt self)); [by eexists|].
  destruct (Opt.isinstance_Xhat_Eval (F.opt self)); [|by eexists].
  naive_solver.
Qed.

(** [main] of the fixed-set spoke: what it does around [ib_prep]. *)
Lemma specific_main_cases (answers : list tick) (self : F.t) :
  (exists k, outcome (F.main answers self) = Py.Raise k /\
             emitted (F.main answers self) = []) \/
  (exists d,
     (exists v specific,
        Opt.options (F.opt self) !! "verbose"%string = Some v /\
        Opt.options (F.opt self) !! "xhat_specific_options"%string
          = Some specific /\
        PyVal.subscript specific "xhat_scenario_dict" = Py.Ok d) /\
     outcome (F.main answers self) =
       match outcome (F.ib_prep self) with
       | Py.Ok _ => outcome (F.loop answers (F.Frame self d 1))
       | Py.Raise e => Py.Raise e
       end /\
     emitted (F.main answers self) =
       emitted (F.ib_prep self) ++
       match outcome (F.ib_prep self) with
       | Py.Ok _ => emitted (F.loop answers (F.Frame self d 1))
       | Py.Raise e => []
       end).
Proof.
  unfold F.main, PyVal.lookup_key. cbv zeta.
  destruct (Opt.options (F.opt self) !! "verbose"%string) as [v|] eqn:Hv;
    run; [|left; by eexists].
  destruct (Opt.options (F.opt self) !! "xhat_specific_options"%string)
    as [sp|] eqn:Hsp; run; [|left; by eexists].
  destruct (PyVal.subscript sp "xhat_scenario_dict") as [d|k] eqn:Hd;
    run; [|left; by eexists].
  right. exists d. split; [by eauto|]. done.
Qed.

(** C6: a sampling spoke whose companion is multistage, has bundles or is
    not an [XhatTryer], and a fixed-set spoke whose companion has bundles
    or is not an [Xhat_Eval], raise [RuntimeError] in their preparation
    step; [main] ends with that exception (given the option entries it
    reads before the preparation) and never evaluates the condition of its
    loop. *)
Theorem bad_configuration_stops_spoke sample (answers : list tick)
    (shuffle : S.t) (specific : F.t) :
  (is_Some (Opt.options (S.opt shuffle) !! "verbose"%string) ->
   Opt.multistage (S.opt shuffle) = true \/
   Opt.has_bundles (S.opt shuffle) = true \/
   Opt.isinstance_XhatTryer (S.opt shuffle) = false ->
   exists msg,
     outcome (S.xhatbase_prep shuffle) = Py.Raise (Py.RuntimeError msg) /\
     outcome (S.main sample answers shuffle)
       = Py.Raise (Py.RuntimeError msg) /\
     KillPolled ∉ emitted (S.main sample answers shuffle)) /\
  (Opt.has_bundles (F.opt specific) = true \/
   Opt.isinstance_Xhat_Eval (F.opt specific) = false ->
   exists msg,
     outcome (F.ib_prep specific) = Py.Raise (Py.RuntimeError msg) /\
     (KillPolled ∉ emitted (F.main answers specific)) /\
     (forall v sp d,
        Opt.options (F.opt specific) !! "verbose"%string = Some v ->
        Opt.options (F.opt specific) !! "xhat_specific_options"%string
          = Some sp ->
        PyVal.subscript sp "xhat_scenario_dict" = Py.Ok d ->
        outcome (F.main answers specific) = Py.Raise (Py.RuntimeError msg))).
Proof.
  split.
  - intros Hv Hbad.
    destruct (shuffle_prep_refuses shuffle Hv Hbad) as (msg & Hout & Hem).
    destruct (shuffle_main_stops sample answers shuffle _ Hv Hout)
      as [Hmain Hemain].
    exists msg. split; [done|]. split; [done|].
    rewrite Hemain, Hem. apply not_elem_of_nil.
  - intros Hbad.
    destruct (specific_prep_refuses specific Hbad) as (msg & Hout & Hem).
    exists msg. split; [done|]. split.
    + destruct (specific_main_cases answers specific)
        as [(k & _ & ->)|(d & _ & _ & ->)]; [apply not_elem_of_nil|].
      rewrite Hout, Hem. apply not_elem_of_nil.
    + intros v sp d Hv Hsp Hd.
      unfold F.main, PyVal.lookup_key. cbv zeta. rewrite Hv. run.
      rewrite Hsp. run. rewrite Hd. run. by rewrite Hout.
Qed.

Lemma bad_configuration_stops_spoke_witness :
  let shuffle := Farmer.bundled_shuffle_spoke in
  let specific := Farmer.bundled_specific_spoke in
  is_Some (Opt.options Farmer.bundled_opt !! "verbose"%string) /\
  Opt.has_bundles Farmer.bundled_opt = true /\
  (exists msg,
     outcome (S.xhatbase_prep shuffle) = Py.Raise (Py.RuntimeError msg) /\
     outcome (S.main Farmer.no_shuffle [] shuffle)
       = Py.Raise (Py.RuntimeError msg) /\
     KillPolled ∉ emitted (S.main Farmer.no_shuffle [] shuffle)) /\
  (exists msg,
     outcome (F.ib_prep specific) = Py.Raise (Py.RuntimeError msg) /\
     (KillPolled ∉ emitted (F.main [] specific)) /\
     outcome (F.main [] specific) = Py.Raise (Py.RuntimeError msg)).
Proof.
  intros shuffle specific.
  assert (Hv : is_Some (Opt.options Farmer.bundled_opt !! "verbose"%string))
    by (eexists; vm_compute; reflexivity).
  assert (Hb : Opt.has_bundles Farmer.bundled_opt = true)
    by (vm_compute; reflexivity).
  destruct (bad_configuration_stops_spoke Farmer.no_shuffle [] shuffle specific)
    as [Hs Hf].
  split; [exact Hv|]. split; [exact Hb|]. split.
  - apply Hs; [exact Hv|]. right. left. exact Hb.
  - destruct Hf as (msg & Hprep & Hpoll & Hmain); [left; exact Hb|].
    exists msg. split; [exact Hprep|]. split; [exact Hpoll|].
    eapply Hmain; vm_compute; reflexivity.
Defined.

(** *** Probabilities that do not sum to one *)




End PrepFacts.

(** ** The fixed-set spoke *)

Module SpecificFacts.
Import Effects XhatSpecificInnerBound Trace.

Ltac run := PrepFacts.run.

Lemma update_if_improving_cases (candidate : option Float.t) (self : t) :
  (exists v,
     candidate = Some v /\
     (if Opt.is_minimizing (opt self)
      then Float.lt v (best_inner_bound self)
      else Float.lt (best_inner_bound self) v) = true /\
     update_if_improving candidate self
       = IO [SendBound v] (Py.Ok (true, Build (opt self) v v))) \/
  update_if_improving candidate self = IO [] (Py.Ok (false, self)).
Proof.
  unfold update_if_improving. destruct candidate as [v|]; [|by right].
  destruct (if Opt.is_minimizing (opt self) then _ else _) eqn:Himp;
    [left|by right].
  exists v. done.
Qed.

(** One pass of the loop: with a new iterate, the scenario dictionary is
    evaluated and the result goes through [update_if_improving]; without,
    only the counter moves. *)
Lemma loop_body_cases (answer : tick) (f : frame) :
  (new_nonants answer = true /\
   exists u self' es,
     update_if_improving
       (xhat_tryit answer (xhat_scenario_dict f)) (self_ f)
       = IO es (Py.Ok (u, self')) /\
     loop_body answer f
       = IO ([PutNonantCache; RestoreNonants;
              XhatTryit (xhat_scenario_dict f)] ++ es)
            (Py.Ok (Frame self' (xhat_scenario_dict f) (ib_iter f + 1)))) \/
  (new_nonants answer = false /\
   loop_body answer f
     = IO [] (Py.Ok (Frame (self_ f) (xhat_scenario_dict f) (ib_iter f + 1)))).
Proof.
  unfold loop_body. destruct (new_nonants answer); [left|by right].
  split; [done|].
  destruct (update_if_improving_cases
              (xhat_tryit answer (xhat_scenario_dict f)) (self_ f))
    as [(v & _ & _ & ->)| ->]; eexists _, _, _; split; reflexivity.
Qed.

Lemma evaluations_app (es1 es2 : list event) :
  evaluations (es1 ++ es2) = evaluations es1 ++ evaluations es2.
Proof. apply flat_map_app. Qed.

Lemma loop_evaluations (answers : list tick) (f : frame) :
  evaluations (emitted (loop answers f))
    = replicate (new_iterates answers) (xhat_scenario_dict f).
Proof.
  revert f. induction answers as [|a answers IH]; intros f; [done|].
  cbn [loop]. run. unfold new_iterates. cbn [passes].
  destruct (got_kill_signal a); [done|]. run.
  cbn [List.filter].
  destruct (loop_body_cases a f)
    as [(-> & u & self' & es & Hup & ->)|(-> & ->)];
    cbn [outcome emitted app length replicate].
  - unfold evaluations in *. cbn [flat_map app].
    rewrite flat_map_app, IH. fold (new_iterates answers).
    destruct (update_if_improving_cases
                (xhat_tryit a (xhat_scenario_dict f)) (self_ f))
      as [(v & _ & _ & Hup')|Hup']; rewrite Hup' in Hup;
      injection Hup as <- _ _; done.
  - unfold evaluations in *. cbn [flat_map app]. by rewrite IH.
Qed.

Lemma prep_evaluates_nothing (self : t) :
  evaluations (emitted (ib_prep self)) = [].
Proof.
  unfold ib_prep, PyVal.lookup_key. cbv zeta.
  destruct (Opt.has_bundles (opt self)); [done|].
  destruct (negb (Opt.isinstance_Xhat_Eval (opt self))); [done|].
  destruct (Opt.options (opt self) !! "verbose"%string); run; [|done].
  destruct (Opt.E1_off (opt self)); run; [|done].
  destruct (Opt.cylinder_rank (opt self) =? 0); run; done.
Qed.

(** C8: in a pass of the main loop that sees a new iterate the fixed-set
    spoke evaluates the scenario dictionary it read from its options and
    hands the result to [update_if_improving]; in a pass that sees none it
    evaluates nothing and reports nothing; a bound is reported only when
    the evaluation is strictly better than the best bound so far; over the
    whole loop, and over [main], there is one evaluation for each pass
    with a new iterate, all of the same dictionary. *)
Theorem fixed_set_evaluates_on_new_iterate (answers : list tick)
    (answer : tick) (f : frame) (self : t) :
  (new_nonants answer = true ->
   exists u self' es,
     update_if_improving
       (xhat_tryit answer (xhat_scenario_dict f)) (self_ f)
       = IO es (Py.Ok (u, self')) /\
     loop_body answer f
       = IO ([PutNonantCache; RestoreNonants;
              XhatTryit (xhat_scenario_dict f)] ++ es)
            (Py.Ok (Frame self' (xhat_scenario_dict f) (ib_iter f + 1)))) /\
  (new_nonants answer = false ->
   loop_body answer f
     = IO [] (Py.Ok (Frame (self_ f) (xhat_scenario_dict f) (ib_iter f + 1)))) /\
  (forall v,
     SendBound v ∈ emitted (loop_body answer f) ->
     new_nonants answer = true /\
     xhat_tryit answer (xhat_scenario_dict f) = Some v /\
     (if Opt.is_minimizing (opt (self_ f))
      then Float.lt v (best_inner_bound (self_ f))
      else Float.lt (best_inner_bound (self_ f)) v) = true) /\
  evaluations (emitted (loop answers f))
    = replicate (new_iterates answers) (xhat_scenario_dict f) /\
  (forall v sp d,
     Opt.options (opt self) !! "verbose"%string = Some v ->
     Opt.options (opt self) !! "xhat_specific_options"%string = Some sp ->
     PyVal.subscript sp "xhat_scenario_dict" = Py.Ok d ->
     outcome (ib_prep self) = Py.Ok tt ->
     evaluations (emitted (main answers self))
       = replicate (new_iterates answers) d).
Proof.
  split; [|split; [|split; [|split]]].
  - intros Hnew. by destruct (loop_body_cases answer f) as [[_ ?]|[? _]];
      [|congruence].
  - intros Hnew. by destruct (loop_body_cases answer f) as [[? _]|[_ ?]];
      [congruence|].
  - intros v.
    destruct (loop_body_cases answer f)
      as [(Hnew & u & self' & es & Hup & ->)|(_ & ->)]; cbn [emitted].
    + destruct (update_if_improving_cases
                  (xhat_tryit answer (xhat_scenario_dict f)) (self_ f))
        as [(w & Hw & Himp & Hup')|Hup']; rewrite Hup' in Hup;
        injection Hup as <- _ _; intros Hin;
        repeat (apply elem_of_cons in Hin as [Hin|Hin];
                [try discriminate Hin|]);
        try (by apply elem_of_nil in Hin).
      injection Hin as ->. done.
    + intros Hin. by apply elem_of_nil in Hin.
  - apply loop_evaluations.
  - intros v sp d Hv Hsp Hd Hprep.
    unfold main, PyVal.lookup_key. cbv zeta. rewrite Hv. run.
    rewrite Hsp. run. rewrite Hd. run. rewrite Hprep.
    by rewrite evaluations_app, prep_evaluates_nothing, loop_evaluations.
Qed.

Lemma fixed_set_evaluates_on_new_iterate_witness :
  let answers := [Farmer.fresh_iterate; Farmer.nothing_new;
                  Farmer.fresh_iterate; Farmer.killed;
                  Farmer.fresh_iterate] in
  let f := Frame Farmer.specific_spoke Farmer.root_scen0 1 in
  new_nonants Farmer.fresh_iterate = true /\
  new_nonants Farmer.nothing_new = false /\
  (exists u self' es,
     update_if_improving (Some (Float.of_Z 4)) Farmer.specific_spoke
       = IO es (Py.Ok (u, self')) /\
     loop_body Farmer.fresh_iterate f
       = IO ([PutNonantCache; RestoreNonants; XhatTryit Farmer.root_scen0]
             ++ es)
            (Py.Ok (Frame self' Farmer.root_scen0 2))) /\
  loop_body Farmer.nothing_new f
    = IO [] (Py.Ok (Frame Farmer.specific_spoke Farmer.root_scen0 2)) /\
  SendBound (Float.of_Z 4) ∈ emitted (loop_body Farmer.fresh_iterate f) /\
  Float.lt (Float.of_Z 4) Float.inf = true /\
  evaluations (emitted (loop answers f))
    = [Farmer.root_scen0; Farmer.root_scen0] /\
  outcome (ib_prep Farmer.specific_spoke) = Py.Ok tt /\
  evaluations (emitted (main answers Farmer.specific_spoke))
    = [Farmer.root_scen0; Farmer.root_scen0].
Proof.
  intros answers f.
  destruct (fixed_set_evaluates_on_new_iterate answers Farmer.fresh_iterate
              f Farmer.specific_spoke) as (Hnew & _ & Hrep & Hloop & Hmain).
  destruct (fixed_set_evaluates_on_new_iterate answers Farmer.nothing_new
              f Farmer.specific_spoke) as (_ & Hidle & _).
  assert (Hsent : SendBound (Float.of_Z 4)
                    ∈ emitted (loop_body Farmer.fresh_iterate f)).
  { vm_compute. do 3 apply list_elem_of_further. apply list_elem_of_here. }
  assert (Hprep : outcome (ib_prep Farmer.specific_spoke) = Py.Ok tt)
    by (vm_compute; reflexivity).
  split; [reflexivity|]. split; [reflexivity|].
  split; [exact (Hnew eq_refl)|]. split; [exact (Hidle eq_refl)|].
  split; [exact Hsent|].
  split; [exact (proj2 (proj2 (Hrep _ Hsent)))|].
  split; [exact Hloop|]. split; [exact Hprep|].
  eapply Hmain; [vm_compute; reflexivity..|exact Hprep].
Defined.

End SpecificFacts.

(** * Further properties *)

Module CyclerMore.
Import ScenarioCycler CyclerFacts CyclerDefs.

Lemma calls_app (os1 os2 : list op) (self : t) :
  calls (os1 ++ os2) self =
    match calls os1 self with
    | Py.Ok (rs1, s1) =>
        match calls os2 s1 with
        | Py.Ok (rs2, s2) => Py.Ok (rs1 ++ rs2, s2)
        | Py.Raise e => Py.Raise e
        end
    | Py.Raise e => Py.Raise e
    end.
Proof.
  revert self. induction os1 as [|o os1 IH]; intros self; cbn [app calls].
  - by destruct (calls os2 self) as [[??]|].
  - destruct (call o self) as [[r s1]|]; [|done]. cbn [mbind Py.res_bind fst snd].
    rewrite IH. destruct (calls os1 s1) as [[rs1 s2]|]; [|done].
    cbn [mbind Py.res_bind fst snd].
    by destruct (calls os2 s2) as [[??]|].
Qed.

Lemma handed_out_app (rs1 rs2 : list ret) :
  handed_out (rs1 ++ rs2) = handed_out rs1 ++ handed_out rs2.
Proof.
  induction rs1 as [|[[c|]| |] rs1 IH]; cbn [app handed_out]; by rewrite ?IH.
Qed.

Lemma handed_out_candidates (cs : list string) :
  handed_out (RNext ∘ Some <$> cs) = cs.
Proof. induction cs as [|c cs IH]; [done|]. cbn. by rewrite IH. Qed.

Lemma epoch_is_exhaustive_aux (self : t) :
  reachable self ->
  NoDup (_all_scenario_list self) ->
  exists self',
    calls (replicate (length (_all_scenario_list self)) GetNext)
          (begin_epoch self)
      = Py.Ok (RNext ∘ Some <$>
                 rotate (Z.to_nat (_cycle_idx self)) (_all_scenario_list self),
               self').
Proof.
  intros Hwf%reachable_wf Hnd.
  destruct (get_next_run (length (_all_scenario_list self)) (begin_epoch self))
    as (self' & Hrun); [done|done|done|attrs; set_solver|].
  attrs. rewrite firstn_all2 in Hrun by (by rewrite length_rotate).
  by exists self'.
Qed.

(** The cursor counts the [get_next()] calls. *)
Lemma cursor_after (os : list op) (self : t) :
  wf self ->
  exists rs self',
    calls os self = Py.Ok (rs, self') /\ wf self' /\
    _all_scenario_list self' = _all_scenario_list self /\
    _cycle_idx self' =
      (_cycle_idx self + Z.of_nat (get_nexts os))
        mod Z.of_nat (length (_all_scenario_list self)).
Proof.
  revert self. induction os as [|o os IH]; intros self Hwf.
  - exists [], self. split; [done|]. split; [done|]. split; [done|].
    destruct Hwf as (_ & Hi & _). cbn [get_nexts].
    rewrite Z.add_0_r, Z.mod_small; done.
  - assert (Hstep : exists r s1,
      call o self = Py.Ok (r, s1) /\ wf s1 /\
      _all_scenario_list s1 = _all_scenario_list self /\
      (_cycle_idx s1 + Z.of_nat (get_nexts os))
        mod Z.of_nat (length (_all_scenario_list self))
      = (_cycle_idx self + Z.of_nat (get_nexts (o :: os)))
        mod Z.of_nat (length (_all_scenario_list self))).
    { destruct o; cbn [call get_nexts].
      - destruct (get_next_wf self Hwf)
          as (r & s1 & -> & Hwf1 & Hl1 & Hi1 & _).
        eexists _, _. split; [reflexivity|]. split; [done|]. split; [done|].
        cbn [snd]. rewrite Hi1, Zplus_mod_idemp_l. f_equal. lia.
      - eexists _, _. split; [reflexivity|]. done.
      - eexists _, _. split; [reflexivity|]. done.
      - eexists _, _. split; [reflexivity|]. done. }
    destruct Hstep as (r & s1 & Hcall & Hwf1 & Hl1 & Hidx).
    destruct (IH s1 Hwf1) as (rs & s2 & Hcalls & Hwf2 & Hl2 & Hi2).
    exists (r :: rs), s2. cbn [calls]. rewrite Hcall.
    cbn [mbind Py.res_bind fst snd]. rewrite Hcalls.
    split; [done|]. split; [done|]. split; [congruence|].
    by rewrite Hi2, Hl1.
Qed.

(** X1: the cursor of a cycler depends on the number of [get_next()] calls
    made since construction only: it is that number modulo the size of the
    order, and [_cur_scen] is the candidate at that position. *)
Theorem cursor_counts_get_next (l : list string) (os : list op) :
  l <> [] ->
  exists self rs self',
    __init__ l = Py.Ok self /\
    calls os self = Py.Ok (rs, self') /\
    _cycle_idx self' = Z.of_nat (get_nexts os) mod Z.of_nat (length l) /\
    l !! (get_nexts os mod length l)%nat = Some (_cur_scen self').
Proof.
  intros Hl.
  destruct (init_nonempty l Hl) as (self & Hinit & Hwf & Hl0 & Hi0 & _).
  destruct (cursor_after os self Hwf) as (rs & self' & Hc & Hwf' & Hl' & Hi').
  exists self, rs, self'. split; [done|]. split; [done|].
  rewrite Hl0, Hi0, Z.add_0_l in Hi'. split; [done|].
  destruct Hwf' as (_ & _ & Hcur). rewrite Hl', Hl0, Hi' in Hcur.
  rewrite <-Hcur. f_equal.
  assert (0 < length l)%nat by (destruct l; [done|cbn; lia]).
  rewrite <-Nat2Z.inj_mod, Nat2Z.id. done.
Qed.

Lemma cursor_counts_get_next_witness :
  abc <> [] /\
  exists self rs self',
    __init__ abc = Py.Ok self /\
    calls abc_calls self = Py.Ok (rs, self') /\
    _cycle_idx self' = 2 /\
    abc !! 2%nat = Some (_cur_scen self').
Proof.
  split; [discriminate|].
  exact (cursor_counts_get_next abc abc_calls ltac:(discriminate)).
Defined.

(** Once every candidate is in the epoch's set, nothing is handed out. *)
Lemma exhausted_stays (os : list op) (self : t) :
  wf self ->
  candidates (_all_scenario_list self) ⊆ _scenarios_this_epoch self ->
  BeginEpoch ∉ os ->
  exists rs self', calls os self = Py.Ok (rs, self') /\ handed_out rs = [].
Proof.
  revert self. induction os as [|o os IH]; intros self Hwf Hall Hno.
  - by exists [], self.
  - apply not_elem_of_cons in Hno as [Ho Hno].
    assert (Hstep : exists r s1,
      call o self = Py.Ok (r, s1) /\ wf s1 /\
      candidates (_all_scenario_list s1) ⊆ _scenarios_this_epoch s1 /\
      handed_out [r] = []).
    { destruct o; cbn [call]; [| done | |].
      - destruct (get_next_wf self Hwf)
          as (r & s1 & -> & Hwf1 & Hl1 & _ & _ & [(-> & _ & Hv)|(_ & Hfresh & _)]).
        + eexists _, _. split; [reflexivity|]. cbn [fst snd].
          split; [done|]. by rewrite Hl1, Hv.
        + destruct Hfresh. apply Hall. by apply cur_scen_candidate.
      - eexists _, _. split; [reflexivity|]. split; [done|].
        split; [attrs; set_solver|done].
      - eexists _, _. split; [reflexivity|]. done. }
    destruct Hstep as (r & s1 & Hcall & Hwf1 & Hall1 & Hr).
    destruct (IH s1 Hwf1 Hall1 Hno) as (rs & s2 & Hcalls & Hrs).
    exists (r :: rs), s2. cbn [calls]. rewrite Hcall.
    cbn [mbind Py.res_bind fst snd]. rewrite Hcalls. split; [done|].
    change (r :: rs) with ([r] ++ rs). by rewrite handed_out_app, Hr, Hrs.
Qed.

(** X2: over distinct candidates, a full pass after [begin_epoch()] uses the
    epoch up: whatever calls follow the [N] calls of [get_next()], as long
    as none is [begin_epoch()], they all succeed and hand out no candidate;
    the candidates handed out in all are the order rotated to the cursor. *)
Theorem full_pass_exhausts_epoch (self : t) (os : list op) :
  reachable self ->
  NoDup (_all_scenario_list self) ->
  BeginEpoch ∉ os ->
  exists rs self',
    calls (replicate (length (_all_scenario_list self)) GetNext ++ os)
          (begin_epoch self) = Py.Ok (rs, self') /\
    handed_out rs
      = rotate (Z.to_nat (_cycle_idx self)) (_all_scenario_list self).
Proof.
  intros Hreach Hnd Hno.
  destruct (epoch_is_exhaustive_aux self Hreach Hnd) as (s1 & Hrun).
  pose proof (reachable_wf self Hreach) as Hwf.
  destruct (calls_wf (replicate (length (_all_scenario_list self)) GetNext)
              (begin_epoch self) Hwf) as (rs1 & s1' & Hrun' & Hwf1 & Hl1).
  rewrite Hrun in Hrun'. injection Hrun' as <- <-.
  assert (Hno1 : BeginEpoch ∉ replicate (length (_all_scenario_list self)) GetNext).
  { intros [? _]%elem_of_replicate. done. }
  destruct (epoch_grows _ _ _ _ Hno1 Hrun) as (_ & Hout & _).
  rewrite handed_out_candidates in Hout.
  destruct (exhausted_stays os s1 Hwf1) as (rs2 & s2 & Hcalls & Hrs2); [|done|].
  { intros x Hx. unfold candidates in Hx.
    apply elem_of_list_to_set, list_elem_of_fmap in Hx as (c & -> & Hc).
    apply Hout. rewrite Hl1 in Hc. by rewrite rotate_perm. }
  eexists (_ ++ rs2), s2. rewrite calls_app, Hrun, Hcalls. split; [done|].
  by rewrite handed_out_app, Hrs2, handed_out_candidates, app_nil_r.
Qed.

Lemma abc_NoDup : NoDup abc.
Proof. apply (bool_decide_unpack (NoDup abc)). by vm_compute. Qed.

Lemma full_pass_exhausts_epoch_witness :
  reachable abc_after_one /\
  NoDup abc /\
  (BeginEpoch ∉ [GetNext; BestRead; BestWrite "C"; GetNext]%string) /\
  exists rs self',
    calls ([GetNext; GetNext; GetNext]
           ++ [GetNext; BestRead; BestWrite "C"; GetNext]%string)
          (begin_epoch abc_after_one) = Py.Ok (rs, self') /\
    handed_out rs = ["B"; "C"; "A"]%string.
Proof.
  assert (Hno : BeginEpoch ∉ [GetNext; BestRead; BestWrite "C"; GetNext]%string).
  { intros H. repeat (apply elem_of_cons in H as [H|H]; [discriminate H|]).
    by apply elem_of_nil in H. }
  split; [exact abc_after_one_reachable|]. split; [exact abc_NoDup|].
  split; [exact Hno|].
  exact (full_pass_exhausts_epoch abc_after_one _
           abc_after_one_reachable abc_NoDup Hno).
Defined.

End CyclerMore.

Module LoopFacts.
Import Effects XhatShuffleInnerBound TraceDefs ShuffleDefs.
Import ShuffleFacts.

Ltac run :=
  repeat progress
    (rewrite ?outcome_bind, ?emitted_bind;
     cbn [lift raise quit emit when outcome emitted app mret io_ret]).

Lemma reports_app (es1 es2 : list event) :
  reports (es1 ++ es2) = reports es1 ++ reports es2.
Proof. apply flat_map_app. Qed.

Lemma tried_app (es1 es2 : list event) :
  tried (es1 ++ es2) = tried es1 ++ tried es2.
Proof. apply flat_map_app. Qed.

Lemma vb_silent (self : t) (msg : string) (values : list Float.t) :
  reports (emitted (_vb self msg values)) = [] /\
  tried (emitted (_vb self msg values)) = [].
Proof. unfold _vb, when. by destruct (_ && _). Qed.

(** What [try_scenario] evaluates and what it reports. *)
Lemma try_scenario_trace (answer : tick) (scenario : string) (self : t) :
  tried (emitted (try_scenario answer scenario self)) = [scenario] /\
  reports (emitted (try_scenario answer scenario self)) =
    match _try_one answer scenario with
    | Some obj =>
        if improves (is_minimizing self) obj (ib self) then [obj] else []
    | None => []
    end.
Proof.
  unfold try_scenario. rewrite emitted_bind. cbn [emit emitted outcome].
  rewrite tried_app, reports_app. cbn [tried reports flat_map app].
  destruct (_try_one answer scenario) as [obj|].
  - rewrite emitted_bind, outcome_vb, tried_app, reports_app.
    destruct (vb_silent self ("    Feasible " ++ scenario ++ ", obj: ") [obj])
      as [-> ->].
    unfold improves. cbn [app].
    by destruct (is_minimizing self), (Float.lt _ _).
  - rewrite emitted_bind, outcome_vb, tried_app, reports_app.
    by destruct (vb_silent self ("    Infeasible " ++ scenario) []) as [-> ->].
Qed.

(** What one pass of the loop evaluates and reports. *)
Lemma loop_body_trace (answer : tick) (f : frame) next cycler :
  ScenarioCycler.get_next (scenario_cycler f) = Py.Ok (next, cycler) ->
  tried (emitted (loop_body answer f)) =
    match next with Some c => [c] | None => [] end /\
  reports (emitted (loop_body answer f)) =
    match next with
    | Some c =>
        match _try_one answer c with
        | Some obj =>
            if improves (is_minimizing (self_ f)) obj (ib (self_ f))
            then [obj] else []
        | None => []
        end
    | None => []
    end.
Proof.
  intros Hgn. unfold loop_body.
  rewrite emitted_bind, outcome_new_nonants, tried_app, reports_app.
  assert (Hn : tried (emitted (when (new_nonants answer)
                 (emit PutNonantCache;; emit RestoreNonants))) = [] /\
               reports (emitted (when (new_nonants answer)
                 (emit PutNonantCache;; emit RestoreNonants))) = [])
    by (by destruct (new_nonants answer)).
  destruct Hn as [-> ->]. cbn [app].
  rewrite emitted_bind. cbn [lift outcome emitted app]. rewrite Hgn.
  destruct next as [c|]; [|done].
  rewrite emitted_bind, outcome_vb, tried_app, reports_app.
  destruct (vb_silent (self_ f) ("   Trying next " ++ c) []) as [-> ->].
  cbn [app]. rewrite emitted_bind, try_scenario_outcome, tried_app, reports_app.
  destruct (try_scenario_trace answer c (self_ f)) as [-> ->].
  destruct (_try_one answer c) as [obj|]; [|done].
  destruct (improves _ _ _); [|done].
  rewrite emitted_bind, outcome_vb, tried_app, reports_app.
  by destruct (vb_silent (set_ib obj (set_bound obj (self_ f)))
                 ("   Updating best to " ++ c) []) as [-> ->].
Qed.

Lemma emitted_loop_cons (a : tick) (answers : list tick) (f : frame) :
  emitted (loop (a :: answers) f) =
    KillPolled ::
    if got_kill_signal a then []
    else emitted (loop_body a f) ++
         match outcome (loop_body a f) with
         | Py.Ok f' => emitted (loop answers f')
         | Py.Raise _ => []
         end.
Proof.
  cbn [loop]. rewrite emitted_bind. cbn [emit emitted outcome app].
  destruct (got_kill_signal a); [done|]. by rewrite emitted_bind.
Qed.

(** One pass, seen from the cycler: what [get_next()] gave, the frame the
    pass leaves and what the pass evaluated and reported. *)
Lemma pass_summary (answer : tick) (f : frame) :
  ScenarioCycler.wf (scenario_cycler f) ->
  exists next cycler f',
    ScenarioCycler.get_next (scenario_cycler f) = Py.Ok (next, cycler) /\
    ScenarioCycler.wf cycler /\
    outcome (loop_body answer f) = Py.Ok f' /\
    is_minimizing (self_ f') = is_minimizing (self_ f) /\
    tried (emitted (loop_body answer f)) =
      match next with Some c => [c] | None => [] end /\
    (scenario_cycler f' = cycler \/
     (exists c, next = Some c /\
                scenario_cycler f' = ScenarioCycler.set_best c cycler) \/
     (next = None /\ scenario_cycler f' = ScenarioCycler.begin_epoch cycler)) /\
    ((reports (emitted (loop_body answer f)) = [] /\ self_ f' = self_ f) \/
     (exists obj,
        reports (emitted (loop_body answer f)) = [obj] /\
        improves (is_minimizing (self_ f)) obj (ib (self_ f)) = true /\
        ib (self_ f') = obj /\ bound (self_ f') = obj)).
Proof.
  intros Hwf.
  destruct (loop_body_outcome answer f Hwf) as (next & cyc & Hgn & Hwf' & Hout).
  destruct (loop_body_trace answer f next cyc Hgn) as [Htried Hrep].
  exists next, cyc. eexists. split; [done|]. split; [done|].
  split; [exact Hout|]. rewrite Htried, Hrep.
  destruct next as [c|].
  - destruct (_try_one answer c) as [obj|].
    + destruct (improves _ _ _) eqn:Himp.
      * split; [done|]. split; [done|]. split.
        -- right. left. by exists c.
        -- right. by exists obj.
      * split; [done|]. split; [done|]. split; [by left|by left].
    + split; [done|]. split; [done|]. split; [by left|by left].
  - split; [done|]. split; [done|]. split; [|by left].
    right. right. done.
Qed.

Lemma last_cons_default {A} (l : list A) (x d : A) :
  List.last (x :: l) d = List.last l x.
Proof.
  revert x d. induction l as [|y l IH]; intros x d; [done|].
  change (List.last (x :: y :: l) d) with (List.last (y :: l) d).
  by rewrite !IH.
Qed.

(** X3: the bounds the sampling spoke hands to the hub during its loop are
    strictly improving: each is strictly better, in the sense of the run,
    than the one before it, and the first than the bound the loop started
    from; the loop ends with [ib] equal to the last bound handed over, or to
    the starting one when none was. *)
Theorem reported_bounds_improve (answers : list tick) (f : frame) :
  ScenarioCycler.reachable (scenario_cycler f) ->
  exists e,
    outcome (loop answers f) = Py.Ok e /\
    improving (is_minimizing (self_ f)) (ib (self_ f))
              (reports (emitted (loop answers f))) /\
    ib (self_ (final e))
      = List.last (reports (emitted (loop answers f))) (ib (self_ f)).
Proof.
  intros Hwf%CyclerFacts.reachable_wf. revert f Hwf.
  induction answers as [|a answers IH]; intros f Hwf.
  - by eexists.
  - rewrite loop_cons, emitted_loop_cons.
    destruct (got_kill_signal a); [by eexists|].
    destruct (pass_summary a f Hwf)
      as (next & cyc & f1 & _ & Hwf1 & Hout & Hsense & _ & Hcyc & Hrep).
    rewrite Hout.
    assert (Hwf1' : ScenarioCycler.wf (scenario_cycler f1)).
    { destruct Hcyc as [->|[(c & _ & ->)|(_ & ->)]]; done. }
    destruct (IH f1 Hwf1') as (e & He & Hchain & Hlast).
    exists e. split; [done|].
    change (KillPolled :: ?es) with ([KillPolled] ++ es).
    rewrite !reports_app. cbn [reports flat_map app].
    fold (reports (emitted (loop_body a f))).
    fold (reports (emitted (loop answers f1))).
    rewrite Hsense in Hchain.
    destruct Hrep as [[-> Hsame]|(obj & -> & Himp & Hib & _)]; cbn [app].
    + by rewrite Hsame in Hchain, Hlast.
    + rewrite Hib in Hchain, Hlast. split; [by cbn [improving]|].
      by rewrite Hlast, last_cons_default.
Qed.

Lemma reported_bounds_improve_witness :
  ScenarioCycler.reachable (scenario_cycler AbcRun.start) /\
  exists e,
    outcome (loop AbcRun.passes AbcRun.start) = Py.Ok e /\
    reports (emitted (loop AbcRun.passes AbcRun.start))
      = [Float.of_Z 10; Float.of_Z 7] /\
    improving true Float.inf [Float.of_Z 10; Float.of_Z 7] /\
    ib (self_ (final e)) = Float.of_Z 7.
Proof.
  split; [exact CyclerFacts.abc_fresh_reachable|].
  destruct (reported_bounds_improve AbcRun.passes AbcRun.start
              CyclerFacts.abc_fresh_reachable) as (e & He & Himp & Hlast).
  assert (Hrep : reports (emitted (loop AbcRun.passes AbcRun.start))
                 = [Float.of_Z 10; Float.of_Z 7]) by (vm_compute; reflexivity).
  rewrite Hrep in Himp, Hlast.
  exists e. split; [exact He|]. split; [exact Hrep|].
  split; [exact Himp|exact Hlast].
Defined.

(** *** The cycler inside the loop *)

(** A pass of the loop keeps the cycler tidy and keeps [None] out of the
    epoch's set: the loop writes [best] and never reads it. *)
Lemma pass_keeps_tidy (l : list string) (answer : tick) (f : frame) :
  ScenarioCycler.tidy l (scenario_cycler f) ->
  None ∉ ScenarioCycler._scenarios_this_epoch (scenario_cycler f) ->
  exists f',
    outcome (loop_body answer f) = Py.Ok f' /\
    ScenarioCycler.tidy l (scenario_cycler f') /\
    None ∉ ScenarioCycler._scenarios_this_epoch (scenario_cycler f').
Proof.
  intros (Hwf & Hl & Hvis & Hbest) Hnone.
  pose proof (CyclerFacts.cur_scen_candidate _ Hwf) as Hcur. rewrite Hl in Hcur.
  assert (Hcurl : ScenarioCycler._cur_scen (scenario_cycler f) ∈ l).
  { destruct Hwf as (_ & _ & Hc). rewrite <-Hl. by eapply list_elem_of_lookup_2. }
  destruct (pass_summary answer f Hwf)
    as (next & cyc & f1 & Hgn & _ & Hout & _ & _ & Hcyc & _).
  destruct (CyclerFacts.get_next_wf _ Hwf)
    as (next' & cyc' & Hgn' & Hwf1 & Hl1 & _ & Hb1 & Hcase).
  rewrite Hgn in Hgn'. injection Hgn' as <- <-.
  exists f1. split; [done|].
  assert (Hv1 : ScenarioCycler._scenarios_this_epoch cyc
                  ⊆ {[ None ]} ∪ ScenarioCycler.candidates l /\
                None ∉ ScenarioCycler._scenarios_this_epoch cyc).
  { destruct Hcase as [(_ & _ & ->)|(_ & _ & ->)]; [done|]. set_solver. }
  destruct Hv1 as [Hv1 Hnone1].
  destruct Hcyc as [->|[(c & Hc & ->)|(_ & ->)]].
  - split; [|done]. split; [done|]. split; [congruence|].
    split; [done|]. by rewrite Hb1.
  - split; [|done]. split; [exact Hwf1|]. split; [exact (eq_trans Hl1 Hl)|].
    split; [done|].
    CyclerFacts.attrs. intros v [= <-].
    destruct Hcase as [(-> & _)|(-> & _)]; [done|]. by injection Hc as <-.
  - split; [|CyclerFacts.attrs; set_solver]. split; [exact Hwf1|].
    split; [exact (eq_trans Hl1 Hl)|]. split; [CyclerFacts.attrs; set_solver|].
    CyclerFacts.attrs. by rewrite Hb1.
Qed.

(** X4: in the main loop of the sampling spoke the cycler never holds more
    than the candidates of its order: since the loop writes [best] but never
    reads it, the epoch's set stays within the candidates (so its size is at
    most that of the order), the cursor stays inside the order and the
    pinned best, once there is one, is a candidate; the loop itself never
    raises. *)
Theorem loop_keeps_cycler_within_order (l : list string) (self : t) (n0 : Z)
    (answers : list tick) :
  l <> [] ->
  exists cycler e,
    ScenarioCycler.__init__ l = Py.Ok cycler /\
    outcome (loop answers (Frame self cycler n0)) = Py.Ok e /\
    (ScenarioCycler._scenarios_this_epoch (scenario_cycler (final e))
       ⊆ ScenarioCycler.candidates l) /\
    (size (ScenarioCycler._scenarios_this_epoch (scenario_cycler (final e)))
       <= length l)%nat /\
    0 <= ScenarioCycler._cycle_idx (scenario_cycler (final e))
      < Z.of_nat (length l) /\
    (forall v, ScenarioCycler._best (scenario_cycler (final e)) = Some v ->
               v ∈ l).
Proof.
  intros Hl.
  destruct (CyclerFacts.init_nonempty l Hl)
    as (cyc & Hinit & Hwf & Hl0 & _ & Hv0 & Hb0).
  exists cyc.
  assert (Hgen : forall f,
    ScenarioCycler.tidy l (scenario_cycler f) ->
    None ∉ ScenarioCycler._scenarios_this_epoch (scenario_cycler f) ->
    exists e, outcome (loop answers f) = Py.Ok e /\
      ScenarioCycler.tidy l (scenario_cycler (final e)) /\
      None ∉ ScenarioCycler._scenarios_this_epoch (scenario_cycler (final e))).
  { induction answers as [|a answers IH]; intros f Ht Hn.
    - by exists (Still_running f).
    - rewrite loop_cons. destruct (got_kill_signal a).
      + by exists (Left_loop f).
      + destruct (pass_keeps_tidy l a f Ht Hn) as (f1 & -> & Ht1 & Hn1).
        by apply IH. }
  destruct (Hgen (Frame self cyc n0)) as (e & He & Ht & Hn).
  { split; [done|]. split; [done|]. cbn [scenario_cycler].
    rewrite Hv0, Hb0. split; [set_solver|done]. }
  { cbn [scenario_cycler]. rewrite Hv0. set_solver. }
  exists e. split; [done|]. split; [done|].
  destruct Ht as ((_ & Hi & _) & Hlist & Hvis & Hbest).
  assert (Hsub : ScenarioCycler._scenarios_this_epoch (scenario_cycler (final e))
                   ⊆ ScenarioCycler.candidates l) by set_solver.
  split; [done|]. split.
  { etrans; [apply subseteq_size, Hsub|]. unfold ScenarioCycler.candidates.
    etrans; [apply CyclerFacts.size_list_to_set_le|]. by rewrite length_fmap. }
  split; [by rewrite Hlist in Hi|done].
Qed.

Lemma loop_keeps_cycler_within_order_witness :
  ScenarioCycler.abc <> [] /\
  exists cycler e,
    ScenarioCycler.__init__ ScenarioCycler.abc = Py.Ok cycler /\
    outcome (loop AbcRun.passes (Frame Farmer.shuffle_spoke cycler 1))
      = Py.Ok e /\
    (ScenarioCycler._scenarios_this_epoch (scenario_cycler (final e))
       ⊆ ScenarioCycler.candidates ScenarioCycler.abc) /\
    (size (ScenarioCycler._scenarios_this_epoch (scenario_cycler (final e)))
       <= 3)%nat /\
    0 <= ScenarioCycler._cycle_idx (scenario_cycler (final e)) < 3 /\
    (forall v, ScenarioCycler._best (scenario_cycler (final e)) = Some v ->
               v ∈ ScenarioCycler.abc).
Proof.
  split; [discriminate|].
  exact (loop_keeps_cycler_within_order ScenarioCycler.abc Farmer.shuffle_spoke
           1 AbcRun.passes ltac:(discriminate)).
Defined.

(** *** The first epoch *)

Lemma take_rotate_step (l : list string) (c : Z) (k : nat) (cur : string) :
  0 <= c < Z.of_nat (length l) -> (S k <= length l)%nat ->
  l !! Z.to_nat c = Some cur ->
  take (S k) (rotate (Z.to_nat c) l)
    = cur :: take k (rotate (Z.to_nat ((c + 1) mod Z.of_nat (length l))) l).
Proof.
  intros Hc Hk Hcur.
  assert (Hhead : rotate (Z.to_nat c) l !! 0%nat = Some cur).
  { rewrite lookup_rotate_r by lia. by rewrite rotate_nat_add_0 by lia. }
  destruct (rotate (Z.to_nat c) l) as [|x r] eqn:Hr; [done|].
  injection Hhead as ->. cbn [take]. f_equal.
  apply list_eq. intros i. destruct (decide (i < k)%nat) as [Hik|Hik].
  - rewrite !lookup_take_lt by done.
    rewrite CyclerFacts.rotate_next by lia. by rewrite Hr.
  - by rewrite !lookup_take_ge by lia.
Qed.

(** As long as the next [k] candidates are new to the epoch, [k] passes of
    the loop try them, in order. *)
Lemma loop_run (k : nat) :
  forall (answers : list tick) (f : frame),
    length answers = k ->
    Forall (fun a => got_kill_signal a = false) answers ->
    ScenarioCycler.wf (scenario_cycler f) ->
    NoDup (ScenarioCycler._all_scenario_list (scenario_cycler f)) ->
    (k <= length (ScenarioCycler._all_scenario_list (scenario_cycler f)))%nat ->
    (forall i c, (i < k)%nat ->
       rotate (Z.to_nat (ScenarioCycler._cycle_idx (scenario_cycler f)))
              (ScenarioCycler._all_scenario_list (scenario_cycler f)) !! i
         = Some c ->
       Some c ∉ ScenarioCycler._scenarios_this_epoch (scenario_cycler f)) ->
    exists f',
      outcome (loop answers f) = Py.Ok (Still_running f') /\
      tried (emitted (loop answers f))
        = take k (rotate
                    (Z.to_nat (ScenarioCycler._cycle_idx (scenario_cycler f)))
                    (ScenarioCycler._all_scenario_list (scenario_cycler f))) /\
      ScenarioCycler.wf (scenario_cycler f') /\
      ScenarioCycler._all_scenario_list (scenario_cycler f')
        = ScenarioCycler._all_scenario_list (scenario_cycler f) /\
      ScenarioCycler._cycle_idx (scenario_cycler f')
        = (ScenarioCycler._cycle_idx (scenario_cycler f) + Z.of_nat k)
            mod Z.of_nat
                  (length (ScenarioCycler._all_scenario_list (scenario_cycler f))) /\
      ScenarioCycler._scenarios_this_epoch (scenario_cycler f')
        = list_to_set
            (Some <$> take k
               (rotate (Z.to_nat (ScenarioCycler._cycle_idx (scenario_cycler f)))
                       (ScenarioCycler._all_scenario_list (scenario_cycler f))))
          ∪ ScenarioCycler._scenarios_this_epoch (scenario_cycler f).
Proof.
  induction k as [|k IH]; intros answers f Hlen Hnk Hwf Hnd Hk Hfresh.
  - destruct answers; [|done]. exists f. split; [done|]. split; [done|].
    split; [done|]. split; [done|].
    pose proof Hwf as (_ & Hi & _). split.
    + by rewrite Z.add_0_r, Z.mod_small.
    + rewrite take_0, fmap_nil, list_to_set_nil. set_solver.
  - destruct answers as [|a answers]; [done|].
    injection Hlen as Hlen. apply Forall_cons in Hnk as [Ha Hnk].
    pose proof (CyclerFacts.rotate_head _ Hwf) as Hhead.
    pose proof Hwf as (_ & Hi & Hcur).
    set (cyc0 := scenario_cycler f) in *.
    set (l := ScenarioCycler._all_scenario_list cyc0) in *.
    destruct (loop_body_outcome a f Hwf) as (next & cyc & Hgn & Hwf1 & Hout).
    destruct (loop_body_trace a f next cyc Hgn) as [Htried _].
    destruct (CyclerFacts.get_next_wf _ Hwf)
      as (next' & cyc' & Hgn' & _ & Hl1 & Hi1 & _ & Hcase).
    fold cyc0 in Hgn, Hgn', Hl1, Hi1, Hcase. fold l in Hl1, Hi1.
    rewrite Hgn in Hgn'. injection Hgn' as <- <-.
    destruct Hcase as [(_ & Hin & _)|(-> & _ & Hv1)].
    { exfalso.
      by apply (Hfresh 0%nat (ScenarioCycler._cur_scen cyc0)); [lia| |]. }
    set (cur := ScenarioCycler._cur_scen cyc0) in *.
    assert (Hf1 : exists f1,
      outcome (loop_body a f) = Py.Ok f1 /\
      ScenarioCycler.wf (scenario_cycler f1) /\
      ScenarioCycler._all_scenario_list (scenario_cycler f1) = l /\
      ScenarioCycler._cycle_idx (scenario_cycler f1)
        = (ScenarioCycler._cycle_idx cyc0 + 1) mod Z.of_nat (length l) /\
      ScenarioCycler._scenarios_this_epoch (scenario_cycler f1)
        = {[ Some cur ]} ∪ ScenarioCycler._scenarios_this_epoch cyc0).
    { rewrite Hout. destruct (_try_one a cur) as [obj|];
        [destruct (improves _ _ _)|]; eexists; (split; [reflexivity|]); done. }
    destruct Hf1 as (f1 & Hout1 & Hwff1 & Hlf1 & Hif1 & Hvf1).
    pose proof (take_rotate_step l _ k cur Hi Hk Hcur) as Hstep.
    destruct (IH answers f1) as (f2 & Hrun & Htr & Hwf2 & Hl2 & Hi2 & Hv2).
    + done.
    + done.
    + done.
    + by rewrite Hlf1.
    + rewrite Hlf1. lia.
    + rewrite Hlf1, Hif1, Hvf1. intros i c Hik Hc.
      rewrite CyclerFacts.rotate_next in Hc by lia.
      apply not_elem_of_union. split.
      * rewrite elem_of_singleton. intros [= ->].
        assert (Hndr : NoDup (rotate (Z.to_nat (ScenarioCycler._cycle_idx cyc0)) l))
          by (by rewrite CyclerFacts.rotate_perm).
        pose proof (NoDup_lookup _ _ _ _ Hndr Hhead Hc). lia.
      * apply (Hfresh (S i)); [lia|done].
    + exists f2. rewrite loop_cons, emitted_loop_cons, Ha, Hout1.
      split; [done|].
      change (KillPolled :: ?es) with ([KillPolled] ++ es).
      rewrite !tried_app, Htried, Htr, Hlf1, Hif1, Hstep.
      split; [done|]. split; [done|].
      split; [congruence|]. split.
      * rewrite Hi2, Hlf1, Hif1, Zplus_mod_idemp_l. f_equal. lia.
      * rewrite Hv2, Hlf1, Hif1, Hvf1. cbn [fmap list_fmap].
        rewrite list_to_set_cons. set_solver.
Qed.

(** A loop that is still running goes on with the answers that follow. *)
Lemma loop_app (xs ys : list tick) (f f' : frame) :
  outcome (loop xs f) = Py.Ok (Still_running f') ->
  outcome (loop (xs ++ ys) f) = outcome (loop ys f') /\
  emitted (loop (xs ++ ys) f) = emitted (loop xs f) ++ emitted (loop ys f').
Proof.
  revert f. induction xs as [|a xs IH]; intros f.
  - by intros [= ->].
  - cbn [app]. rewrite !loop_cons, !emitted_loop_cons.
    destruct (got_kill_signal a); [done|].
    destruct (outcome (loop_body a f)) as [f1|]; [|done].
    intros [-> ->]%IH. split; [done|]. cbn [app]. by rewrite <-app_assoc.
Qed.

(** The first epoch, seen from the loop: over [N] distinct candidates the
    first [N + 1] passes (no kill signal arriving) hand each candidate to
    the evaluator once, in the order of the cycler, and the last of them
    evaluates nothing and starts the next epoch. *)
Lemma first_epoch_loop (l : list string) (self : t) (n0 : Z)
    (answers : list tick) :
  l <> [] -> NoDup l ->
  length answers = S (length l) ->
  Forall (fun a => got_kill_signal a = false) answers ->
  exists cycler f',
    ScenarioCycler.__init__ l = Py.Ok cycler /\
    outcome (loop answers (Frame self cycler n0)) = Py.Ok (Still_running f') /\
    tried (emitted (loop answers (Frame self cycler n0))) = l /\
    tried (emitted (loop (take (length l) answers) (Frame self cycler n0))) = l /\
    ScenarioCycler._scenarios_this_epoch (scenario_cycler f') = ∅.
Proof.
  intros Hl Hnd Hlen Hnk.
  destruct (CyclerFacts.init_nonempty l Hl)
    as (cyc & Hinit & Hwf & Hl0 & Hi0 & Hv0 & _).
  exists cyc.
  assert (Hsplit : exists a, answers = take (length l) answers ++ [a]).
  { pose proof (take_drop (length l) answers) as Htd.
    destruct (drop (length l) answers) as [|a [|??]] eqn:Hdrop;
      apply (f_equal length) in Hdrop; rewrite length_drop in Hdrop;
      cbn in Hdrop; [lia| |lia]. by exists a. }
  destruct Hsplit as [a Hsplit].
  assert (Hlen1 : length (take (length l) answers) = length l)
    by (rewrite length_take; lia).
  remember (take (length l) answers) as xs eqn:Hxs.
  rewrite Hsplit in Hnk |- *. clear Hsplit Hxs Hlen answers.
  destruct (proj1 (Forall_app _ _ _) Hnk) as [Hnk1 Hnk2].
  apply Forall_inv in Hnk2.
  destruct (loop_run (length l) xs (Frame self cyc n0))
    as (f1 & Hrun & Htr & Hwf1 & Hl1 & Hi1 & Hv1); cbn [scenario_cycler].
  { done. }
  { done. }
  { done. }
  { by rewrite Hl0. }
  { by rewrite Hl0. }
  { rewrite Hv0. set_solver. }
  cbn [scenario_cycler] in *.
  rewrite Hl0 in Htr, Hl1, Hi1, Hv1. rewrite Hi0 in Htr, Hi1, Hv1.
  rewrite Hv0 in Hv1.
  assert (Hrot : take (length l) (rotate (Z.to_nat 0) l) = l).
  { rewrite firstn_all2 by (by rewrite length_rotate).
    change (Z.to_nat 0) with 0%nat. unfold rotate.
    rewrite Nat.Div0.mod_0_l. by rewrite drop_0, take_0, app_nil_r. }
  rewrite Hrot in Htr, Hv1.
  destruct (loop_app _ [a] _ _ Hrun) as [Hout Hem].
  (* the pass after the last candidate *)
  destruct (loop_body_outcome a f1 Hwf1) as (next & cyc2 & Hgn & _ & Hbody).
  destruct (loop_body_trace a f1 next cyc2 Hgn) as [Htried2 _].
  destruct (CyclerFacts.get_next_wf _ Hwf1)
    as (next' & cyc2' & Hgn' & _ & _ & _ & _ & Hcase).
  rewrite Hgn in Hgn'. injection Hgn' as <- <-.
  destruct Hcase as [(-> & _ & _)|(_ & Hfresh & _)].
  - eexists. split; [exact Hinit|].
    rewrite Hout, Hem, loop_cons, emitted_loop_cons, Hnk2, Hbody.
    cbn [loop mret io_ret outcome emitted].
    split; [reflexivity|]. split; [|split; [exact Htr|reflexivity]].
    rewrite tried_app, Htr.
    change (KillPolled :: ?es) with ([KillPolled] ++ es).
    rewrite !tried_app, Htried2. cbn [tried flat_map app]. by rewrite app_nil_r.
  - destruct Hfresh. rewrite Hv1. apply elem_of_union_l, elem_of_list_to_set.
    apply list_elem_of_fmap. eexists. split; [done|].
    destruct Hwf1 as (_ & _ & Hcur). rewrite Hl1 in Hcur.
    by eapply list_elem_of_lookup_2.
Qed.

End LoopFacts.

Module PrepMore.
Import Effects.
Import PrepFacts.

Ltac run := PrepFacts.run.

(** What has happened when [xhatbase_prep] has returned normally. *)
Lemma xhatbase_prep_ok (self self' : S.t) :
  outcome (S.xhatbase_prep self) = Py.Ok self' ->
  Opt.multistage (S.opt self) = false /\
  Opt.has_bundles (S.opt self) = false /\
  Opt.isinstance_XhatTryer (S.opt self) = true /\
  Opt.E1_off (S.opt self) = false /\
  Float.ne (Opt.feas_prob (S.opt self)) (Opt.E1 (S.opt self)) = false /\
  exists v looper so,
    Opt.options (S.opt self) !! "verbose"%string = Some v /\
    Opt.options (S.opt self) !! "xhat_looper_options"%string = Some looper /\
    PyVal.subscript looper "xhat_solver_options" = Py.Ok so /\
    self' = S.Build (S.opt self) (S.rank_global self) (S.bound self)
                    (S.ib self) v so (Opt.is_minimizing (S.opt self)) 42 /\
    emitted (S.xhatbase_prep self) = [].
Proof.
  unfold S.xhatbase_prep, PyVal.lookup_key. cbv zeta.
  destruct (Opt.multistage (S.opt self)); [done|].
  destruct (Opt.options (S.opt self) !! "verbose"%string) as [v|] eqn:Hv; run;
    [|done].
  destruct (Opt.has_bundles (S.opt self)); [done|].
  destruct (Opt.isinstance_XhatTryer (S.opt self)); cbn [negb]; [|done].
  run.
  destruct (Opt.E1_off (S.opt self)); run.
  { destruct (S.rank_global self =? Opt.rank0 (S.opt self)); run; done. }
  destruct (Float.ne _ _); run.
  { destruct (S.rank_global self =? Opt.rank0 (S.opt self)); run; done. }
  destruct (Opt.options (S.opt self) !! "xhat_looper_options"%string)
    as [looper|] eqn:Hlo; run; [|done].
  destruct (PyVal.subscript looper "xhat_solver_options") as [so|k] eqn:Hso;
    run; [|done].
  intros [= <-]. repeat (split; [done|]). by exists v, looper, so.
Qed.

(** X5: [xhatbase_prep] returns normally exactly when the companion is
    two-stage, unbundled and an [XhatTryer], the total probability is within
    tolerance and equal to the feasible probability, and the options hold
    ["verbose"] and ["xhat_looper_options"]["xhat_solver_options"]; it then
    has emitted nothing and has set [verbose], [solver_options],
    [is_minimizing] and [random_seed = 42], leaving the other attributes. *)
Theorem xhatbase_prep_succeeds_iff (self self' : S.t) :
  outcome (S.xhatbase_prep self) = Py.Ok self' <->
  Opt.multistage (S.opt self) = false /\
  Opt.has_bundles (S.opt self) = false /\
  Opt.isinstance_XhatTryer (S.opt self) = true /\
  Opt.E1_off (S.opt self) = false /\
  Float.ne (Opt.feas_prob (S.opt self)) (Opt.E1 (S.opt self)) = false /\
  exists v looper so,
    Opt.options (S.opt self) !! "verbose"%string = Some v /\
    Opt.options (S.opt self) !! "xhat_looper_options"%string = Some looper /\
    PyVal.subscript looper "xhat_solver_options" = Py.Ok so /\
    self' = S.Build (S.opt self) (S.rank_global self) (S.bound self)
                    (S.ib self) v so (Opt.is_minimizing (S.opt self)) 42 /\
    emitted (S.xhatbase_prep self) = [].
Proof.
  split; [apply xhatbase_prep_ok|].
  intros (Hms & Hb & Hi & Hoff & Hne & v & lo & so & Hv & Hlo & Hso & -> & _).
  unfold S.xhatbase_prep. cbv zeta.
  rewrite Hms, (lookup_key_Some _ _ _ Hv). run.
  rewrite Hb, Hi. cbn [negb]. run.
  rewrite Hoff. run. rewrite Hne. run.
  rewrite (lookup_key_Some _ _ _ Hlo). run.
  rewrite Hso. by run.
Qed.

Lemma xhatbase_prep_succeeds_iff_witness :
  outcome (S.xhatbase_prep FarmerVariants.unprepared_shuffle_spoke)
    = Py.Ok Farmer.shuffle_spoke /\
  Opt.E1_off Farmer.opt = false /\
  Float.ne (Opt.feas_prob Farmer.opt) (Opt.E1 Farmer.opt) = false /\
  emitted (S.xhatbase_prep FarmerVariants.unprepared_shuffle_spoke) = [].
Proof.
  assert (Hok : outcome (S.xhatbase_prep FarmerVariants.unprepared_shuffle_spoke)
                = Py.Ok Farmer.shuffle_spoke) by (vm_compute; reflexivity).
  destruct (proj1 (xhatbase_prep_succeeds_iff
                     FarmerVariants.unprepared_shuffle_spoke
                     Farmer.shuffle_spoke) Hok)
    as (_ & _ & _ & Hoff & Hne & _ & _ & _ & _ & _ & _ & _ & Hem).
  split; [exact Hok|]. split; [exact Hoff|]. split; [exact Hne|exact Hem].
Defined.

(** X6: when the total probability is within tolerance but differs from the
    feasible probability, the sampling spoke quits in its preparation step:
    [main] ends with [SystemExit] without polling the kill signal, and the
    two lines "ERROR" and "Infeasibility detected" (with both
    probabilities) are printed by the rank-0 process only. *)
Theorem infeasibility_quits sample (answers : list tick) (self : S.t) :
  is_Some (Opt.options (S.opt self) !! "verbose"%string) ->
  Opt.multistage (S.opt self) = false ->
  Opt.has_bundles (S.opt self) = false ->
  Opt.isinstance_XhatTryer (S.opt self) = true ->
  Opt.E1_off (S.opt self) = false ->
  Float.ne (Opt.feas_prob (S.opt self)) (Opt.E1 (S.opt self)) = true ->
  outcome (S.main sample answers self) = Py.Raise Py.SystemExit /\
  emitted (S.main sample answers self) =
    if S.rank_global self =? Opt.rank0 (S.opt self)
    then [Print "ERROR" [];
          Print "Infeasibility detected; E_feas, E1="
                [Opt.feas_prob (S.opt self); Opt.E1 (S.opt self)]]
    else [].
Proof.
  intros Hv Hms Hb Hi Hoff Hne.
  assert (Hprep :
    outcome (S.xhatbase_prep self) = Py.Raise Py.SystemExit /\
    emitted (S.xhatbase_prep self) =
      if S.rank_global self =? Opt.rank0 (S.opt self)
      then [Print "ERROR" [];
            Print "Infeasibility detected; E_feas, E1="
                  [Opt.feas_prob (S.opt self); Opt.E1 (S.opt self)]]
      else []).
  { destruct Hv as [v Hv]. unfold S.xhatbase_prep. cbv zeta.
    rewrite Hms, (lookup_key_Some _ _ _ Hv). run.
    rewrite Hb, Hi. cbn [negb]. run. rewrite Hoff. run. rewrite Hne. run.
    destruct (S.rank_global self =? Opt.rank0 (S.opt self)); run; done. }
  destruct Hprep as [Hout Hem].
  by destruct (shuffle_main_stops sample answers self _ Hv Hout) as [-> ->].
Qed.

Lemma infeasibility_quits_witness :
  let spoke := FarmerVariants.infeasible_shuffle_spoke in
  is_Some (Opt.options (S.opt (spoke 0)) !! "verbose"%string) /\
  Opt.E1_off (S.opt (spoke 0)) = false /\
  Float.ne (Opt.feas_prob (S.opt (spoke 0))) (Opt.E1 (S.opt (spoke 0))) = true /\
  outcome (S.main Farmer.no_shuffle [Farmer.nothing_new] (spoke 0))
    = Py.Raise Py.SystemExit /\
  emitted (S.main Farmer.no_shuffle [Farmer.nothing_new] (spoke 0))
    = [Print "ERROR" [];
       Print "Infeasibility detected; E_feas, E1="
             [Farmer.half; Float.of_Z 1]] /\
  outcome (S.main Farmer.no_shuffle [Farmer.nothing_new] (spoke 1))
    = Py.Raise Py.SystemExit /\
  emitted (S.main Farmer.no_shuffle [Farmer.nothing_new] (spoke 1)) = [].
Proof.
  intros spoke.
  assert (Hv : forall r, is_Some (Opt.options (S.opt (spoke r)) !! "verbose"%string))
    by (intros r; eexists; vm_compute; reflexivity).
  destruct (infeasibility_quits Farmer.no_shuffle [Farmer.nothing_new]
              (spoke 0) (Hv 0) eq_refl eq_refl eq_refl eq_refl eq_refl)
    as [Hout0 Hem0].
  destruct (infeasibility_quits Farmer.no_shuffle [Farmer.nothing_new]
              (spoke 1) (Hv 1) eq_refl eq_refl eq_refl eq_refl eq_refl)
    as [Hout1 Hem1].
  split; [exact (Hv 0)|]. split; [reflexivity|]. split; [reflexivity|].
  split; [exact Hout0|]. split; [exact Hem0|]. split; [exact Hout1|exact Hem1].
Defined.

(** The tolerance test lets a total probability that is not a number
    through: every comparison with NaN is false. *)
Lemma nan_within_tolerance (o : Opt.t) :
  Float.is_nan (Opt.E1 o) = true -> Opt.E1_off o = false.
Proof.
  unfold Opt.E1_off, Float.gt, Float.abs, Float.sub.
  destruct (Opt.E1 o); try done. intros _.
  by destruct (Opt.E1_tolerance o).
Qed.

Lemma nan_differs (x y : Float.t) :
  Float.is_nan y = true -> Float.ne x y = true.
Proof. destruct y; try done. intros _. by destruct x. Qed.

(** X7: a total probability that is NaN passes the tolerance test of both
    spokes.  The sampling spoke still quits, through its feasibility test
    ([feasP != E1] holds for NaN); the fixed-set spoke, which has no such
    test, finishes its preparation normally, having logged nothing. *)
Theorem nan_probability_passes_tolerance (shuffle : S.t) (specific : F.t) :
  (Float.is_nan (Opt.E1 (S.opt shuffle)) = true ->
   is_Some (Opt.options (S.opt shuffle) !! "verbose"%string) ->
   Opt.multistage (S.opt shuffle) = false ->
   Opt.has_bundles (S.opt shuffle) = false ->
   Opt.isinstance_XhatTryer (S.opt shuffle) = true ->
   outcome (S.xhatbase_prep shuffle) = Py.Raise Py.SystemExit /\
   Print "Total probability of scenarios was " [Opt.E1 (S.opt shuffle)]
     ∉ emitted (S.xhatbase_prep shuffle)) /\
  (Float.is_nan (Opt.E1 (F.opt specific)) = true ->
   is_Some (Opt.options (F.opt specific) !! "verbose"%string) ->
   Opt.has_bundles (F.opt specific) = false ->
   Opt.isinstance_Xhat_Eval (F.opt specific) = true ->
   F.ib_prep specific = IO [] (Py.Ok tt)).
Proof.
  split.
  - intros Hnan [v Hv] Hms Hb Hi.
    unfold S.xhatbase_prep. cbv zeta.
    rewrite Hms, (lookup_key_Some _ _ _ Hv). run.
    rewrite Hb, Hi. cbn [negb]. run.
    rewrite (nan_within_tolerance _ Hnan). run.
    rewrite (nan_differs _ _ Hnan). run.
    destruct (S.rank_global shuffle =? Opt.rank0 (S.opt shuffle)); run;
      (split; [done|]); intros Hin;
      repeat (apply elem_of_cons in Hin as [Hin|Hin]; [discriminate Hin|]);
      by apply elem_of_nil in Hin.
  - intros Hnan [v Hv] Hb Hi. unfold F.ib_prep. cbv zeta.
    rewrite Hb, Hi. cbn [negb]. rewrite (lookup_key_Some _ _ _ Hv).
    by rewrite (nan_within_tolerance _ Hnan).
Qed.

Lemma nan_probability_passes_tolerance_witness :
  Float.is_nan (Opt.E1 FarmerVariants.nan_opt) = true /\
  Opt.E1_off FarmerVariants.nan_opt = false /\
  outcome (S.xhatbase_prep FarmerVariants.nan_shuffle_spoke)
    = Py.Raise Py.SystemExit /\
  (Print "Total probability of scenarios was " [S754_nan]
     ∉ emitted (S.xhatbase_prep FarmerVariants.nan_shuffle_spoke)) /\
  F.ib_prep FarmerVariants.nan_specific_spoke = IO [] (Py.Ok tt).
Proof.
  assert (Hv : is_Some (Opt.options FarmerVariants.nan_opt !! "verbose"%string))
    by (eexists; vm_compute; reflexivity).
  destruct (nan_probability_passes_tolerance FarmerVariants.nan_shuffle_spoke
              FarmerVariants.nan_specific_spoke) as [Hs Hf].
  destruct (Hs eq_refl Hv eq_refl eq_refl eq_refl) as [Hout Hno].
  split; [reflexivity|]. split; [reflexivity|]. split; [exact Hout|].
  split; [exact Hno|]. exact (Hf eq_refl Hv eq_refl eq_refl).
Defined.

(** X8: [ib_prep] of the fixed-set spoke returns normally exactly when the
    companion is unbundled and an [Xhat_Eval], the options hold ["verbose"]
    and the total probability is within tolerance; it has then logged
    nothing. *)
Theorem ib_prep_succeeds_iff (self : F.t) :
  outcome (F.ib_prep self) = Py.Ok tt <->
  Opt.has_bundles (F.opt self) = false /\
  Opt.isinstance_Xhat_Eval (F.opt self) = true /\
  is_Some (Opt.options (F.opt self) !! "verbose"%string) /\
  Opt.E1_off (F.opt self) = false /\
  emitted (F.ib_prep self) = [].
Proof.
  unfold F.ib_prep, PyVal.lookup_key. cbv zeta.
  destruct (Opt.has_bundles (F.opt self)); [naive_solver|].
  destruct (Opt.isinstance_Xhat_Eval (F.opt self)); cbn [negb]; [|naive_solver].
  destruct (Opt.options (F.opt self) !! "verbose"%string) as [v|] eqn:Hv; run.
  - destruct (Opt.E1_off (F.opt self)); run.
    + destruct (Opt.cylinder_rank (F.opt self) =? 0); run; naive_solver.
    + naive_solver.
  - split; [done|]. by intros (_ & _ & [? ?] & _).
Qed.

Lemma ib_prep_succeeds_iff_witness :
  outcome (F.ib_prep Farmer.specific_spoke) = Py.Ok tt /\
  Opt.has_bundles Farmer.opt = false /\
  Opt.E1_off Farmer.opt = false /\
  emitted (F.ib_prep Farmer.specific_spoke) = [] /\
  outcome (F.ib_prep Farmer.bundled_specific_spoke) <> Py.Ok tt.
Proof.
  assert (Hok : outcome (F.ib_prep Farmer.specific_spoke) = Py.Ok tt)
    by (vm_compute; reflexivity).
  destruct (proj1 (ib_prep_succeeds_iff Farmer.specific_spoke) Hok)
    as (Hb & _ & _ & Hoff & Hem).
  split; [exact Hok|]. split; [exact Hb|]. split; [exact Hoff|].
  split; [exact Hem|].
  intros Hbad.
  destruct (proj1 (ib_prep_succeeds_iff Farmer.bundled_specific_spoke) Hbad)
    as (Hb' & _).
  discriminate Hb'.
Defined.



Lemma io_eta {A} (m : io A) : IO (emitted m) (outcome m) = m.
Proof. by destruct m. Qed.

Lemma io_ext {A} (m m' : io A) :
  emitted m = emitted m' -> outcome m = outcome m' -> m = m'.
Proof. destruct m, m'. cbn. by intros -> ->. Qed.

(** What [main] of the sampling spoke does once its preparation is over. *)
Lemma shuffle_main_after_prep sample (answers : list tick) (self self1 : S.t) :
  outcome (S.xhatbase_prep self) = Py.Ok self1 ->
  emitted (S.xhatbase_prep self) = [] ->
  is_Some (Opt.options (S.opt self) !! "verbose"%string) ->
  S.main sample answers self =
    (cycler ← lift (ScenarioCycler.__init__
                      (sample (S.random_seed self1)
                              (Opt.all_scenario_names (S.opt self1))));
     S.loop answers
       (S.Frame (S.set_ib (if S.is_minimizing self1
                           then Float.inf else Float.neg_inf) self1)
                cycler 1)).
Proof.
  intros Hout Hem [v Hv]. apply io_ext; unfold S.main;
    rewrite (lookup_key_Some _ _ _ Hv);
    run; rewrite ?Hout, ?Hem; run; done.
Qed.

(** The preparation never polls the kill signal. *)
Lemma prep_never_polls (self : S.t) :
  KillPolled ∉ emitted (S.xhatbase_prep self).
Proof.
  assert (Hno : forall es : list event,
            Forall (fun e => e <> KillPolled) es -> KillPolled ∉ es).
  { intros es Hes Hin. rewrite Forall_forall in Hes. by apply (Hes _ Hin). }
  apply Hno. unfold S.xhatbase_prep, PyVal.lookup_key. cbv zeta.
  destruct (Opt.multistage (S.opt self)); [by constructor|].
  destruct (Opt.options (S.opt self) !! "verbose"%string) as [v|]; run;
    [|by constructor].
  destruct (Opt.has_bundles (S.opt self)); [by constructor|].
  destruct (Opt.isinstance_XhatTryer (S.opt self)); cbn [negb];
    [|by constructor].
  run.
  destruct (Opt.E1_off (S.opt self)); run.
  { destruct (S.rank_global self =? Opt.rank0 (S.opt self)); run;
      by repeat constructor. }
  destruct (Float.ne _ _); run.
  { destruct (S.rank_global self =? Opt.rank0 (S.opt self)); run;
      by repeat constructor. }
  destruct (Opt.options (S.opt self) !! "xhat_looper_options"%string)
    as [looper|]; run; [|by constructor].
  destruct (PyVal.subscript looper "xhat_solver_options"); run;
    by constructor.
Qed.

(** X10: a sampling spoke whose companion has no scenario at all never enters
    its loop, whatever its preparation does: [main] ends with an exception
    and has not polled the kill signal.  When the preparation fails, [main]
    ends with that failure; when the preparation returns normally, [main]
    raises [IndexError] as it builds its cycler over the empty shuffled
    list, and has printed nothing. *)
Theorem no_scenarios_never_loops sample (answers : list tick) (self : S.t) :
  Opt.all_scenario_names (S.opt self) = [] ->
  (forall seed, sample seed [] = []) ->
  (exists e, outcome (S.main sample answers self) = Py.Raise e) /\
  (KillPolled ∉ emitted (S.main sample answers self)) /\
  (forall e, is_Some (Opt.options (S.opt self) !! "verbose"%string) ->
     outcome (S.xhatbase_prep self) = Py.Raise e ->
     outcome (S.main sample answers self) = Py.Raise e) /\
  (forall self1, outcome (S.xhatbase_prep self) = Py.Ok self1 ->
     S.main sample answers self = IO [] (Py.Raise Py.IndexError)).
Proof.
  intros Hnames Hsample.
  assert (Hok : forall self1, outcome (S.xhatbase_prep self) = Py.Ok self1 ->
            S.main sample answers self = IO [] (Py.Raise Py.IndexError)).
  { intros self1 Hout.
    pose proof (xhatbase_prep_ok self self1 Hout)
      as (_ & _ & _ & _ & _ & v & lo & so & Hv & _ & _ & -> & Hem).
    rewrite (shuffle_main_after_prep sample answers self _ Hout Hem) by eauto.
    cbn [S.opt S.random_seed]. by rewrite Hnames, Hsample. }
  assert (Hfail : forall e,
            is_Some (Opt.options (S.opt self) !! "verbose"%string) ->
            outcome (S.xhatbase_prep self) = Py.Raise e ->
            outcome (S.main sample answers self) = Py.Raise e /\
            KillPolled ∉ emitted (S.main sample answers self)).
  { intros e Hv Hout.
    destruct (shuffle_main_stops sample answers self e Hv Hout) as [-> ->].
    split; [done|]. apply prep_never_polls. }
  destruct (Opt.options (S.opt self) !! "verbose"%string) as [v|] eqn:Hv.
  - destruct (outcome (S.xhatbase_prep self)) as [self1|e] eqn:Hout.
    + rewrite (Hok self1 eq_refl). cbn [outcome emitted].
      split; [by eexists|]. split; [apply not_elem_of_nil|].
      split; [done|]. intros self1' _. reflexivity.
    + destruct (Hfail e ltac:(by eexists) eq_refl) as [Hmain Hpoll].
      split; [by eexists|]. split; [done|]. split; [|done].
      intros e' _ [= <-]. exact Hmain.
  - assert (Hmain : S.main sample answers self
                    = IO [] (Py.Raise (Py.KeyError "verbose"))).
    { unfold S.main, PyVal.lookup_key. by rewrite Hv. }
    rewrite Hmain. cbn [outcome emitted].
    split; [by eexists|]. split; [apply not_elem_of_nil|].
    split; [by intros e [? ?]|].
    intros self1 Hout.
    pose proof (xhatbase_prep_ok self self1 Hout)
      as (_ & _ & _ & _ & _ & v & _ & _ & Hv' & _).
    by rewrite Hv in Hv'.
Qed.

Lemma no_scenarios_never_loops_witness :
  let strict := FarmerVariants.empty_shuffle_spoke Farmer.tolerance in
  let lax := FarmerVariants.empty_shuffle_spoke (Float.of_Z 1) in
  Opt.all_scenario_names (S.opt strict) = [] /\
  Opt.all_scenario_names (S.opt lax) = [] /\
  (forall seed, Farmer.no_shuffle seed [] = []) /\
  is_Some (Opt.options (S.opt strict) !! "verbose"%string) /\
  outcome (S.xhatbase_prep strict) = Py.Raise Py.SystemExit /\
  outcome (S.main Farmer.no_shuffle [Farmer.nothing_new] strict)
    = Py.Raise Py.SystemExit /\
  (KillPolled ∉ emitted (S.main Farmer.no_shuffle [Farmer.nothing_new] strict)) /\
  outcome (S.xhatbase_prep lax)
    = Py.Ok (S.Build (FarmerVariants.empty_opt (Float.of_Z 1)) 0 Float.inf
                     Float.inf (PyVal.PBool false) (PyVal.PDict ∅) true 42) /\
  S.main Farmer.no_shuffle [Farmer.nothing_new] lax
    = IO [] (Py.Raise Py.IndexError).
Proof.
  intros strict lax.
  assert (Hv : is_Some (Opt.options (S.opt strict) !! "verbose"%string))
    by (eexists; vm_compute; reflexivity).
  assert (Hquit : outcome (S.xhatbase_prep strict) = Py.Raise Py.SystemExit)
    by (vm_compute; reflexivity).
  assert (Hok : outcome (S.xhatbase_prep lax)
    = Py.Ok (S.Build (FarmerVariants.empty_opt (Float.of_Z 1)) 0 Float.inf
                     Float.inf (PyVal.PBool false) (PyVal.PDict ∅) true 42))
    by (vm_compute; reflexivity).
  destruct (no_scenarios_never_loops Farmer.no_shuffle [Farmer.nothing_new]
              strict eq_refl (fun _ => eq_refl)) as (_ & Hpoll & Hfail & _).
  destruct (no_scenarios_never_loops Farmer.no_shuffle [Farmer.nothing_new]
              lax eq_refl (fun _ => eq_refl)) as (_ & _ & _ & Hindex).
  split; [reflexivity|]. split; [reflexivity|]. split; [reflexivity|].
  split; [exact Hv|]. split; [exact Hquit|].
  split; [exact (Hfail _ Hv Hquit)|]. split; [exact Hpoll|].
  split; [exact Hok|]. exact (Hindex _ Hok).
Defined.

(** Once the preparation has succeeded and the shuffled scenario list is
    not empty, [main] of the sampling spoke is its loop, started with the
    worst possible bound for the sense of the run, the counter at 1 and a
    fresh cycler over the shuffled list. *)
Lemma main_enters_loop sample (answers : list tick) (self self1 : S.t) :
  outcome (S.xhatbase_prep self) = Py.Ok self1 ->
  sample (S.random_seed self1) (Opt.all_scenario_names (S.opt self1)) <> [] ->
  exists cycler,
    ScenarioCycler.__init__
      (sample (S.random_seed self1) (Opt.all_scenario_names (S.opt self1)))
      = Py.Ok cycler /\
    ScenarioCycler._scenarios_this_epoch cycler = ∅ /\
    ScenarioCycler._cycle_idx cycler = 0 /\
    S.ib (S.set_ib (if S.is_minimizing self1
                    then Float.inf else Float.neg_inf) self1)
      = (if Opt.is_minimizing (S.opt self)
         then Float.inf else Float.neg_inf) /\
    S.main sample answers self =
      S.loop answers
        (S.Frame (S.set_ib (if S.is_minimizing self1
                            then Float.inf else Float.neg_inf) self1)
                 cycler 1).
Proof.
  intros Hout Hne.
  pose proof (xhatbase_prep_ok self self1 Hout)
    as (_ & _ & _ & _ & _ & v & lo & so & Hv & _ & _ & Hself1 & Hem).
  destruct (CyclerFacts.init_nonempty _ Hne)
    as (cyc & Hinit & _ & _ & Hi0 & Hv0 & _).
  exists cyc. split; [done|]. split; [done|]. split; [done|].
  split; [by rewrite Hself1|].
  rewrite (shuffle_main_after_prep sample answers self _ Hout Hem) by eauto.
  rewrite Hinit. unfold mbind, io_bind. cbn [lift outcome emitted app].
  exact (io_eta _).
Qed.

End PrepMore.

Module MainFacts.
Import Effects TraceDefs.
Import PrepFacts.

(** X11: the first epoch of the sampling spoke.  When the preparation
    succeeds, the companion has [N >= 1] distinct scenarios and the shuffle
    with seed 42 gives a permutation of them, the first [N + 1] passes of
    [main] (no kill signal arriving) hand each scenario to the evaluator
    exactly once, in the shuffled order; the last of these passes evaluates
    nothing and starts the next epoch with an empty set, and [main] has not
    raised. *)
Theorem first_epoch_tries_each_once sample (answers : list tick)
    (self self1 : S.t) :
  outcome (S.xhatbase_prep self) = Py.Ok self1 ->
  Opt.all_scenario_names (S.opt self) <> [] ->
  NoDup (Opt.all_scenario_names (S.opt self)) ->
  sample 42 (Opt.all_scenario_names (S.opt self))
    ≡ₚ Opt.all_scenario_names (S.opt self) ->
  length answers = S (length (Opt.all_scenario_names (S.opt self))) ->
  Forall (fun a => got_kill_signal a = false) answers ->
  exists f',
    outcome (S.main sample answers self) = Py.Ok (Still_running f') /\
    tried (emitted (S.main sample answers self))
      = sample 42 (Opt.all_scenario_names (S.opt self)) /\
    tried (emitted (S.main sample answers self))
      ≡ₚ Opt.all_scenario_names (S.opt self) /\
    ScenarioCycler._scenarios_this_epoch (S.scenario_cycler f') = ∅.
Proof.
  intros Hout Hne Hnd Hperm Hlen Hnk.
  pose proof (PrepMore.xhatbase_prep_ok self self1 Hout)
    as (_ & _ & _ & _ & _ & v & lo & so & _ & _ & _ & Hself1 & _).
  assert (Hseed : S.random_seed self1 = 42) by (by rewrite Hself1).
  assert (Hopt : S.opt self1 = S.opt self) by (by rewrite Hself1).
  set (l := sample 42 (Opt.all_scenario_names (S.opt self))) in *.
  assert (Hl : l <> []).
  { intros Hnil. rewrite Hnil in Hperm. symmetry in Hperm.
    by apply Permutation_nil_r in Hperm. }
  destruct (PrepMore.main_enters_loop sample answers self self1 Hout)
    as (cyc & Hinit & _ & _ & _ & Hmain).
  { by rewrite Hseed, Hopt. }
  rewrite Hseed, Hopt in Hinit. fold l in Hinit.
  destruct (LoopFacts.first_epoch_loop l
              (S.set_ib (if S.is_minimizing self1
                         then Float.inf else Float.neg_inf) self1)
              1 answers Hl)
    as (cyc' & f' & Hinit' & Hrun & Htried & _ & Hvis).
  { by rewrite Hperm. }
  { by rewrite Hperm. }
  { done. }
  rewrite Hinit in Hinit'. injection Hinit' as <-.
  exists f'. rewrite Hmain. split; [done|]. split; [done|].
  split; [by rewrite Htried|done].
Qed.

Lemma first_epoch_tries_each_once_witness :
  let names := ["scen0"; "scen1"; "scen2"]%string in
  outcome (S.xhatbase_prep FarmerVariants.unprepared_shuffle_spoke)
    = Py.Ok Farmer.shuffle_spoke /\
  NoDup names /\
  Farmer.no_shuffle 42 names ≡ₚ names /\
  length AbcRun.passes = 4%nat /\
  Forall (fun a => got_kill_signal a = false) AbcRun.passes /\
  exists f',
    outcome (S.main Farmer.no_shuffle AbcRun.passes
                    FarmerVariants.unprepared_shuffle_spoke)
      = Py.Ok (Still_running f') /\
    tried (emitted (S.main Farmer.no_shuffle AbcRun.passes
                           FarmerVariants.unprepared_shuffle_spoke))
      = names /\
    tried (emitted (S.main Farmer.no_shuffle AbcRun.passes
                           FarmerVariants.unprepared_shuffle_spoke))
      ≡ₚ names /\
    ScenarioCycler._scenarios_this_epoch (S.scenario_cycler f') = ∅.
Proof.
  intros names.
  assert (Hok : outcome (S.xhatbase_prep FarmerVariants.unprepared_shuffle_spoke)
                = Py.Ok Farmer.shuffle_spoke) by (vm_compute; reflexivity).
  assert (Hnd : NoDup names).
  { apply (bool_decide_unpack (NoDup names)). by vm_compute. }
  assert (Hnk : Forall (fun a => got_kill_signal a = false) AbcRun.passes)
    by (repeat constructor).
  split; [exact Hok|]. split; [exact Hnd|]. split; [reflexivity|].
  split; [reflexivity|]. split; [exact Hnk|].
  exact (first_epoch_tries_each_once Farmer.no_shuffle AbcRun.passes
           FarmerVariants.unprepared_shuffle_spoke Farmer.shuffle_spoke
           Hok ltac:(discriminate) Hnd (reflexivity _) eq_refl Hnk).
Defined.

End MainFacts.

Module LogFacts.
Import Log.

Local Set Default Proof Using "Type".

Section Objects.

Context {value : Type}.
Variable none : value.
Variable str : string -> value.
Variable is_none : value -> bool.
Variable truthy : value -> bool.
Variable hasattr : value -> string -> bool.
Variable getattr : value -> string -> value.
Variable own_frame_info : value.
Variable getLogger : string -> value.
Variable global_rank : value.
Variable format : value -> string.

Local Abbreviation look := (look hasattr getattr).
Local Abbreviation search := (search none hasattr getattr).
Local Abbreviation _reach := (_reach none str hasattr getattr own_frame_info).
Local Abbreviation global_toc :=
  (global_toc none str truthy hasattr getattr own_frame_info getLogger).
Local Abbreviation filter :=
  (filter none str is_none hasattr getattr own_frame_info global_rank format).
Local Abbreviation attach :=
  (attach none str is_none hasattr getattr own_frame_info).
Local Abbreviation reached := (reached none hasattr getattr).
Local Abbreviation with_reached := (with_reached none is_none hasattr getattr).
Local Abbreviation rank_of := (rank_of none format).

(** The frame of [_reach] itself answers for [name] and [f] only. *)
Lemma reach_past_own_frame (callers : list (gmap string value))
    (name : string) :
  name <> "name"%string -> name <> "f"%string -> name <> "self"%string ->
  _reach callers name = search callers name.
Proof.
  intros Hn Hf Hs. unfold Log._reach. cbn [Log.search]. unfold Log.look.
  rewrite !lookup_insert_ne by done. by rewrite !lookup_singleton_ne by done.
Qed.

(** X12: [_reach] cannot find a caller's variable called [name] or [f]: it
    finds its own, whatever the callers hold.  [_reach("name")] is the
    string ["name"] and [_reach("f")] the frame record of [_reach] itself. *)
Theorem reach_finds_itself (callers : list (gmap string value)) :
  _reach callers "name" = str "name" /\
  _reach callers "f" = own_frame_info.
Proof.
  unfold Log._reach. cbn [Log.search]. unfold Log.look.
  rewrite lookup_insert_eq.
  by rewrite lookup_insert_ne, lookup_singleton_eq by done.
Qed.

Lemma search_app_none (pre post : list (gmap string value)) (name : string) :
  Forall (fun f => look f name = None) pre ->
  search (pre ++ post) name = search post name.
Proof.
  induction pre as [|f pre IH]; [done|].
  intros [Hf Hpre]%Forall_cons. cbn [app Log.search]. rewrite Hf. by apply IH.
Qed.

(** X13: the nearest frame wins.  For a name other than [name], [f] and
    [self], [_reach] returns what the innermost caller frame that knows the
    name gives, a variable of the frame before an attribute of its [self],
    whatever the frames further out hold; when no frame knows the name, it
    returns [None]. *)
Theorem reach_nearest_frame (pre post : list (gmap string value))
    (fr : gmap string value) (name : string) (v : value) :
  name <> "name"%string -> name <> "f"%string -> name <> "self"%string ->
  Forall (fun f => look f name = None) pre ->
  (fr !! name = Some v -> _reach (pre ++ fr :: post) name = v) /\
  (fr !! name = None ->
   forall self, fr !! "self"%string = Some self -> hasattr self name = true ->
   _reach (pre ++ fr :: post) name = getattr self name) /\
  _reach pre name = none.
Proof.
  intros Hn Hf Hs Hpre. rewrite !reach_past_own_frame by done.
  rewrite search_app_none by done. cbn [Log.search]. unfold Log.look.
  split; [by intros ->|]. split.
  - by intros -> self -> ->.
  - rewrite <-(app_nil_r pre). by rewrite search_app_none.
Qed.

(** X14: [global_toc] calls [info] at most once: not at all when [cond] is
    false, once with [msg] otherwise.  Its own variables never stand in for
    a logger: the logger is the one the callers' frames give when that is
    true as a condition, and [getLogger("mpisppy")] otherwise; so a nearer
    frame whose [logger] is false (unset to [None], say) hides a logger
    further out. *)
Theorem global_toc_logs_once (callers : list (gmap string value))
    (msg cond : value) :
  global_toc callers msg cond =
    (if truthy cond
     then [Info (if truthy (search callers "logger")
                 then search callers "logger"
                 else getLogger "mpisppy") msg]
     else []) /\
  (forall fr post v,
     callers = fr :: post -> fr !! "logger"%string = Some v ->
     truthy cond = true -> truthy v = false ->
     global_toc callers msg cond = [Info (getLogger "mpisppy") msg]).
Proof.
  assert (Hown : Log._reach none str hasattr getattr own_frame_info
                   ({[ "msg"%string := msg; "cond"%string := cond ]} :: callers)
                   "logger" = search callers "logger").
  { rewrite reach_past_own_frame by done. cbn [Log.search]. unfold Log.look.
    rewrite !lookup_insert_ne by done. by rewrite !lookup_singleton_ne by done. }
  assert (Hall : global_toc callers msg cond =
    (if truthy cond
     then [Info (if truthy (search callers "logger")
                 then search callers "logger"
                 else getLogger "mpisppy") msg]
     else [])).
  { unfold Log.global_toc. destruct (truthy cond); [|done]. cbv zeta.
    rewrite Hown. by destruct (truthy (search callers "logger")). }
  split; [exact Hall|].
  intros fr post v -> Hv Hc Hf. rewrite Hall, Hc. cbn [Log.search].
  unfold Log.look. by rewrite Hv, Hf.
Qed.

(** *** The filter *)

Lemma has_insert (record : gmap string value) (k k' : string) (v : value) :
  has (<[k := v]> record) k' = if decide (k = k') then true else has record k'.
Proof.
  unfold has. case_decide as Hk.
  - subst. rewrite lookup_insert_eq. by apply bool_decide_eq_true_2.
  - by rewrite lookup_insert_ne.
Qed.

Lemma has_true (record : gmap string value) (k : string) :
  has record k = true <-> is_Some (record !! k).
Proof. unfold has. apply bool_decide_eq_true. Qed.

Lemma has_false (record : gmap string value) (k : string) :
  has record k = false <-> record !! k = None.
Proof.
  unfold has. rewrite bool_decide_eq_false. by rewrite eq_None_not_Some.
Qed.

(** [_reach(attr)] from inside [filter], for the two attributes it asks
    for. *)
Lemma reach_from_filter (self record_ref : value)
    (callers : list (gmap string value)) (attr : string)
    (attr_val : option value) :
  attr = "strata_rank"%string \/ attr = "cylinder_rank"%string ->
  _reach (filter_frame str self record_ref attr attr_val :: callers) attr
    = reached self callers attr.
Proof.
  intros Hattr.
  rewrite reach_past_own_frame by (by destruct Hattr as [->| ->]).
  cbn [Log.search]. unfold Log.look, Log.reached, filter_frame.
  destruct attr_val as [av|];
    rewrite !lookup_insert_ne by (by destruct Hattr as [->| ->]);
    rewrite ?lookup_singleton_ne by (by destruct Hattr as [->| ->]);
    rewrite lookup_insert_eq; by destruct (hasattr self attr).
Qed.

Lemma attach_record (self record_ref : value)
    (callers : list (gmap string value))
    (st : gmap string value * option value) (attr : string) :
  attr = "strata_rank"%string \/ attr = "cylinder_rank"%string ->
  (attach self record_ref callers st attr).1
    = with_reached self callers attr st.1.
Proof.
  intros Hattr. unfold Log.attach, Log.with_reached.
  destruct (has st.1 attr); [done|].
  cbn [fst]. rewrite reach_from_filter by done.
  by destruct (is_none _).
Qed.

(** [filter], turn by turn. *)
Lemma filter_steps (self record_ref : value)
    (callers : list (gmap string value)) (elapsed : value)
    (record : gmap string value) :
  filter self record_ref callers elapsed record =
    let r3 := with_reached self callers "cylinder_rank"
                (with_reached self callers "strata_rank"
                   (with_default "elapsed_time" elapsed
                      (with_default "global_rank" global_rank record))) in
    (true, <["rank"%string := str (rank_of r3)]> r3).
Proof.
  unfold Log.filter. cbv zeta. cbn [fold_left].
  by rewrite !attach_record by auto.
Qed.

Lemma with_default_extends (attr : string) (v : value)
    (record : gmap string value) :
  record ⊆ with_default attr v record /\
  has (with_default attr v record) attr = true.
Proof.
  unfold with_default. destruct (has record attr) eqn:Hh; [done|].
  split; [|by rewrite has_insert, decide_True].
  apply insert_subseteq. by apply has_false.
Qed.

Lemma with_reached_extends (self : value) (callers : list (gmap string value))
    (attr : string) (record : gmap string value) :
  record ⊆ with_reached self callers attr record /\
  (has (with_reached self callers attr record) attr = false ->
   is_none (reached self callers attr) = true).
Proof.
  unfold Log.with_reached. destruct (has record attr) eqn:Hh.
  { split; [done|]. by rewrite Hh. }
  destruct (is_none _); [done|].
  split; [apply insert_subseteq; by apply has_false|].
  by rewrite has_insert, decide_True.
Qed.

Lemma has_mono (r r' : gmap string value) (k : string) :
  r ⊆ r' -> has r k = true -> has r' k = true.
Proof.
  rewrite !has_true. intros Hsub [v Hv]. exists v.
  by eapply lookup_weaken.
Qed.

Lemma rank_of_insert_rank (r : gmap string value) (v : value) :
  rank_of (<["rank"%string := v]> r) = rank_of r.
Proof.
  unfold Log.rank_of, attr_of. rewrite !has_insert.
  by rewrite !lookup_insert_ne by done.
Qed.

(** The record before the [rank] attribute is set. *)
Lemma filter_extends (self : value) (callers : list (gmap string value))
    (elapsed : value) (record : gmap string value) :
  let r3 := with_reached self callers "cylinder_rank"
              (with_reached self callers "strata_rank"
                 (with_default "elapsed_time" elapsed
                    (with_default "global_rank" global_rank record))) in
  record ⊆ r3 /\
  has r3 "global_rank" = true /\ has r3 "elapsed_time" = true /\
  (has r3 "strata_rank" = false ->
   is_none (reached self callers "strata_rank") = true) /\
  (has r3 "cylinder_rank" = false ->
   is_none (reached self callers "cylinder_rank") = true).
Proof.
  cbv zeta.
  destruct (with_default_extends "global_rank" global_rank record) as [H1 G1].
  set (r1 := with_default "global_rank" global_rank record) in *.
  destruct (with_default_extends "elapsed_time" elapsed r1) as [H2 G2].
  set (r2 := with_default "elapsed_time" elapsed r1) in *.
  destruct (with_reached_extends self callers "strata_rank" r2) as [H3 G3].
  set (r3 := with_reached self callers "strata_rank" r2) in *.
  destruct (with_reached_extends self callers "cylinder_rank" r3) as [H4 G4].
  set (r4 := with_reached self callers "cylinder_rank" r3) in *.
  split; [by do 3 (etrans; [eassumption|])|].
  split.
  { apply (has_mono r3 r4 _ H4), (has_mono r2 r3 _ H3), (has_mono r1 r2 _ H2), G1. }
  split; [apply (has_mono r3 r4 _ H4), (has_mono r2 r3 _ H3), G2|].
  split; [|done].
  intros Hs. apply G3. destruct (has r3 "strata_rank") eqn:Hh; [|done].
  by rewrite (has_mono r3 r4 _ H4 Hh) in Hs.
Qed.

(** X15: the filter lets every record through and never overwrites: it
    returns [True]; every attribute the record had, other than [rank], has
    the value it had; the attributes it adds are among [global_rank],
    [elapsed_time], [strata_rank], [cylinder_rank] and [rank], of which
    [global_rank], [elapsed_time] and [rank] are there afterwards in any
    case; and [rank] is the string made from the record's final attributes,
    with the cylinder and strata ranks only when both are known. *)
Theorem filter_only_adds (self record_ref : value)
    (callers : list (gmap string value)) (elapsed : value)
    (record : gmap string value) :
  (filter self record_ref callers elapsed record).1 = true /\
  (forall k v, k <> "rank"%string -> record !! k = Some v ->
     (filter self record_ref callers elapsed record).2 !! k = Some v) /\
  (forall k, is_Some ((filter self record_ref callers elapsed record).2 !! k) ->
     is_Some (record !! k) \/
     k ∈ ["global_rank"; "elapsed_time"; "strata_rank"; "cylinder_rank";
          "rank"]%string) /\
  has (filter self record_ref callers elapsed record).2 "global_rank" = true /\
  has (filter self record_ref callers elapsed record).2 "elapsed_time" = true /\
  (filter self record_ref callers elapsed record).2 !! "rank"%string
    = Some (str (rank_of (filter self record_ref callers elapsed record).2)).
Proof.
  clear truthy getLogger.
  rewrite filter_steps. cbv zeta. cbn [fst snd].
  destruct (filter_extends self callers elapsed record) as (Hsub & Hg & He & _).
  set (r3 := with_reached self callers "cylinder_rank" _) in *.
  split; [done|]. split; [|split; [|split; [|split]]].
  - intros k v Hk Hv. rewrite lookup_insert_ne by done.
    by eapply lookup_weaken.
  - intros k [v Hv].
    destruct (decide (k = "rank"%string)) as [->|Hk]; [right; set_solver|].
    rewrite lookup_insert_ne in Hv by done. revert Hv. unfold r3.
    unfold Log.with_reached, with_default.
    repeat match goal with
           | |- context [if ?b then _ else _] => destruct b
           end;
      rewrite ?lookup_insert; repeat case_decide; subst;
      intros Hv; try (left; by eexists); right; set_solver.
  - by rewrite has_insert, decide_False.
  - by rewrite has_insert, decide_False.
  - by rewrite lookup_insert_eq, rank_of_insert_rank.
Qed.

(** X16: filtering is idempotent.  A record that has gone through the filter
    comes out of a second pass unchanged, as long as the filter object and
    the callers' frames are the same; the time of the second pass does not
    matter: [elapsed_time] stays that of the first. *)
Theorem filter_idempotent (self record_ref : value)
    (callers : list (gmap string value)) (elapsed elapsed' : value)
    (record : gmap string value) :
  filter self record_ref callers elapsed'
         (filter self record_ref callers elapsed record).2
    = filter self record_ref callers elapsed record.
Proof.
  rewrite !filter_steps. cbv zeta. cbn [fst snd].
  destruct (filter_extends self callers elapsed record)
    as (_ & Hg & He & Hs & Hc).
  set (r3 := with_reached self callers "cylinder_rank" _) in *.
  set (x := str (rank_of r3)).
  assert (H1 : with_default "global_rank" global_rank
                 (<["rank"%string := x]> r3) = <["rank"%string := x]> r3).
  { unfold with_default. by rewrite has_insert, decide_False, Hg. }
  rewrite H1.
  assert (H2 : with_default "elapsed_time" elapsed'
                 (<["rank"%string := x]> r3) = <["rank"%string := x]> r3).
  { unfold with_default. by rewrite has_insert, decide_False, He. }
  rewrite H2.
  assert (H3 : with_reached self callers "strata_rank"
                 (<["rank"%string := x]> r3) = <["rank"%string := x]> r3).
  { unfold Log.with_reached. rewrite has_insert, decide_False by done.
    destruct (has r3 "strata_rank"); [done|]. by rewrite Hs. }
  rewrite H3.
  assert (H4 : with_reached self callers "cylinder_rank"
                 (<["rank"%string := x]> r3) = <["rank"%string := x]> r3).
  { unfold Log.with_reached. rewrite has_insert, decide_False by done.
    destruct (has r3 "cylinder_rank"); [done|]. by rewrite Hc. }
  rewrite H4. f_equal.
  by rewrite rank_of_insert_rank, insert_insert_eq.
Qed.

End Objects.

Lemma reach_nearest_frame_witness :
  let reach :=
    Log._reach PyVal.PNone PyVal.PStr LogSample.hasattr LogSample.getattr
               LogSample.own_frame_info in
  Forall (fun f => Log.look LogSample.hasattr LogSample.getattr f "logger"
                   = None) [LogSample.plain_frame] /\
  reach [LogSample.plain_frame; LogSample.outer_frame; LogSample.method_frame]
        "logger" = LogSample.getLogger "outer" /\
  reach [LogSample.plain_frame; LogSample.method_frame; LogSample.outer_frame]
        "logger" = LogSample.getLogger "spoke" /\
  reach [LogSample.plain_frame] "logger" = PyVal.PNone.
Proof.
  intros reach.
  assert (Hpre : Forall (fun f => Log.look LogSample.hasattr LogSample.getattr
                                           f "logger" = None)
                        [LogSample.plain_frame]).
  { constructor; [vm_compute; reflexivity|constructor]. }
  destruct (reach_nearest_frame PyVal.PNone PyVal.PStr LogSample.hasattr
              LogSample.getattr LogSample.own_frame_info
              [LogSample.plain_frame] [LogSample.method_frame]
              LogSample.outer_frame "logger" (LogSample.getLogger "outer")
              ltac:(discriminate) ltac:(discriminate) ltac:(discriminate) Hpre)
    as (Hvar & _ & Hnone).
  destruct (reach_nearest_frame PyVal.PNone PyVal.PStr LogSample.hasattr
              LogSample.getattr LogSample.own_frame_info
              [LogSample.plain_frame] [LogSample.outer_frame]
              LogSample.method_frame "logger" PyVal.PNone
              ltac:(discriminate) ltac:(discriminate) ltac:(discriminate) Hpre)
    as (_ & Hattr & _).
  split; [exact Hpre|]. split; [|split].
  - apply Hvar. vm_compute. reflexivity.
  - etrans; [apply (Hattr ltac:(vm_compute; reflexivity) LogSample.spoke);
             vm_compute; reflexivity|].
    vm_compute. reflexivity.
  - exact Hnone.
Defined.

Lemma global_toc_logs_once_witness :
  let toc :=
    Log.global_toc PyVal.PNone PyVal.PStr PyVal.truthy LogSample.hasattr
                   LogSample.getattr LogSample.own_frame_info
                   LogSample.getLogger in
  LogSample.unset_frame !! "logger"%string = Some PyVal.PNone /\
  PyVal.truthy (PyVal.PBool true) = true /\
  PyVal.truthy PyVal.PNone = false /\
  toc [LogSample.unset_frame; LogSample.outer_frame]
      (PyVal.PStr "hello") (PyVal.PBool true)
    = [Log.Info (LogSample.getLogger "mpisppy") (PyVal.PStr "hello")] /\
  toc [LogSample.plain_frame; LogSample.outer_frame]
      (PyVal.PStr "hello") (PyVal.PBool true)
    = [Log.Info (LogSample.getLogger "outer") (PyVal.PStr "hello")] /\
  toc [LogSample.plain_frame; LogSample.outer_frame]
      (PyVal.PStr "hello") (PyVal.PBool false) = [].
Proof.
  intros toc.
  assert (Hl : LogSample.unset_frame !! "logger"%string = Some PyVal.PNone)
    by (vm_compute; reflexivity).
  destruct (global_toc_logs_once PyVal.PNone PyVal.PStr PyVal.truthy
              LogSample.hasattr LogSample.getattr LogSample.own_frame_info
              LogSample.getLogger
              [LogSample.unset_frame; LogSample.outer_frame]
              (PyVal.PStr "hello") (PyVal.PBool true)) as [_ Hhide].
  destruct (global_toc_logs_once PyVal.PNone PyVal.PStr PyVal.truthy
              LogSample.hasattr LogSample.getattr LogSample.own_frame_info
              LogSample.getLogger
              [LogSample.plain_frame; LogSample.outer_frame]
              (PyVal.PStr "hello") (PyVal.PBool true)) as [Hon _].
  destruct (global_toc_logs_once PyVal.PNone PyVal.PStr PyVal.truthy
              LogSample.hasattr LogSample.getattr LogSample.own_frame_info
              LogSample.getLogger
              [LogSample.plain_frame; LogSample.outer_frame]
              (PyVal.PStr "hello") (PyVal.PBool false)) as [Hoff _].
  split; [exact Hl|]. split; [reflexivity|]. split; [reflexivity|].
  split; [exact (Hhide _ _ _ eq_refl Hl eq_refl eq_refl)|].
  split; [|exact Hoff].
  etrans; [exact Hon|]. vm_compute. reflexivity.
Defined.

Lemma filter_only_adds_witness :
  let out :=
    Log.filter PyVal.PNone PyVal.PStr LogSample.is_none LogSample.hasattr
               LogSample.getattr LogSample.own_frame_info
               LogSample.global_rank LogSample.format
               LogSample.the_filter (PyVal.PStr "record")
               [LogSample.plain_frame; LogSample.method_frame]
               (PyVal.PFloat (Float.of_Z 3)) LogSample.record in
  LogSample.record !! "msg"%string = Some (PyVal.PStr "hello") /\
  out.1 = true /\
  out.2 !! "msg"%string = Some (PyVal.PStr "hello") /\
  out.2 !! "global_rank"%string = Some (PyVal.PInt 0) /\
  out.2 !! "cylinder_rank"%string = Some (PyVal.PInt 2) /\
  out.2 !! "rank"%string = Some (PyVal.PStr "R=0,C=2,S=1") /\
  (is_Some (out.2 !! "logger"%string) ->
   is_Some (LogSample.record !! "logger"%string) \/
   "logger"%string ∈ ["global_rank"; "elapsed_time"; "strata_rank";
                      "cylinder_rank"; "rank"]%string).
Proof.
  intros out.
  assert (Hmsg : LogSample.record !! "msg"%string = Some (PyVal.PStr "hello"))
    by (vm_compute; reflexivity).
  destruct (filter_only_adds PyVal.PNone PyVal.PStr LogSample.is_none
              LogSample.hasattr LogSample.getattr LogSample.own_frame_info
              LogSample.global_rank LogSample.format
              LogSample.the_filter (PyVal.PStr "record")
              [LogSample.plain_frame; LogSample.method_frame]
              (PyVal.PFloat (Float.of_Z 3)) LogSample.record)
    as (Htrue & Hkeep & Hadds & _ & _ & Hrank).
  split; [exact Hmsg|]. split; [exact Htrue|].
  split; [exact (Hkeep "msg"%string _ ltac:(discriminate) Hmsg)|].
  split; [vm_compute; reflexivity|]. split; [vm_compute; reflexivity|].
  split; [|exact (Hadds "logger"%string)].
  etrans; [exact Hrank|]. vm_compute. reflexivity.
Defined.

End LogFacts.

Module LogConfigFacts.
Import LogConfig.

Local Set Default Proof Using "Type".

Section Paths.

Context {path : Type}.
Variable Path : string -> path.
Variable is_absolute : path -> bool.
Variable joinpath : path -> path -> path.

Local Abbreviation yaml := (@yaml path).
Local Abbreviation relocate_handler := (relocate_handler Path is_absolute joinpath).
Local Abbreviation relocate_items := (relocate_items Path is_absolute joinpath).
Local Abbreviation relocate_list := (relocate_list Path is_absolute joinpath).
Local Abbreviation relocate_handlers := (relocate_handlers Path is_absolute joinpath).
Local Abbreviation relocate := (relocate Path is_absolute joinpath).
Local Abbreviation settled := (settled Path is_absolute).
Local Abbreviation moved := (moved Path is_absolute joinpath).

Lemma eqb_refl_true (k : string) : String.eqb k k = true.
Proof. by apply String.eqb_eq. Qed.

Lemma set_same (items : list (string * yaml)) (key : string) (v : yaml) :
  get items key = Some v -> set items key v = items.
Proof.
  induction items as [|[k w] items IH]; [done|]. cbn [get set].
  destruct (String.eqb k key); [by intros [= ->]|]. intros Hv. by rewrite IH.
Qed.

Lemma set_keys (items : list (string * yaml)) (key : string) (v : yaml) :
  is_Some (get items key) -> (set items key v).*1 = items.*1.
Proof.
  induction items as [|[k w] items IH]; [by intros [? ?]|]. cbn [get set].
  destruct (String.eqb k key); [done|]. intros Hv. cbn. by rewrite IH.
Qed.

Lemma get_set (items : list (string * yaml)) (key key' : string) (v : yaml) :
  get (set items key v) key' =
    if String.eqb key key' then Some v else get items key'.
Proof.
  induction items as [|[k w] items IH]; cbn [get set].
  - done.
  - destruct (String.eqb k key) eqn:Hk; cbn [get].
    + apply String.eqb_eq in Hk as ->. by destruct (String.eqb key key').
    + rewrite IH. destruct (String.eqb key key') eqn:Hkk; [|done].
      apply String.eqb_eq in Hkk as <-. by rewrite Hk.
Qed.

Lemma settled_stays (d : dir) (h : yaml) :
  settled h -> relocate_handler d h = Ok h.
Proof.
  destruct h as [| | | | | |items|]; try done. cbn [LogConfig.settled relocate_handler].
  unfold LogConfig.relocate_handler.
  destruct (get items "filename") as [filename|]; [|done].
  cbn [default from_option id].
  intros [->|(p & Hp & Habs)]; [done|].
  destruct (truthy filename); [|done]. rewrite Hp. cbn. by rewrite Habs.
Qed.

Lemma settled_items_stay (d : dir) (items : list (string * yaml)) :
  Forall (fun nh => settled nh.2) items -> relocate_items d items = Ok items.
Proof.
  induction items as [|[name h] items IH]; [done|].
  intros [Hh Hrest]%Forall_cons. cbn [LogConfig.relocate_items].
  rewrite (settled_stays d h Hh). cbn. by rewrite IH.
Qed.

(** X17: absolute file names are not modified.  When every handler of the
    configuration is a dictionary whose file name is missing, false or an
    absolute path, [load_config] hands the parsed document to [dictConfig]
    as it is, whatever [logfile_dir] is; and so it does for any document,
    well-formed or not, when [logfile_dir] is missing or the empty
    string. *)
Theorem absolute_filenames_untouched (logfile_dir : option dir)
    (config : yaml) :
  (dir_given logfile_dir = false -> relocate logfile_dir config = Ok config) /\
  (forall items handlers,
     config = YMap items ->
     get items "handlers" = Some (YMap handlers) ->
     Forall (fun nh => settled nh.2) handlers ->
     relocate logfile_dir config = Ok config).
Proof.
  split.
  - unfold LogConfig.relocate. destruct logfile_dir as [d|]; [|done]. by intros ->.
  - intros items handlers -> Hh Hs. unfold LogConfig.relocate.
    destruct logfile_dir as [d|]; [|done].
    destruct (dir_given (Some d)); [|done]. rewrite Hh.
    cbn [LogConfig.relocate_handlers]. rewrite (settled_items_stay d _ Hs). cbn.
    by rewrite set_same.
Qed.

Lemma relocate_handler_moved (d : dir) (h h' : yaml) :
  relocate_handler d h = Ok h' -> moved d h h'.
Proof.
  destruct h as [| | | | | |items|]; try done.
  unfold LogConfig.relocate_handler.
  destruct (get items "filename") as [filename|] eqn:Hf;
    cbn [default from_option id].
  - destruct (truthy filename).
    + destruct (as_path Path filename) as [p|] eqn:Hp; [|done]. cbn.
      destruct (is_absolute p) eqn:Habs; cbn; intros [= <-].
      * exists items, items. by repeat split; try left.
      * exists items, (set items "filename" (YPath (under Path joinpath d p))).
        split; [done|]. split; [done|].
        split; [by apply set_keys; rewrite Hf|]. split.
        -- intros key Hk. rewrite get_set.
           destruct (String.eqb "filename" key) eqn:He; [|done].
           by apply String.eqb_eq in He.
        -- right. exists filename, p. by rewrite get_set.
    + intros [= <-]. exists items, items. by repeat split; try left.
  - intros [= <-]. exists items, items. by repeat split; try left.
Qed.

Lemma set_set (items : list (string * yaml)) (key : string) (v w : yaml) :
  set (set items key v) key w = set items key w.
Proof.
  induction items as [|[k u] items IH]; cbn [set].
  - by rewrite eqb_refl_true.
  - destruct (String.eqb k key) eqn:Hk; cbn [set]; rewrite Hk; [done|].
    by rewrite IH.
Qed.

(** The body of the loop on a handler with a relative file name. *)
Lemma relocate_handler_relative (d : dir) (items : list (string * yaml))
    (filename : yaml) (p : path) :
  get items "filename" = Some filename -> LogConfig.truthy filename = true ->
  as_path Path filename = Ok p -> is_absolute p = false ->
  relocate_handler d (YMap items)
    = Ok (YMap (set items "filename" (YPath (under Path joinpath d p)))).
Proof.
  intros Hf Ht Hp Habs. unfold LogConfig.relocate_handler.
  rewrite Hf. cbn [default from_option id]. rewrite Ht, Hp. cbn.
  by rewrite Habs.
Qed.

Lemma relocate_times_step (d : dir) (k : nat) (h h1 : yaml) :
  relocate_handler d h = Ok h1 ->
  LogConfig.relocate_times Path is_absolute joinpath d (S k) h
    = LogConfig.relocate_times Path is_absolute joinpath d k h1.
Proof. intros Hh. cbn [LogConfig.relocate_times]. by rewrite Hh. Qed.

Lemma relocate_times_settled (d : dir) (k : nat) (h : yaml) :
  settled h -> LogConfig.relocate_times Path is_absolute joinpath d k h = Ok h.
Proof.
  intros Hs. induction k as [|k IH]; [done|]. cbn [LogConfig.relocate_times].
  rewrite (settled_stays d h Hs). cbn. exact IH.
Qed.

Lemma relocate_times_moved (d : dir) (k : nat) (items : list (string * yaml))
    (h' : yaml) :
  LogConfig.relocate_times Path is_absolute joinpath d k (YMap items) = Ok h' ->
  exists items', h' = YMap items' /\ items'.*1 = items.*1 /\
    forall key, key <> "filename"%string -> get items' key = get items key.
Proof.
  revert items. induction k as [|k IH]; intros items.
  - intros [= <-]. by exists items.
  - cbn [LogConfig.relocate_times].
    destruct (relocate_handler d (YMap items)) as [h1|] eqn:Hh; [|done]. cbn.
    apply relocate_handler_moved in Hh
      as (items0 & items1 & [= <-] & -> & Hkeys & Hsame & _).
    intros (items' & -> & Hkeys' & Hsame')%IH.
    exists items'. split; [done|]. split; [congruence|].
    intros key Hk. by rewrite Hsame', Hsame.
Qed.

(** The loop over names of objects: every object has gone through the body
    of the loop once for each of its names. *)
Lemma relocate_shared_times (d : dir) (names : list (string * nat)) :
  forall objs objs' : list yaml,
    Forall (fun nr => (nr.2 < length objs)%nat) names ->
    LogConfig.relocate_shared Path is_absolute joinpath d names objs = Ok objs' ->
    length objs' = length objs /\
    forall r h, objs !! r = Some h ->
      exists h', objs' !! r = Some h' /\
        LogConfig.relocate_times Path is_absolute joinpath d (uses r names) h
          = Ok h'.
Proof.
  induction names as [|[name r0] names IH]; intros objs objs' Hwf.
  - intros [= <-]. split; [done|]. intros r h Hr. by exists h.
  - apply Forall_cons in Hwf as [Hr0 Hwf]. cbn [snd] in Hr0.
    destruct (lookup_lt_is_Some_2 objs r0 Hr0) as [h0 Hh0].
    cbn [LogConfig.relocate_shared]. rewrite Hh0. cbn [default from_option id].
    destruct (relocate_handler d h0) as [h0'|] eqn:Hstep; [|done]. cbn.
    intros Hrun.
    destruct (IH (<[r0 := h0']> objs) objs') as [Hlen Hall]; [|done|].
    { eapply Forall_impl; [exact Hwf|]. intros nr Hnr.
      by rewrite length_insert. }
    rewrite length_insert in Hlen. split; [done|].
    intros r h Hr. cbn [uses].
    destruct (Nat.eqb r0 r) eqn:Heq.
    + apply Nat.eqb_eq in Heq as <-. rewrite Hh0 in Hr. injection Hr as <-.
      destruct (Hall r0 h0') as (h' & Hh' & Htimes).
      { by apply list_lookup_insert_eq. }
      exists h'. split; [done|]. cbn [Nat.add LogConfig.relocate_times].
      rewrite Hstep. cbn. exact Htimes.
    + apply Nat.eqb_neq in Heq.
      destruct (Hall r h) as (h' & Hh' & Htimes).
      { by rewrite list_lookup_insert_ne. }
      by exists h'.
Qed.

(** The value-level loop is the loop over objects when every name has an
    object of its own. *)
Lemma relocate_items_alias_free (d : dir) (items : list (string * yaml)) :
  forall pre : list yaml,
    LogConfig.relocate_shared Path is_absolute joinpath d
      (zip items.*1 (seq (length pre) (length items))) (pre ++ items.*2)
    = match relocate_items d items with
      | Ok items' => Ok (pre ++ items'.*2)
      | Raise e => Raise e
      end.
Proof.
  induction items as [|[name h] items IH]; intros pre.
  - done.
  - cbn [fmap list_fmap length seq zip zip_with fst snd
         LogConfig.relocate_shared LogConfig.relocate_items].
    rewrite lookup_app_r by lia. rewrite Nat.sub_diag.
    cbn [lookup list_lookup default from_option id].
    destruct (relocate_handler d h) as [h'|] eqn:Hstep; [|done]. cbn.
    replace (<[length pre := h']> (pre ++ h :: items.*2))
      with ((pre ++ [h']) ++ items.*2).
    2:{ rewrite insert_app_r_alt by lia. rewrite Nat.sub_diag.
        by rewrite <-app_assoc. }
    replace (S (length pre)) with (length (pre ++ [h']))
      by (rewrite length_app; cbn; lia).
    rewrite IH. destruct (relocate_items d items) as [items'|]; [|done].
    cbn. by rewrite <-app_assoc.
Qed.

(** X18: what relocation does to the handlers, aliases included.  When the
    loop of [load_config] over the handlers gets through, the handler
    dictionaries are as many as before, and each has gone through the body
    of the loop once for every name that stands for it: a dictionary without
    a name is untouched, and so is one whose file name is missing, false or
    absolute; a dictionary with one name and a relative file name has
    [logfile_dir / filename] in its place; a dictionary that two names share
    has its relative file name moved twice, to
    [logfile_dir / (logfile_dir / filename)], unless the first move made it
    absolute.  In every dictionary the keys, their order and the values
    under keys other than ["filename"] are kept. *)
Theorem shared_handlers_move_per_name (d : dir) (names : list (string * nat))
    (objs objs' : list yaml) :
  Forall (fun nr => (nr.2 < length objs)%nat) names ->
  LogConfig.relocate_shared Path is_absolute joinpath d names objs = Ok objs' ->
  length objs' = length objs /\
  (forall r h, objs !! r = Some h ->
     exists h', objs' !! r = Some h' /\
       LogConfig.relocate_times Path is_absolute joinpath d (uses r names) h
         = Ok h') /\
  (forall r, uses r names = 0%nat -> objs' !! r = objs !! r) /\
  (forall r h, objs !! r = Some h -> settled h -> objs' !! r = Some h) /\
  (forall r items filename p,
     objs !! r = Some (YMap items) ->
     get items "filename" = Some filename ->
     LogConfig.truthy filename = true ->
     as_path Path filename = Ok p -> is_absolute p = false ->
     (uses r names = 1%nat ->
      objs' !! r
        = Some (YMap (set items "filename"
                          (YPath (under Path joinpath d p))))) /\
     (uses r names = 2%nat ->
      objs' !! r
        = Some (YMap (set items "filename"
                          (YPath (if is_absolute (under Path joinpath d p)
                                  then under Path joinpath d p
                                  else under Path joinpath d
                                         (under Path joinpath d p))))))) /\
  (forall r items h', objs !! r = Some (YMap items) -> objs' !! r = Some h' ->
     exists items', h' = YMap items' /\ items'.*1 = items.*1 /\
       forall key, key <> "filename"%string -> get items' key = get items key).
Proof.
  intros Hwf Hrun.
  destruct (relocate_shared_times d names objs objs' Hwf Hrun) as [Hlen Hall].
  split; [done|]. split; [done|]. split; [|split; [|split]].
  - intros r Hr.
    destruct (objs !! r) as [h|] eqn:Hh.
    + destruct (Hall r h Hh) as (h' & -> & Ht). rewrite Hr in Ht.
      by injection Ht as <-.
    + apply lookup_ge_None in Hh. apply lookup_ge_None. by rewrite Hlen.
  - intros r h Hh Hs. destruct (Hall r h Hh) as (h' & -> & Ht).
    rewrite relocate_times_settled in Ht by done. by injection Ht as <-.
  - intros r items filename p Hh Hf Htr Hp Habs.
    destruct (Hall r _ Hh) as (h' & -> & Ht).
    pose proof (relocate_handler_relative d items filename p Hf Htr Hp Habs)
      as Hone.
    split; intros Hk; rewrite Hk, (relocate_times_step _ _ _ _ Hone) in Ht.
    + by injection Ht as <-.
    + destruct (is_absolute (under Path joinpath d p)) eqn:Habs2.
      * rewrite relocate_times_settled in Ht; [by injection Ht as <-|].
        cbn [LogConfig.settled]. rewrite get_set, eqb_refl_true.
        right. by exists (under Path joinpath d p).
      * rewrite (relocate_times_step _ _ _ _
                   (relocate_handler_relative d _
                      (YPath (under Path joinpath d p))
                      (under Path joinpath d p)
                      ltac:(by rewrite get_set, eqb_refl_true)
                      eq_refl eq_refl Habs2)) in Ht.
        rewrite set_set in Ht. by injection Ht as <-.
  - intros r items h' Hh Hh'. destruct (Hall r _ Hh) as (h'' & Hh'' & Ht).
    rewrite Hh' in Hh''. injection Hh'' as <-.
    by apply relocate_times_moved in Ht.
Qed.

(** X19: what [load_config] with a [logfile_dir] refuses.  A document that is
    not a dictionary raises [AttributeError]; so does the first handler that
    is not a dictionary, and the first handler whose file name is true but
    neither a string nor a path raises [TypeError], when the handlers before
    it went through. *)
Theorem malformed_config_raises (d : dir) (config : yaml)
    (pre pre' post : list (string * yaml)) (name : string) (h : yaml) :
  dir_given (Some d) = true ->
  ((forall items, config <> YMap items) ->
   relocate (Some d) config = Raise AttributeError) /\
  (relocate_items d pre = Ok pre' ->
   (forall items, h <> YMap items) ->
   relocate_items d (pre ++ (name, h) :: post) = Raise AttributeError) /\
  (forall items filename,
     relocate_items d pre = Ok pre' ->
     h = YMap items -> get items "filename" = Some filename ->
     truthy filename = true -> as_path Path filename = Raise TypeError ->
     relocate_items d (pre ++ (name, h) :: post) = Raise TypeError).
Proof.
  intros Hd.
  assert (Happ : forall e, relocate_items d pre = Ok pre' ->
            relocate_handler d h = Raise e ->
            relocate_items d (pre ++ (name, h) :: post) = Raise e).
  { intros e. revert pre'. induction pre as [|[n0 h0] pre IH]; intros pre'.
    - intros _ Hh. cbn [app LogConfig.relocate_items]. by rewrite Hh.
    - cbn [app LogConfig.relocate_items].
      destruct (relocate_handler d h0) as [h0'|]; [|done]. cbn.
      destruct (relocate_items d pre) as [pre1|] eqn:Hpre; [|done].
      intros _ Hh. by rewrite (IH pre1 eq_refl Hh). }
  split; [|split].
  - intros Hc. unfold LogConfig.relocate. rewrite Hd.
    destruct config; try done. by destruct (Hc items).
  - intros Hpre Hh. apply Happ; [done|].
    destruct h; try done. by destruct (Hh items).
  - intros items filename Hpre -> Hf Ht Hp. apply Happ; [done|].
    unfold LogConfig.relocate_handler. rewrite Hf. cbn [default from_option id].
    by rewrite Ht, Hp.
Qed.

End Paths.

Lemma absolute_filenames_untouched_witness :
  let relocate :=
    LogConfig.relocate LogConfigSample.Path LogConfigSample.is_absolute
                       LogConfigSample.joinpath in
  let settled_handlers :=
    [("console"%string, LogConfigSample.console);
     ("system"%string, LogConfigSample.system_file)] in
  dir_given (Some LogConfigSample.empty_dir) = false /\
  relocate (Some LogConfigSample.empty_dir) LogConfigSample.listing
    = Ok LogConfigSample.listing /\
  Forall (fun nh => LogConfig.settled LogConfigSample.Path
                      LogConfigSample.is_absolute nh.2) settled_handlers /\
  relocate (Some LogConfigSample.logs)
           (YMap (LogConfigSample.items_of settled_handlers))
    = Ok (YMap (LogConfigSample.items_of settled_handlers)).
Proof.
  intros relocate settled_handlers.
  assert (Hs : Forall (fun nh => LogConfig.settled LogConfigSample.Path
                         LogConfigSample.is_absolute nh.2) settled_handlers).
  { apply Forall_cons; split; [exact I|].
    apply Forall_cons; split; [|apply Forall_nil_2].
    right. eexists. split; reflexivity. }
  destruct (absolute_filenames_untouched LogConfigSample.Path
              LogConfigSample.is_absolute LogConfigSample.joinpath
              (Some LogConfigSample.empty_dir) LogConfigSample.listing)
    as [Hoff _].
  destruct (absolute_filenames_untouched LogConfigSample.Path
              LogConfigSample.is_absolute LogConfigSample.joinpath
              (Some LogConfigSample.logs)
              (YMap (LogConfigSample.items_of settled_handlers)))
    as [_ Habs].
  split; [reflexivity|]. split; [exact (Hoff eq_refl)|]. split; [exact Hs|].
  exact (Habs _ _ eq_refl eq_refl Hs).
Defined.

Lemma shared_handlers_move_per_name_witness :
  let relocate_shared :=
    LogConfig.relocate_shared LogConfigSample.Path LogConfigSample.is_absolute
                              LogConfigSample.joinpath LogConfigSample.logs in
  let objs := [LogConfigSample.console; LogConfigSample.rank_file;
               LogConfigSample.rank_file] in
  let objs' := [LogConfigSample.console; LogConfigSample.twice_moved_rank_file;
                LogConfigSample.rank_file] in
  Forall (fun nr => (nr.2 < length objs)%nat) LogConfigSample.aliased_names /\
  relocate_shared LogConfigSample.aliased_names objs = Ok objs' /\
  uses 1 LogConfigSample.aliased_names = 2%nat /\
  LogConfigSample.is_absolute "mpisppy.log" = false /\
  objs' !! 0%nat = Some LogConfigSample.console /\
  objs' !! 1%nat = Some LogConfigSample.twice_moved_rank_file /\
  objs' !! 2%nat = objs !! 2%nat /\
  relocate_shared [("file"%string, 1%nat)] objs
    = Ok [LogConfigSample.console; LogConfigSample.moved_rank_file;
          LogConfigSample.rank_file].
Proof.
  intros relocate_shared objs objs'.
  assert (Hwf : Forall (fun nr => (nr.2 < length objs)%nat)
                       LogConfigSample.aliased_names).
  { repeat (apply Forall_cons; split; [cbn; lia|]). apply Forall_nil_2. }
  assert (Hrun : relocate_shared LogConfigSample.aliased_names objs = Ok objs')
    by (vm_compute; reflexivity).
  destruct (shared_handlers_move_per_name LogConfigSample.Path
              LogConfigSample.is_absolute LogConfigSample.joinpath
              LogConfigSample.logs LogConfigSample.aliased_names objs objs'
              Hwf Hrun) as (_ & _ & Hnone & Hsettled & Hrel & _).
  split; [exact Hwf|]. split; [exact Hrun|]. split; [reflexivity|].
  split; [reflexivity|].
  split; [exact (Hsettled 0%nat LogConfigSample.console eq_refl I)|].
  split; [|split; [exact (Hnone 2%nat eq_refl)|vm_compute; reflexivity]].
  exact (proj2 (Hrel 1%nat _ (YStr "mpisppy.log") "mpisppy.log"%string
                  eq_refl eq_refl eq_refl eq_refl eq_refl) eq_refl).
Defined.

Lemma malformed_config_raises_witness :
  let relocate_items :=
    LogConfig.relocate_items LogConfigSample.Path LogConfigSample.is_absolute
                             LogConfigSample.joinpath LogConfigSample.logs in
  let pre := [("console"%string, LogConfigSample.console)] in
  let post := [("system"%string, LogConfigSample.system_file)] in
  dir_given (Some LogConfigSample.logs) = true /\
  LogConfig.relocate LogConfigSample.Path LogConfigSample.is_absolute
    LogConfigSample.joinpath (Some LogConfigSample.logs)
    LogConfigSample.listing
    = Raise AttributeError /\
  relocate_items pre = Ok pre /\
  relocate_items (pre ++ ("file"%string, YStr "mpisppy.log") :: post)
    = Raise AttributeError /\
  relocate_items
    (pre ++ ("file"%string, YMap [("filename"%string, YInt 5)]) :: post)
    = Raise TypeError.
Proof.
  intros relocate_items pre post.
  destruct (malformed_config_raises LogConfigSample.Path
              LogConfigSample.is_absolute LogConfigSample.joinpath
              LogConfigSample.logs LogConfigSample.listing pre pre post "file"
              (YStr "mpisppy.log") eq_refl) as (Hdoc & Hnodict & _).
  destruct (malformed_config_raises LogConfigSample.Path
              LogConfigSample.is_absolute LogConfigSample.joinpath
              LogConfigSample.logs LogConfigSample.listing pre pre post "file"
              (YMap [("filename"%string, YInt 5)]) eq_refl) as (_ & _ & Hname).
  split; [reflexivity|].
  split; [apply Hdoc; intros items; discriminate|].
  split; [reflexivity|].
  split; [apply Hnodict; [reflexivity|intros items; discriminate]|].
  exact (Hname _ (YInt 5) eq_refl eq_refl eq_refl eq_refl eq_refl).
Defined.

End LogConfigFacts.

Module FarmerFacts.
Import FarmerCylinders.

Lemma scenario_names_lookup (num_scen : Z) (i : nat) :
  (i < Z.to_nat num_scen)%nat ->
  scenario_names num_scen !! i = Some ("scen" +:+ pretty i).
Proof.
  intros Hi. unfold scenario_names. rewrite list_lookup_fmap.
  by rewrite lookup_seq_lt.
Qed.

(** X20: the scenario names the driver makes up are [num_scens] many (none
    when [num_scens] is not positive), pairwise distinct, and the [i]-th is
    ["scen"] followed by [i] in decimal. *)
Theorem scenario_names_distinct (num_scen : Z) :
  length (scenario_names num_scen) = Z.to_nat num_scen /\
  NoDup (scenario_names num_scen) /\
  (forall i : nat, (i < Z.to_nat num_scen)%nat ->
     scenario_names num_scen !! i = Some ("scen" +:+ pretty i)) /\
  (num_scen <= 0 -> scenario_names num_scen = []).
Proof.
  split; [|split; [|split]].
  - unfold scenario_names. by rewrite length_fmap, length_seq.
  - unfold scenario_names. apply NoDup_fmap_2; [|apply NoDup_seq].
    intros x y Hxy. apply (inj pretty).
    by apply (inj (String.app "scen")) in Hxy.
  - apply scenario_names_lookup.
  - intros Hn. unfold scenario_names.
    by replace (Z.to_nat num_scen) with 0%nat by lia.
Qed.

Lemma scenario_names_distinct_witness :
  length (scenario_names 3) = 3%nat /\
  NoDup (scenario_names 3) /\
  (2 < Z.to_nat 3)%nat /\
  scenario_names 3 !! 2%nat = Some "scen2"%string /\
  -1 <= 0 /\
  scenario_names (-1) = [].
Proof.
  destruct (scenario_names_distinct 3) as (Hlen & Hnd & Hith & _).
  destruct (scenario_names_distinct (-1)) as (_ & _ & _ & Hnone).
  assert (H2 : (2 < Z.to_nat 3)%nat) by (simpl; lia).
  split; [exact Hlen|]. split; [exact Hnd|]. split; [exact H2|].
  split; [|split; [lia|apply Hnone; lia]].
  etrans; [exact (Hith 2%nat H2)|]. vm_compute. reflexivity.
Defined.

Lemma append_if_sublist {A} (flag : bool) (x : A) (l k : list A) :
  sublist l k -> sublist (append_if flag x l) (k ++ [x]).
Proof.
  intros Hs. unfold append_if. destruct flag.
  - by apply sublist_app.
  - rewrite <-(app_nil_r l). apply sublist_app; [done|]. apply sublist_nil_l.
Qed.

Lemma elem_of_append_if {A} (flag : bool) (x y : A) (l : list A) :
  y ∈ append_if flag x l <-> y ∈ l \/ (flag = true /\ y = x).
Proof.
  unfold append_if. destruct flag.
  - rewrite elem_of_app, list_elem_of_singleton. naive_solver.
  - naive_solver.
Qed.

(** X21: the driver refuses to start exactly when there is neither a
    [--default-rho] nor a [_rho_setter], and then with [RuntimeError];
    otherwise it spins the wheel.  The hub is the PH hub over the scenario
    names made from [--num-scens], with [use_integer] off, the crops
    multiplier and the rho setter, and with the adaptive rho setter (and its
    verbose option) put in exactly when [--use-adaptive-rho-setter] is
    given.  The spokes are, in the order FWPH, Lagrangian, xhat looper, xhat
    shuffle, exactly those whose [--with-...] flag is given: each of the
    four is in the list if and only if its flag is set, each is built on
    the hub's scenario names and crops multiplier, and the Lagrangian spoke
    gets the rho setter. *)
Theorem driver_spins_the_wheel (a : args) (has_rho_setter : bool) :
  let b := Beans (scenario_names (num_scens a)) false (crops_mult a) in
  (main a has_rho_setter
     = Py.Raise (Py.RuntimeError "No rho_setter so there must be --default-rho")
   <-> default_rho a = None /\ has_rho_setter = false) /\
  ((forall e, main a has_rho_setter = Py.Raise e ->
      e = Py.RuntimeError "No rho_setter so there must be --default-rho")) /\
  (is_Some (default_rho a) \/ has_rho_setter = true ->
   exists spokes,
     main a has_rho_setter
       = Py.Ok (Hub b has_rho_setter
                    (if use_adaptive_rho_setter a
                     then Some "AdaptiveRhoSetter"%string else None)
                    (if use_adaptive_rho_setter a then Some true else None),
                spokes) /\
     sublist spokes
       [fwph_spoke b; lagrangian_spoke b has_rho_setter;
        xhatlooper_spoke b; xhatshuffle_spoke b] /\
     (forall s, s ∈ spokes <->
        (with_fwph a = true /\ s = fwph_spoke b) \/
        (with_lagrangian a = true /\ s = lagrangian_spoke b has_rho_setter) \/
        (with_xhatlooper a = true /\ s = xhatlooper_spoke b) \/
        (with_xhatshuffle a = true /\ s = xhatshuffle_spoke b))).
Proof.
  intros b. unfold main. fold b.
  destruct (bool_decide (default_rho a = None) && negb has_rho_setter)
    eqn:Hgo.
  - apply andb_true_iff in Hgo as [Hrho Hset].
    apply bool_decide_eq_true in Hrho. apply negb_true_iff in Hset.
    split; [done|]. split; [by intros e [= <-]|].
    intros [[r Hr]|Hs]; [by rewrite Hrho in Hr|by rewrite Hset in Hs].
  - split.
    { split; [done|]. intros [Hrho ->]. rewrite Hrho in Hgo.
      by rewrite bool_decide_eq_true_2 in Hgo. }
    split; [done|]. intros _. cbv zeta. eexists. split.
    { by destruct (use_adaptive_rho_setter a). }
    split.
    + change [fwph_spoke b; lagrangian_spoke b has_rho_setter;
              xhatlooper_spoke b; xhatshuffle_spoke b]
        with ((((([] ++ [fwph_spoke b]) ++ [lagrangian_spoke b has_rho_setter])
                ++ [xhatlooper_spoke b]) ++ [xhatshuffle_spoke b])).
      by repeat apply append_if_sublist.
    + intros s. rewrite !elem_of_append_if, elem_of_nil. naive_solver.
Qed.

Lemma driver_spins_the_wheel_witness :
  let b := Beans ["scen0"; "scen1"; "scen2"]%string false 1 in
  default_rho no_rho = None /\
  main no_rho false
    = Py.Raise (Py.RuntimeError "No rho_setter so there must be --default-rho") /\
  is_Some (default_rho three_scens) /\
  (exists spokes,
     main three_scens false = Py.Ok (Hub b false None None, spokes) /\
     (lagrangian_spoke b false ∈ spokes) /\
     (xhatshuffle_spoke b ∈ spokes) /\
     (fwph_spoke b ∉ spokes) /\
     (xhatlooper_spoke b ∉ spokes)) /\
  main three_scens false
    = Py.Ok (Hub b false None None,
             [lagrangian_spoke b false; xhatshuffle_spoke b]).
Proof.
  intros b.
  destruct (driver_spins_the_wheel no_rho false) as [Hraise _].
  destruct (driver_spins_the_wheel three_scens false) as (_ & _ & Hgo).
  destruct (Hgo (or_introl (ex_intro _ _ eq_refl)))
    as (spokes & Hmain & _ & Hin).
  split; [reflexivity|]. split; [exact (proj2 Hraise (conj eq_refl eq_refl))|].
  split; [by eexists|]. split; [|vm_compute; reflexivity].
  exists spokes. split; [exact Hmain|].
  split; [apply Hin; right; left; split; reflexivity|].
  split; [apply Hin; do 3 right; split; reflexivity|].
  split; intros Hs; apply Hin in Hs;
    destruct Hs as [[Hf _]|[[_ Hs]|[[Hf _]|[_ Hs]]]]; discriminate.
Defined.

End FarmerFacts.
